(** * sintable.cpp: table-based sinewave generators

    A shallow embedding of [sw/sintable.cpp].  The file has two entry
    points, [sintable] and [quarterwav]; each one writes a Verilog module
    to a stream and hands a table of sine samples to [hextable].

    - C [int] and [long] values are integers of [Z]; the shifts and the
      subtraction that build [tbl_entries] and [maxv] carry their 32 and
      64 bit wrap-around.
    - C [double] values are binary64 numbers, a significand and an
      exponent of [Z]: conversions, products, sums and quotients round to
      53 bits, to nearest and ties to even, and the conversion to [long]
      truncates toward zero.  [M_PI] is its [double].  [sin] comes from
      the C library: it is a parameter [libm_sin] of the table loops, and
      the properties that depend on its results say what they ask of it.
    - A shift of an [int] by a negative count, or past its width, is
      undefined: a run that reaches one stops with [Undefined].
    - [fprintf], [exit] and [assert] act on a [world] (the text written to
      [fp], the text written to [stderr], the calls of [hextable]) that is
      threaded through a small monad with early termination.
    - The Verilog that the generators print is given a cycle semantics in
      the modules [DirectHW] and [QuarterHW]: one function per printed
      [always] block. *)

From Stdlib Require Import Reals ZArith List String Ascii Bool Lia Lra Psatz.
From Stdlib Require Import DecimalString Machin.
From Stdlib Require Floats Uint63.
Import ListNotations.

Local Open Scope Z_scope.

(** ** C literals and [printf] *)

Module CString.

Definition newline : ascii := "010"%char.
Definition tab : ascii := "009"%char.
Definition dquote : ascii := "034"%char.

(** The escape sequences of a C string literal.  A literal of this file is
    written as in the source and read through [lit]; since a Rocq string
    cannot hold a backslash followed by the quote character, the C escape
    for the double quote is spelled [\q] here. *)
Fixpoint lit (s : string) : string :=
  match s with
  | EmptyString => EmptyString
  | String "\" (String c rest) =>
      String (match c with
              | "n" => newline
              | "t" => tab
              | "q" => dquote
              | _ => c
              end)%char (lit rest)
  | String c rest => String c (lit rest)
  end.

Inductive printf_arg : Type :=
| ArgS (s : string)
| ArgD (z : Z).

Definition decimal (z : Z) : string := NilZero.string_of_int (Z.to_int z).

(** [%2d]: right-justified in a field of at least two characters. *)
Definition pad2 (s : string) : string :=
  match String.length s with
  | O => "  "
  | S O => String " " s
  | _ => s
  end.

(** The conversions the source uses: [%s] and [%2d].  A missing or
    ill-typed argument prints nothing. *)
Fixpoint sprintf (fmt : string) (args : list printf_arg) : string :=
  match fmt with
  | EmptyString => EmptyString
  | String "%" (String "s" rest) =>
      match args with
      | ArgS s :: args' => s ++ sprintf rest args'
      | _ => sprintf rest (tl args)
      end
  | String "%" (String "2" (String "d" rest)) =>
      match args with
      | ArgD z :: args' => pad2 (decimal z) ++ sprintf rest args'
      | _ => sprintf rest (tl args)
      end
  | String c rest => String c (sprintf rest args)
  end.

End CString.
Import CString.

(** ** Machine integers *)

Module Machine.

(** Two's complement wrap-around to [bits] bits. *)
Definition wrap (bits z : Z) : Z :=
  (z + 2 ^ (bits - 1)) mod 2 ^ bits - 2 ^ (bits - 1).

(** [a << n] on [int] and on [long]; [a - b] on [long]. *)
Definition int_shl (a n : Z) : Z := wrap 32 (Z.shiftl a n).
Definition long_shl (a n : Z) : Z := wrap 64 (Z.shiftl a n).
Definition long_sub (a b : Z) : Z := wrap 64 (a - b).

(** [a << n] on [int] has a defined value when [a] is not negative, the
    count is neither negative nor as large as the width, and the result
    is an [int]; otherwise the program has no defined behaviour. *)
Definition int_shl_defined (a n : Z) : bool :=
  (0 <=? a) && (0 <=? n) && (n <? 32) && (a * 2 ^ n <? 2 ^ 31).

(** [a / b] on [int]: the quotient truncated toward zero. *)
Definition int_div (a b : Z) : Z := Z.quot a b.

Definition EXIT_FAILURE : Z := 1.

End Machine.
Import Machine.

(** ** Binary64 numbers *)

Module Binary64.

(** A [double] other than an infinity or a NaN: [mant * 2^expo].  The
    operations below return zero as [Double 0 0] and every other number
    with a significand of exactly 53 bits, so that equal numbers are
    equal records.  The exponent has no limits: the numbers of this
    program stay far inside the range of the format. *)
Record double : Type := Double { mant : Z; expo : Z }.

Definition zero : double := Double 0 0.

(** The number of the format nearest to [m * 2^e], ties to the even
    significand. *)
Definition round53 (m e : Z) : double :=
  if m =? 0 then zero
  else
    let a := Z.abs m in
    let drop := Z.log2 a - 52 in
    if drop <=? 0 then Double (m * 2 ^ (- drop)) (e + drop)
    else
      let q := Z.shiftr a drop in
      let r := Z.land a (Z.ones drop) in
      let half := Z.shiftl 1 (drop - 1) in
      let q' := if r <? half then q
                else if half <? r then q + 1
                else if Z.even q then q else q + 1 in
      if q' =? 2 ^ 53 then Double (Z.sgn m * 2 ^ 52) (e + drop + 1)
      else Double (Z.sgn m * q') (e + drop).

(** [(double)k] for an [int] and for a [long]. *)
Definition of_int (k : Z) : double := round53 k 0.
Definition of_long (z : Z) : double := round53 z 0.

(** [a * b], [a + b] and [a / b]: the exact result, rounded.  The
    quotient is taken with 56 more bits and one more that tells whether
    anything is left, which is all the rounding looks at. *)
Definition mul (a b : double) : double :=
  round53 (mant a * mant b) (expo a + expo b).

Definition add (a b : double) : double :=
  let e := Z.min (expo a) (expo b) in
  round53 (mant a * 2 ^ (expo a - e) + mant b * 2 ^ (expo b - e)) e.

Definition div (a b : double) : double :=
  let s := Z.sgn (mant a) * Z.sgn (mant b) in
  let n := Z.abs (mant a) * 2 ^ 56 in
  let q := n / Z.abs (mant b) in
  let sticky := if n mod Z.abs (mant b) =? 0 then 0 else 1 in
  round53 (s * (2 * q + sticky)) (expo a - expo b - 57).

(** [(long)d]: the fractional part is discarded. *)
Definition to_long (d : double) : Z :=
  if 0 <=? expo d then mant d * 2 ^ expo d
  else Z.quot (mant d) (2 ^ (- expo d)).

(** The literal [2.0] and [M_PI] of [math.h],
    [3.14159265358979323846] read as a [double]. *)
Definition two : double := Double 4503599627370496 (-51).
Definition M_PI : double := Double 7074237752028440 (-51).

(** The real number a [double] stands for. *)
Definition value (d : double) : R := (IZR (mant d) * powerRZ 2 (expo d))%R.

Definition opp (d : double) : double := Double (- mant d) (expo d).

(** The same numbers in the kernel's binary64 arithmetic; the
    operations above are checked against it below. *)
Definition to_prim (d : double) : PrimFloat.float :=
  if mant d =? 0 then PrimFloat.zero
  else FloatOps.SF2Prim
         (SpecFloat.S754_finite (mant d <? 0) (Z.to_pos (Z.abs (mant d)))
                                (expo d)).

Definition of_prim (f : PrimFloat.float) : option double :=
  match FloatOps.Prim2SF f with
  | SpecFloat.S754_zero _ => Some zero
  | SpecFloat.S754_finite s m e =>
      Some (round53 (if s then Z.neg m else Z.pos m) e)
  | _ => None
  end.

Definition same_as_prim (a b : double) : bool :=
  let agree (x : option double) (y : double) :=
    match x with
    | Some d => (mant d =? mant y) && (expo d =? expo y)
    | None => false
    end in
  agree (of_prim (to_prim a)) a
  && agree (of_prim (PrimFloat.mul (to_prim a) (to_prim b))) (mul a b)
  && agree (of_prim (PrimFloat.add (to_prim a) (to_prim b))) (add a b)
  && (if mant b =? 0 then true
      else agree (of_prim (PrimFloat.div (to_prim a) (to_prim b)))
                 (div a b)).

Definition long_same_as_prim (z : Z) : bool :=
  let f := PrimFloat.of_uint63 (Uint63.of_Z (Z.abs z)) in
  match of_prim (if z <? 0 then PrimFloat.opp f else f) with
  | Some d => (mant d =? mant (of_long z)) && (expo d =? expo (of_long z))
  | None => false
  end.

End Binary64.
Import Binary64.

(** ** The effects of a generator run *)

(** Table cells: [new long[n]] gives cells without a value; a store gives
    a cell its value. *)
Definition buffer : Type := list (option Z).

(** One call [hextable(fname, lgtable, ow, tbldata)]. *)
Record hexcall : Type := HexCall {
  hx_fname : string;
  hx_lgtable : Z;
  hx_ow : Z;
  hx_data : buffer
}.

Record world : Type := World {
  w_fp : string;
  w_stderr : string;
  w_hex : list hexcall
}.

(** A run returns, calls [exit], stops at a failed assertion, or reaches
    an operation that has no defined behaviour, after which nothing is
    known of the program. *)
Inductive outcome (A : Type) : Type :=
| Returned (a : A) (w : world)
| Exited (status : Z) (w : world)
| Aborted (w : world)
| Undefined (w : world).
Arguments Returned {A} a w.
Arguments Exited {A} status w.
Arguments Aborted {A} w.
Arguments Undefined {A} w.

Definition M (A : Type) : Type := world -> outcome A.

Definition ret {A} (a : A) : M A := fun w => Returned a w.

Definition bind {A B} (c : M A) (k : A -> M B) : M B :=
  fun w =>
    match c w with
    | Returned a w' => k a w'
    | Exited s w' => Exited s w'
    | Aborted w' => Aborted w'
    | Undefined w' => Undefined w'
    end.

Notation "c1 ;; c2" := (bind c1 (fun _ => c2))
  (at level 61, right associativity).

Definition fputs (s : string) : M unit :=
  fun w => Returned tt (World (w_fp w ++ s) (w_stderr w) (w_hex w)).

Definition fprintf (fmt : string) (args : list printf_arg) : M unit :=
  fputs (sprintf (lit fmt) args).

Definition eprintf (fmt : string) (args : list printf_arg) : M unit :=
  fun w =>
    Returned tt
      (World (w_fp w) (w_stderr w ++ sprintf (lit fmt) args) (w_hex w)).

Definition exit {A} (status : Z) : M A := fun w => Exited status w.

(** [assert(c)]; the message a failed assertion prints is the C library's
    and is left out. *)
Definition assert (c : bool) : M unit :=
  fun w => if c then Returned tt w else Aborted w.

Definition when (c : bool) (body : M unit) : M unit :=
  if c then body else ret tt.

(** An operation whose behaviour is defined under [c] only. *)
Definition defined (c : bool) : M unit :=
  fun w => if c then Returned tt w else Undefined w.

Definition hextable (fname : string) (lgtable ow : Z) (tbldata : buffer)
  : M unit :=
  fun w =>
    Returned tt
      (World (w_fp w) (w_stderr w)
             (w_hex w ++ [HexCall fname lgtable ow tbldata])%list).

(** Modelled from the spec: [hextable] is declared in [hexfile.h], which is
    not among the sources.  It writes one entry per table position, for
    the [2^lgtable] positions of the table it is given; these are the
    cells it reads. *)
Definition persisted (c : hexcall) : buffer :=
  firstn (Z.to_nat (2 ^ hx_lgtable c)) (hx_data c).

(** ** The table loops *)

Definition new_long (n : Z) : buffer := repeat None (Z.to_nat n).

Fixpoint update (buf : buffer) (i : nat) (v : Z) : buffer :=
  match buf, i with
  | [], _ => []
  | _ :: t, O => Some v :: t
  | c :: t, S i' => c :: update t i' v
  end.

(** [tbldata[k] = v]; the loops never store outside the buffer, where the
    model leaves the buffer as it is. *)
Definition store (buf : buffer) (k v : Z) : buffer :=
  if k <? 0 then buf else update buf (Z.to_nat k) v.

Fixpoint iterate (n : nat) (k : Z) (body : Z -> buffer -> buffer)
  (buf : buffer) : buffer :=
  match n with
  | O => buf
  | S n' => iterate n' (k + 1) body (body k buf)
  end.

(** [for (int k = 0; k < bound; k++) body] *)
Definition for_k (bound : Z) (body : Z -> buffer -> buffer) (buf : buffer)
  : buffer :=
  iterate (Z.to_nat bound) 0 body buf.

(** [long maxv = (1l<<(ow-1))-1l;] *)
Definition maxv (ow : Z) : Z := long_sub (long_shl 1 (ow - 1)) 1.

(** [int tbl_entries = (1<<lgtable);] *)
Definition tbl_entries (lgtable : Z) : Z := int_shl 1 lgtable.

(** Lines 139-140: [ph = 2.0 * M_PI * (double)k / (double)tbl_entries]. *)
Definition sintable_phase (lgtable k : Z) : double :=
  div (mul (mul two M_PI) (of_int k)) (of_int (tbl_entries lgtable)).

(** Lines 268-270: the same, and [ph += M_PI / (double)tbl_entries]. *)
Definition quarterwav_phase (lgtable k : Z) : double :=
  let ph := div (mul (mul two M_PI) (of_int k))
                (of_int (tbl_entries lgtable)) in
  add ph (div M_PI (of_int (tbl_entries lgtable))).

Section Sine.

(** [sin] of [math.h] is not among the sources: it is a parameter of the
    two loops, and a property that needs something of it says what. *)
Variable libm_sin : double -> double.

(** Line 142, [tbldata[k] = (long)maxv * sin(ph)]: the cast applies to
    [maxv], which is converted to [double] for the product, and the
    product is converted to [long] by the assignment. *)
Definition sintable_entry (lgtable ow k : Z) : Z :=
  let ph := sintable_phase lgtable k in
  to_long (mul (of_long (maxv ow)) (libm_sin ph)).

(** Line 271, [tbldata[k] = maxv * sin(ph)]. *)
Definition quarterwav_entry (lgtable ow k : Z) : Z :=
  let ph := quarterwav_phase lgtable k in
  to_long (mul (of_long (maxv ow)) (libm_sin ph)).

(** Lines 133-143. *)
Definition sintable_tbldata (lgtable ow : Z) : buffer :=
  let tbldata := new_long (int_shl 1 lgtable) in
  for_k (tbl_entries lgtable)
        (fun k tbldata => store tbldata k (sintable_entry lgtable ow k))
        tbldata.

(** Lines 262-272. *)
Definition quarterwav_tbldata (lgtable ow : Z) : buffer :=
  let tbldata := new_long (int_shl 1 lgtable) in
  for_k (int_div (tbl_entries lgtable) 4)
        (fun k tbldata => store tbldata k (quarterwav_entry lgtable ow k))
        tbldata.

End Sine.

(** ** The generators *)

Section Generators.

Local Open Scope string_scope.

(** Modelled from the spec: [legal.h] is not among the sources.
    [legal(fp, fname, PROJECT, PURPOSE)] writes a header block to the
    stream, and [modulename(fname)] derives the module identifier from the
    file name.  [legal_text] is the header written, [PROJECT] the project
    label of [legal.h]. *)
Variable legal_text : string -> string -> string -> string.
Variable modulename : string -> string.
Variable PROJECT : string.

(** [sin] of [math.h], as in the loops above. *)
Variable libm_sin : double -> double.

Definition legal (fname project purpose : string) : M unit :=
  fputs (legal_text fname project purpose).

(** Lines 51-148. *)
Definition sintable (fname : string) (lgtable ow : Z)
  (with_reset with_aux async_reset : bool) : M unit :=
  let PURPOSE := lit (
    "This is a very simple sinewave table lookup approach\n" ++
    "//\t\tapproach to generating a sine wave.  It has the lowest latency\n" ++
    "//\tamong all sinewave generation alternatives.") in

  when (lgtable >=? 24)%Z (
    eprintf "ERR: Requested table size is greater than 16M\n\n" [] ;;
    eprintf "While this is an arbitrary limit, few FPGA's have this kind of\n" [] ;;
    eprintf "block RAM.  If you know what you are doing, you can change this\n" [] ;;
    eprintf "limit up to perhaps 30 without much hassle.  Beyond that, be\n" [] ;;
    eprintf "aware of integer overflow.\n" [] ;;
    exit EXIT_FAILURE) ;;

  legal fname PROJECT PURPOSE ;;
  fprintf "`default_nettype\tnone\n//\n" [] ;;
  let name := modulename fname in

  let resetw := if negb with_reset then ""
                else if async_reset then "i_areset_n, " else "i_reset, " in
  let always_reset :=
    if with_reset && async_reset then
      lit ("\talways @(posedge i_clk, negedge i_areset_n)\n" ++
           "\tif (!i_areset_n)\n")
    else if with_reset then
      lit ("\talways @(posedge i_clk)\n" ++
           "\tif (i_reset)\n")
    else
      lit "\talways @(posedge i_clk)\n\t" in

  fprintf (
    "module\t%s(i_clk, %si_ce, %si_phase, o_val%s);\n" ++
    "\t//\n" ++
    "\tparameter\tPW =%2d, // Number of bits in the input phase\n" ++
    "\t\t\tOW =%2d; // Number of output bits\n" ++
    "\t//\n" ++
    "\tinput\twire\t\t\ti_clk, %si_ce;\n" ++
    "\tinput\twire\t[(PW-1):0]\ti_phase;\n" ++
    "\toutput\treg\t[(OW-1):0]\to_val;\n")
    [ArgS name;
     ArgS resetw;
     ArgS (if with_aux then "i_aux, " else "");
     ArgS (if with_aux then ", o_aux" else "");
     ArgD lgtable; ArgD ow;
     ArgS resetw] ;;
  when with_aux (
    fprintf (
      "\t//\n" ++
      "\tinput\twire\t\t\ti_aux;\n" ++
      "\toutput\treg\t\t\to_aux;\n") []) ;;
  fprintf (
    "\n" ++
    "\treg\t[(OW-1):0]\t\ttbl\t[0:((1<<PW)-1)];\n" ++
    "\n" ++
    "\tinitial\t$readmemh(\q%s.hex\q, tbl);\n" ++
    "\n") [ArgS name] ;;

  fprintf "%s" [ArgS always_reset] ;;
  when with_reset (
    fprintf (
      "\t\to_val <= 0;\n" ++
      "\telse ") []) ;;

  fprintf ("if (i_ce)\n" ++
    "\t\to_val <= tbl[i_phase];\n\n") [] ;;

  when with_aux (
    fprintf "%s" [ArgS always_reset] ;;
    when with_reset (
      fprintf (
        "\t\to_aux <= 0;\n" ++
        "\telse ") []) ;;
    fprintf ("if (i_ce)\n" ++
      "\t\to_aux <= i_aux;\n") []) ;;
  fprintf "endmodule\n" [] ;;

  (* [1<<lgtable], twice, in lines 134 and 135 *)
  defined (int_shl_defined 1 lgtable) ;;
  let tbldata := sintable_tbldata libm_sin lgtable ow in

  hextable fname lgtable ow tbldata.

(** Lines 150-277. *)
Definition quarterwav (fname : string) (lgtable ow : Z)
  (with_reset with_aux async_reset : bool) : M unit :=
  let PURPOSE := lit (
    "This is a touch more complicated than the simple sinewave table\n" ++
    "//\t\tlookup approach to generating a sine wave.  This approach\n" ++
    "//\texploits the fact that a sinewave table has symmetry within it,\n" ++
    "//\tenough symmetry so as to cut the necessary size of the table\n" ++
    "//\tin fourths.  Generating the sinewave value, though, requires\n" ++
    "//\ta little more logic to make this possible.") in

  assert (lgtable >? 2)%Z ;;
  when (lgtable >=? 26)%Z (
    eprintf "ERR: Requested table size is greater than 16M\n\n" [] ;;
    eprintf "While this is an arbitrary limit, few FPGA's have this kind of\n" [] ;;
    eprintf "block RAM.  If you know what you are doing, you can change this\n" [] ;;
    eprintf "limit up to perhaps 30 without much hassle.  Beyond that, be\n" [] ;;
    eprintf "aware of integer overflow.\n" [] ;;
    exit EXIT_FAILURE) ;;

  legal fname PROJECT PURPOSE ;;
  let name := modulename fname in

  let resetw := if negb with_reset then ""
                else if async_reset then "i_areset_n" else "i_reset" in
  let always_reset :=
    if with_reset && async_reset then
      lit ("\talways @(posedge i_clk, negedge i_areset_n)\n" ++
           "\tif (!i_areset_n)\n")
    else if with_reset then
      lit ("\talways @(posedge i_clk)\n" ++
           "\tif (i_reset)\n")
    else
      lit "\talways @(posedge i_clk)\n\t" in

  fprintf (
    "module\t%s(i_clk, %s%si_ce, i_phase, %so_val%s);\n" ++
    "\t//\n" ++
    "\tparameter\tPW =%2d, // Number of bits in the input phase\n" ++
    "\t\t\tOW =%2d; // Number of output bits\n" ++
    "\t//\n" ++
    "\tinput\t\t\t\ti_clk, %s%si_ce;\n" ++
    "\tinput\twire\t[(PW-1):0]\ti_phase;\n" ++
    "\toutput\treg\t[(OW-1):0]\to_val;\n")
    [ArgS name;
     ArgS resetw; ArgS (if with_reset then ", " else "");
     ArgS (if with_aux then "i_aux, " else "");
     ArgS (if with_aux then ", o_aux" else "");
     ArgD lgtable; ArgD ow;
     ArgS resetw; ArgS (if with_reset then ", " else "")] ;;

  when with_aux (
    fprintf ("\t//\n" ++
      "\tinput\twire\t\t\ti_aux;\n" ++
      "\toutput\twire\t\t\to_aux;\n") []) ;;

  fprintf (
    "\n" ++
    "\treg\t[(OW-1):0]\t\tquartertable\t[0:((1<<(PW-2))-1)];\n" ++
    "\n" ++
    "\tinitial\t$readmemh(\q%s.hex\q, quartertable);\n" ++
    "\n" ++
    "\treg\t[1:0]\tnegate;\n" ++
    "\treg\t[(PW-3):0]\tindex;\n" ++
    "\treg\t[(OW-1):0]\ttblvalue;\n" ++
    "\n") [ArgS name] ;;

  fprintf "%s" [ArgS always_reset] ;;

  when with_reset (
    fprintf (
      "\tbegin\n" ++
      "\t\tnegate  <= 2\'b00;\n" ++
      "\t\tindex   <= 0;\n" ++
      "\t\ttblvalue<= 0;\n" ++
      "\t\to_val   <= 0;\n" ++
      "\tend else ") []) ;;

  fprintf (
    "if (i_ce)\n" ++
    "\tbegin\n" ++
      "\t\t// Clock #1\n" ++
      "\t\tnegate[0] <= i_phase[(PW-1)];\n" ++
      "\t\tif (i_phase[(PW-2)])\n" ++
      "\t\t\tindex <= ~i_phase[(PW-3):0];\n" ++
      "\t\telse\n" ++
      "\t\t\tindex <=  i_phase[(PW-3):0];\n" ++
      "" ++
      "\t\t// Clock #2\n" ++
      "\t\ttblvalue <= quartertable[index];\n" ++
      "\t\tnegate[1] <= negate[0];\n" ++
      "" ++
      "\t\t// Output Clock\n" ++
      "\t\tif (negate[1])\n" ++
      "\t\t\to_val <= -tblvalue;\n" ++
      "\t\telse\n" ++
      "\t\t\to_val <=  tblvalue;\n" ++
    "\tend\n\n") [] ;;

  when with_aux (
    fprintf "\treg [1:0]\taux;\n" [] ;;
    fprintf "%s" [ArgS always_reset] ;;
    when with_reset (
      fprintf ("\t\t{ o_aux, aux } <= 0;\n" ++
        "\telse ") []) ;;
    fprintf "if (i_ce)\n\t\t{ o_aux, aux } <= { aux, i_aux };\n" []) ;;

  fprintf "endmodule\n" [] ;;

  (* [1<<lgtable], twice, in lines 263 and 264 *)
  defined (int_shl_defined 1 lgtable) ;;
  let tbldata := quarterwav_tbldata libm_sin lgtable ow in

  hextable fname (lgtable - 2) ow tbldata.

End Generators.

(** ** The printed hardware *)

(** What the printed modules share: their inputs, the events their
    [always] blocks wait for, and the head [always_reset] of each block. *)
Module Verilog.

Inductive event : Type :=
| posedge_i_clk
| negedge_i_areset_n.

Record inputs : Type := Inputs {
  i_reset : bool;
  i_areset_n : bool;
  i_ce : bool;
  i_phase : Z;
  i_aux : bool
}.

Inductive branch : Type :=
| NotTriggered
| ResetBranch
| ElseBranch.

(** The three texts of [always_reset], in the order of the source:
    - [always @(posedge i_clk, negedge i_areset_n) if (!i_areset_n)];
      on the falling edge of [i_areset_n] its value is low;
    - [always @(posedge i_clk) if (i_reset)];
    - [always @(posedge i_clk)], where the statement that follows is
      the whole body. *)
Definition always_reset (with_reset async_reset : bool) (ev : event)
  (i : inputs) : branch :=
  if with_reset && async_reset then
    match ev with
    | negedge_i_areset_n => ResetBranch
    | posedge_i_clk => if negb (i_areset_n i) then ResetBranch else ElseBranch
    end
  else if with_reset then
    match ev with
    | posedge_i_clk => if i_reset i then ResetBranch else ElseBranch
    | negedge_i_areset_n => NotTriggered
    end
  else
    match ev with
    | posedge_i_clk => ElseBranch
    | negedge_i_areset_n => NotTriggered
    end.

(** A part select [x[(n-1):0]] and an [n] bit register's [~x], [-x]. *)
Definition low_bits (n x : Z) : Z := Z.land x (Z.ones n).
Definition bit_not (n x : Z) : Z := low_bits n (Z.lnot x).
Definition neg (n x : Z) : Z := low_bits n (- x).

(** The value of an [n] bit word read as two's complement. *)
Definition signed (n x : Z) : Z :=
  if x <? 2 ^ (n - 1) then x else x - 2 ^ n.

End Verilog.
Import Verilog.

(** The module printed by [sintable]. *)
Module DirectHW.

Section Module.

Variables with_reset with_aux async_reset : bool.
(** [reg [(OW-1):0] tbl [0:((1<<PW)-1)]] *)
Variable tbl : Z -> Z.

Record regs : Type := Regs {
  o_val : Z;
  o_aux : bool
}.

(** [o_val <= 0; else if (i_ce) o_val <= tbl[i_phase];] *)
Definition o_val_block (ev : event) (i : inputs) (r : regs) : Z :=
  match always_reset with_reset async_reset ev i with
  | NotTriggered => o_val r
  | ResetBranch => 0
  | ElseBranch => if i_ce i then tbl (i_phase i) else o_val r
  end.

(** [o_aux <= 0; else if (i_ce) o_aux <= i_aux;], printed when
    [with_aux]. *)
Definition o_aux_block (ev : event) (i : inputs) (r : regs) : bool :=
  if with_aux then
    match always_reset with_reset async_reset ev i with
    | NotTriggered => o_aux r
    | ResetBranch => false
    | ElseBranch => if i_ce i then i_aux i else o_aux r
    end
  else o_aux r.

Definition step (ev : event) (i : inputs) (r : regs) : regs :=
  Regs (o_val_block ev i r) (o_aux_block ev i r).

(** Successive rising edges of [i_clk], one set of inputs per edge. *)
Definition clocks (l : list inputs) (r : regs) : regs :=
  fold_left (fun r i => step posedge_i_clk i r) l r.

End Module.

End DirectHW.

(** The module printed by [quarterwav]. *)
Module QuarterHW.

(** Clock #1: the bit kept in [negate[0]] and the word kept in [index]. *)
Definition fold_negate (PW phase : Z) : bool := Z.testbit phase (PW - 1).

Definition fold_index (PW phase : Z) : Z :=
  if Z.testbit phase (PW - 2)
  then bit_not (PW - 2) (low_bits (PW - 2) phase)
  else low_bits (PW - 2) phase.

Section Module.

Variables PW OW : Z.
Variables with_reset with_aux async_reset : bool.
(** [reg [(OW-1):0] quartertable [0:((1<<(PW-2))-1)]] *)
Variable quartertable : Z -> Z.

(** [negate], [index], [tblvalue], [o_val] and, when [with_aux],
    [reg [1:0] aux] and [o_aux].  The text declares [o_aux] as
    [output wire] and assigns it in a clocked block; the model reads it
    as the register that assignment makes of it. *)
Record regs : Type := Regs {
  negate0 : bool;
  negate1 : bool;
  index : Z;
  tblvalue : Z;
  o_val : Z;
  aux0 : bool;
  aux1 : bool;
  o_aux : bool
}.

(** The first [always] block.  Its assignments are non-blocking: every
    right-hand side reads the registers as they were before the edge. *)
Definition main_block (ev : event) (i : inputs) (r : regs)
  : bool * bool * Z * Z * Z :=
  match always_reset with_reset async_reset ev i with
  | NotTriggered => (negate0 r, negate1 r, index r, tblvalue r, o_val r)
  | ResetBranch => (false, false, 0, 0, 0)
  | ElseBranch =>
      if i_ce i then
        (fold_negate PW (i_phase i),
         negate0 r,
         fold_index PW (i_phase i),
         quartertable (index r),
         if negate1 r then neg OW (tblvalue r) else tblvalue r)
      else (negate0 r, negate1 r, index r, tblvalue r, o_val r)
  end.

(** The second [always] block, printed when [with_aux]:
    [{ o_aux, aux } <= 0; else if (i_ce) { o_aux, aux } <= { aux, i_aux };]
    The left-hand side is three bits wide, [o_aux] above [aux[1]] above
    [aux[0]]; the right-hand side is [aux[1]], [aux[0]], [i_aux]. *)
Definition aux_block (ev : event) (i : inputs) (r : regs)
  : bool * bool * bool :=
  if with_aux then
    match always_reset with_reset async_reset ev i with
    | NotTriggered => (o_aux r, aux1 r, aux0 r)
    | ResetBranch => (false, false, false)
    | ElseBranch =>
        if i_ce i then (aux1 r, aux0 r, i_aux i)
        else (o_aux r, aux1 r, aux0 r)
    end
  else (o_aux r, aux1 r, aux0 r).

Definition step (ev : event) (i : inputs) (r : regs) : regs :=
  let '(n0, n1, ix, tv, ov) := main_block ev i r in
  let '(oa, a1, a0) := aux_block ev i r in
  Regs n0 n1 ix tv ov a0 a1 oa.

(** Successive rising edges of [i_clk], one set of inputs per edge. *)
Definition clocks (l : list inputs) (r : regs) : regs :=
  fold_left (fun r i => step posedge_i_clk i r) l r.

(** The value [o_val] takes for a phase word once it has passed the three
    registers [index], [tblvalue] and [o_val]. *)
Definition lookup (phase : Z) : Z :=
  let v := quartertable (fold_index PW phase) in
  if fold_negate PW phase then neg OW v else v.

End Module.

(** The same reconstruction on the integers of a table: the entry at the
    folded index, negated in the second half of the period. *)
Definition reconstruct (PW : Z) (table : buffer) (phase : Z) : option Z :=
  match nth_error table (Z.to_nat (fold_index PW phase)) with
  | Some (Some v) => Some (if fold_negate PW phase then - v else v)
  | _ => None
  end.

End QuarterHW.

(** ** The vocabulary of the properties *)

(** [maxValue = 2^(outputWidth-1) - 1]. *)
Definition maxValue (outputWidth : Z) : Z := 2 ^ (outputWidth - 1) - 1.

(** A real number without its fractional part: [truncate] in the words
    of the spec. *)
Definition Rtrunc (x : R) : Z :=
  if Rle_dec 0 x then Int_part x else - Int_part (- x).

(** Modelled from the spec: the reference sample
    [truncate(maxValue * sin(2 pi x / 2^phaseWidth))] at a position [x]
    of the period, with the sine and the product of the real numbers. *)
Definition reference (lgtable ow : Z) (x : R) : Z :=
  Rtrunc (IZR (maxValue ow) * sin (2 * PI * x / IZR (2 ^ lgtable)))%R.

(** What the properties ask of [sin], here of a function [f] in its
    place: its results are numbers of the format in [[-1, 1]]; a result
    is inside [(-1, 1)]; at [x] the result is within [2^-n] of the sine
    of [x]. *)
Definition in_unit (d : double) : bool :=
  (Z.abs (mant d) <? 2 ^ 53)
  && (if 0 <=? expo d then Z.abs (mant d) * 2 ^ expo d <=? 1
      else Z.abs (mant d) <=? 2 ^ (- expo d)).

Definition below_one (d : double) : bool :=
  (Z.abs (mant d) <? 2 ^ 53)
  && (if 0 <=? expo d then Z.abs (mant d) * 2 ^ expo d <? 1
      else Z.abs (mant d) <? 2 ^ (- expo d)).

Definition sine_in_range (f : double -> double) : Prop :=
  forall x, in_unit (f x) = true.

Definition close_to_sine (n : nat) (f : double -> double) (x : double)
  : Prop :=
  (Rabs (value (f x) - sin (value x)) <= / 2 ^ n)%R.

(** The partial sums of the sine series,
    [a - a^3/3! + ... + (-1)^n a^(2n+1)/(2n+1)!], with the factorials as
    integers of [Z]. *)
Fixpoint factZ (n : nat) : Z :=
  match n with
  | O => 1
  | S k => Z.of_nat n * factZ k
  end.

Fixpoint sin_poly (a : R) (n : nat) : R :=
  match n with
  | O => a
  | S k => (sin_poly a k
            + (-1) ^ n * (a ^ (2 * n + 1) / IZR (factZ (2 * n + 1))))%R
  end.

(** [z] is an integer nearest to [x], whatever the rule for ties. *)
Definition nearest (z : Z) (x : R) : Prop := (Rabs (IZR z - x) <= / 2)%R.

(** [needle] is part of the text [hay]. *)
Definition occurs (needle hay : string) : Prop :=
  exists pre post, hay = (pre ++ needle ++ post)%string.

(** The number of words of a memory declared [[lo:hi]]. *)
Definition words (range : Z * Z) : Z := snd range - fst range + 1.

(** The range [[0:((1<<(PW-2))-1)]] of [quartertable]. *)
Definition quartertable_range (PW : Z) : Z * Z := (0, Z.shiftl 1 (PW - 2) - 1).

(** The world a run ends in, and the text a run prints to [fp] when it
    starts in a world where nothing is written yet. *)
Definition final {A} (o : outcome A) : world :=
  match o with
  | Returned _ w => w
  | Exited _ w => w
  | Aborted w => w
  | Undefined w => w
  end.

Definition emitted (run : M unit) : string :=
  w_fp (final (run (World "" "" []))).

(** The five lines both generators print to [stderr] before they give up
    on a table that is too large. *)
Definition size_diagnostic : string :=
  lit ("ERR: Requested table size is greater than 16M\n\n" ++
       "While this is an arbitrary limit, few FPGA's have this kind of\n" ++
       "block RAM.  If you know what you are doing, you can change this\n" ++
       "limit up to perhaps 30 without much hassle.  Beyond that, be\n" ++
       "aware of integer overflow.\n").

(** The reset branch [quarterwav] prints when [with_reset]. *)
Definition quarter_reset_branch : string :=
  lit ("\tbegin\n" ++
       "\t\tnegate  <= 2\'b00;\n" ++
       "\t\tindex   <= 0;\n" ++
       "\t\ttblvalue<= 0;\n" ++
       "\t\to_val   <= 0;\n" ++
       "\tend else ").

(** The clocked statement of the first block [quarterwav] prints: the
    fold of the phase word, the table look-up and the negation. *)
Definition quarter_pipeline : string :=
  lit ("if (i_ce)\n" ++
       "\tbegin\n" ++
       "\t\t// Clock #1\n" ++
       "\t\tnegate[0] <= i_phase[(PW-1)];\n" ++
       "\t\tif (i_phase[(PW-2)])\n" ++
       "\t\t\tindex <= ~i_phase[(PW-3):0];\n" ++
       "\t\telse\n" ++
       "\t\t\tindex <=  i_phase[(PW-3):0];\n" ++
       "\t\t// Clock #2\n" ++
       "\t\ttblvalue <= quartertable[index];\n" ++
       "\t\tnegate[1] <= negate[0];\n" ++
       "\t\t// Output Clock\n" ++
       "\t\tif (negate[1])\n" ++
       "\t\t\to_val <= -tblvalue;\n" ++
       "\t\telse\n" ++
       "\t\t\to_val <=  tblvalue;\n" ++
       "\tend\n\n").

(** The memory [quarterwav] declares, and the line that sets [PW]. *)
Definition quartertable_declaration : string :=
  lit "\treg\t[(OW-1):0]\t\tquartertable\t[0:((1<<(PW-2))-1)];\n".

Definition parameter_PW (lgtable : Z) : string :=
  lit "\tparameter\tPW =" ++ pad2 (decimal lgtable) ++ ",".

(** The register [quarterwav] declares for the auxiliary bit, and the
    assignment that shifts it. *)
Definition aux_declaration : string := lit "\treg [1:0]\taux;\n".

Definition aux_shift : string :=
  lit "if (i_ce)\n\t\t{ o_aux, aux } <= { aux, i_aux };\n".

(** A rising edge of [i_clk] on which the [else] branch of a block runs
    with [i_ce] high, and one on which it runs with [i_ce] low. *)
Definition enabled (with_reset async_reset : bool) (i : inputs) : Prop :=
  always_reset with_reset async_reset posedge_i_clk i = ElseBranch
  /\ i_ce i = true.

Definition disabled (with_reset async_reset : bool) (i : inputs) : Prop :=
  always_reset with_reset async_reset posedge_i_clk i = ElseBranch
  /\ i_ce i = false.

(** The reset of a module printed [with_reset] is asserted at an event:
    the asynchronous one when [i_areset_n] falls or is low at a rising
    edge of [i_clk], the synchronous one when [i_reset] is high at a
    rising edge of [i_clk]. *)
Definition reset_asserted (async_reset : bool) (ev : event) (i : inputs)
  : Prop :=
  if async_reset
  then ev = negedge_i_areset_n \/ i_areset_n i = false
  else ev = posedge_i_clk /\ i_reset i = true.

(** Modelled from the spec: the file [hextable] writes holds one word of
    [ow] bits per table position, the entry in two's complement, and
    [$readmemh] loads word [i] of the file into position [i] of the
    memory. *)
Definition loaded (c : hexcall) (i : Z) : Z :=
  match nth_error (persisted c) (Z.to_nat i) with
  | Some (Some v) => low_bits (hx_ow c) v
  | _ => 0
  end.

(** Every cell of a table has a value, and the value lies in [[-m, m]]. *)
Definition entries_within (m : Z) (t : buffer) : Prop :=
  Forall (fun c => exists v, c = Some v /\ - m <= v /\ v <= m) t.

(** A run from [w] returned: it left [stderr] alone, it added [text] to
    [fp] and it made one call [c] of [hextable], with [P text c]. *)
Definition returns (o : outcome unit) (w : world)
  (P : string -> hexcall -> Prop) : Prop :=
  exists text c,
    o = Returned tt (World (w_fp w ++ text) (w_stderr w) (w_hex w ++ [c]))
    /\ P text c.

(** Stand-ins for [legal.h], to run the generators on concrete inputs. *)
Definition sample_legal (fname project purpose : string) : string :=
  ("// " ++ fname ++ " " ++ project ++ lit "\n// " ++ purpose
   ++ lit "\n")%string.
Definition sample_modulename (fname : string) : string := fname.
Definition sample_PROJECT : string := "CORDIC".

(** A stand-in for [sin], to run the loops on concrete inputs: the
    [double] that [sin] of the GNU C library returns at each phase of
    the tables of phase width 4 (which hold those of the tables of
    [sintable] of phase width 2 and 3 and of the table of [quarterwav] of
    phase width 3), and zero elsewhere.  The first sixteen are the
    phases of the table of [sintable], the last four those of
    [quarterwav]. *)
Fixpoint lookup_double (t : list (double * double)) (x : double) : double :=
  match t with
  | [] => zero
  | (a, s) :: t' =>
      if (mant a =? mant x) && (expo a =? expo x) then s
      else lookup_double t' x
  end.

Definition sample_sin_table : list (double * double) :=
  [
   (Double 0 0,
    Double 0 0);
   (Double 7074237752028440 (-54),
    Double 6893811853601123 (-54));
   (Double 7074237752028440 (-53),
    Double 6369051672525772 (-53));
   (Double 5305678314021330 (-52),
    Double 8321567036706118 (-53));
   (Double 7074237752028440 (-52),
    Double 4503599627370496 (-52));
   (Double 8842797190035550 (-52),
    Double 8321567036706118 (-53));
   (Double 5305678314021330 (-51),
    Double 6369051672525773 (-53));
   (Double 6189958033024885 (-51),
    Double 6893811853601125 (-54));
   (Double 7074237752028440 (-51),
    Double 4967757600021511 (-105));
   (Double 7958517471031995 (-51),
    Double (-6893811853601121) (-54));
   (Double 8842797190035550 (-51),
    Double (-6369051672525772) (-53));
   (Double 4863538454519552 (-50),
    Double (-8321567036706116) (-53));
   (Double 5305678314021330 (-50),
    Double (-4503599627370496) (-52));
   (Double 5747818173523108 (-50),
    Double (-8321567036706117) (-53));
   (Double 6189958033024885 (-50),
    Double (-6369051672525774) (-53));
   (Double 6632097892526662 (-50),
    Double (-6893811853601134) (-54));
   (Double 7074237752028440 (-55),
    Double 7028869612283402 (-55));
   (Double 5305678314021330 (-53),
    Double 5004131788810440 (-53));
   (Double 8842797190035550 (-53),
    Double 7489212472271267 (-53));
   (Double 6189958033024885 (-52),
    Double 8834128446708912 (-53))
  ].

Definition sample_sin : double -> double := lookup_double sample_sin_table.

(** A world in which nothing has been written yet. *)
Definition fresh : world := World "" "" [].

(** Inputs of a rising edge without reset: [i_ce] high with a phase word
    and an auxiliary bit, and [i_ce] low. *)
Definition sample_enabled (phase : Z) (aux : bool) : inputs :=
  Inputs false true true phase aux.
Definition sample_disabled : inputs := Inputs false true false 0 false.

(** All registers of the module of [quarterwav] at zero, as after a
    reset, and the same for the module of [sintable]. *)
Definition quarter_zero : QuarterHW.regs :=
  QuarterHW.Regs false false 0 0 0 false false false.
Definition direct_zero : DirectHW.regs := DirectHW.Regs 0 false.

(** The cells [f 0], ..., [f (n-1)], all with a value. *)
Definition filled (f : Z -> Z) (n : nat) : buffer :=
  map (fun i => Some (f (Z.of_nat i))) (seq 0 n).

Local Open Scope list_scope.

(** ** The vocabulary of the further properties *)

(** The two texts of [PURPOSE]. *)
Definition sintable_PURPOSE : string :=
  lit ("This is a very simple sinewave table lookup approach\n" ++
       "//\t\tapproach to generating a sine wave.  It has the lowest latency\n" ++
       "//\tamong all sinewave generation alternatives.").

Definition quarterwav_PURPOSE : string :=
  lit ("This is a touch more complicated than the simple sinewave table\n" ++
       "//\t\tlookup approach to generating a sine wave.  This approach\n" ++
       "//\texploits the fact that a sinewave table has symmetry within it,\n" ++
       "//\tenough symmetry so as to cut the necessary size of the table\n" ++
       "//\tin fourths.  Generating the sinewave value, though, requires\n" ++
       "//\ta little more logic to make this possible.").

(** A text starts with [prefix], a text stops with [suffix]. *)
Definition begins (prefix text : string) : Prop :=
  exists rest, text = (prefix ++ rest)%string.

Definition ends (suffix text : string) : Prop :=
  exists rest, text = (rest ++ suffix)%string.

Local Open Scope string_scope.

(** The ports of the two modules, in the order of the module line. *)
Definition reset_port (with_reset async_reset : bool) : list string :=
  if with_reset
  then [if async_reset then "i_areset_n" else "i_reset"]
  else [].

Definition sintable_ports (with_reset with_aux async_reset : bool)
  : list string :=
  (["i_clk"] ++ reset_port with_reset async_reset ++ ["i_ce"]
   ++ (if with_aux then ["i_aux"] else []) ++ ["i_phase"; "o_val"]
   ++ (if with_aux then ["o_aux"] else []))%list.

Definition quarterwav_ports (with_reset with_aux async_reset : bool)
  : list string :=
  (["i_clk"] ++ reset_port with_reset async_reset ++ ["i_ce"; "i_phase"]
   ++ (if with_aux then ["i_aux"] else []) ++ ["o_val"]
   ++ (if with_aux then ["o_aux"] else []))%list.

Definition module_line (name : string) (ports : list string) : string :=
  (lit "module\t" ++ name
   ++ "(" ++ String.concat ", " ports ++ lit ");\n")%string.

(** What [sintable] prints between the header and the module line. *)
Definition default_nettype : string := lit "`default_nettype\tnone\n//\n".

Definition endmodule : string := lit "endmodule\n".

(** The memory [sintable] declares, its range [[0:((1<<PW)-1)]], and the
    line that sets [OW]. *)
Definition tbl_declaration : string :=
  lit "\treg\t[(OW-1):0]\t\ttbl\t[0:((1<<PW)-1)];\n".

Definition tbl_range (PW : Z) : Z * Z := (0, Z.shiftl 1 PW - 1).

Definition parameter_OW (ow : Z) : string :=
  (lit "\t\t\tOW =" ++ pad2 (decimal ow) ++ ";")%string.

(** The statements that load the two memories. *)
Definition readmemh_tbl (name : string) : string :=
  (lit "\tinitial\t$readmemh(\q" ++ name ++ lit ".hex\q, tbl);\n")%string.

Definition readmemh_quartertable (name : string) : string :=
  (lit "\tinitial\t$readmemh(\q" ++ name
   ++ lit ".hex\q, quartertable);\n")%string.

(** The two declarations of [o_aux]. *)
Definition o_aux_reg : string := lit "\toutput\treg\t\t\to_aux;\n".
Definition o_aux_wire : string := lit "\toutput\twire\t\t\to_aux;\n".

(** The clocked statements of the module of [sintable]. *)
Definition direct_o_val_statement : string :=
  lit ("if (i_ce)\n" ++ "\t\to_val <= tbl[i_phase];\n\n").

Definition direct_o_aux_statement : string :=
  lit ("if (i_ce)\n" ++ "\t\to_aux <= i_aux;\n").

(** The three texts of [always_reset], lines 74-82 and 176-184. *)
Definition always_reset_text (with_reset async_reset : bool) : string :=
  if with_reset && async_reset then
    lit ("\talways @(posedge i_clk, negedge i_areset_n)\n" ++
         "\tif (!i_areset_n)\n")
  else if with_reset then
    lit ("\talways @(posedge i_clk)\n" ++
         "\tif (i_reset)\n")
  else
    lit "\talways @(posedge i_clk)\n\t".

(** A clocked block: the text of [always_reset], the reset branch when
    [with_reset], and the statement under [if (i_ce)]. *)
Definition clocked_block (with_reset async_reset : bool)
  (reset_branch statement : string) : string :=
  if with_reset
  then always_reset_text true async_reset ++ reset_branch ++ statement
  else always_reset_text false async_reset ++ statement.

(** The reset branches of the two blocks of [sintable] and of the second
    block of [quarterwav]. *)
Definition direct_o_val_reset : string :=
  lit ("\t\to_val <= 0;\n" ++ "\telse ").
Definition direct_o_aux_reset : string :=
  lit ("\t\to_aux <= 0;\n" ++ "\telse ").
Definition quarter_aux_reset : string :=
  lit ("\t\t{ o_aux, aux } <= 0;\n" ++ "\telse ").

Local Close Scope string_scope.

(** [index] addresses a word of [quartertable]. *)
Definition index_in_range (PW : Z) (r : QuarterHW.regs) : Prop :=
  fst (quartertable_range PW) <= QuarterHW.index r
  /\ QuarterHW.index r <= snd (quartertable_range PW).

(** The four phase words that read entry [j] of [quartertable], with the
    value of [negate] each one sets. *)
Definition phases_of_entry (PW j : Z) : list (Z * bool) :=
  let Q := 2 ^ (PW - 2) in
  [(j, false); (2 * Q - 1 - j, false); (2 * Q + j, true);
   (4 * Q - 1 - j, true)].

(** * Properties *)

(** ** Machine arithmetic *)

Lemma wrap_small bits z :
  0 < bits -> - 2 ^ (bits - 1) <= z < 2 ^ (bits - 1) -> wrap bits z = z.
Proof.
  intros Hb Hz. unfold wrap.
  assert (E : 2 ^ bits = 2 * 2 ^ (bits - 1)).
  { replace bits with (Z.succ (bits - 1)) at 1 by lia.
    apply Z.pow_succ_r. lia. }
  rewrite Z.mod_small by lia. lia.
Qed.

Lemma tbl_entries_spec lgtable :
  0 <= lgtable < 31 -> tbl_entries lgtable = 2 ^ lgtable.
Proof.
  intros H. unfold tbl_entries, int_shl.
  rewrite Z.shiftl_1_l.
  assert (0 < 2 ^ lgtable) by (apply Z.pow_pos_nonneg; lia).
  assert (2 ^ lgtable < 2 ^ 31) by (apply Z.pow_lt_mono_r; lia).
  apply wrap_small; [lia|]. change (32 - 1) with 31. lia.
Qed.

Lemma maxv_spec ow : 1 <= ow <= 63 -> maxv ow = maxValue ow.
Proof.
  intros H. unfold maxv, maxValue, long_sub, long_shl.
  rewrite Z.shiftl_1_l.
  assert (0 < 2 ^ (ow - 1)) by (apply Z.pow_pos_nonneg; lia).
  assert (2 ^ (ow - 1) < 2 ^ 63) by (apply Z.pow_lt_mono_r; lia).
  rewrite (wrap_small 64 (2 ^ (ow - 1))) by (change (64 - 1) with 63; lia).
  apply wrap_small; [lia|]. change (64 - 1) with 63. lia.
Qed.

Lemma maxValue_nonneg ow : 1 <= ow -> 0 <= maxValue ow.
Proof.
  intros H. unfold maxValue.
  assert (0 < 2 ^ (ow - 1)) by (apply Z.pow_pos_nonneg; lia). lia.
Qed.

Lemma pow2_pos n : 0 <= n -> 0 < 2 ^ n.
Proof. intros H. apply Z.pow_pos_nonneg; lia. Qed.

(** [1 << n] is defined for the counts from 0 to 30. *)
Lemma int_shl_defined_spec n :
  int_shl_defined 1 n = true <-> 0 <= n < 31.
Proof.
  unfold int_shl_defined. rewrite !andb_true_iff, Z.mul_1_l.
  rewrite !Z.leb_le, !Z.ltb_lt. split.
  - intros [[[_ H0] H1] H2]. split; [assumption|].
    apply (Z.pow_lt_mono_r_iff 2); lia.
  - intros H. repeat split; try lia.
    apply Z.pow_lt_mono_r; lia.
Qed.

(** ** Truncation toward zero *)

Lemma Int_part_IZR z : Int_part (IZR z) = z.
Proof.
  unfold Int_part.
  rewrite <- (up_tech (IZR z) z); [lia | lra |].
  rewrite plus_IZR. lra.
Qed.

Lemma Rtrunc_IZR z : Rtrunc (IZR z) = z.
Proof.
  unfold Rtrunc. destruct (Rle_dec 0 (IZR z)).
  - apply Int_part_IZR.
  - rewrite <- opp_IZR, Int_part_IZR. lia.
Qed.

Lemma Rtrunc_opp x : Rtrunc (- x) = (- Rtrunc x)%Z.
Proof.
  unfold Rtrunc.
  destruct (Rle_dec 0 x) as [Hx|Hx], (Rle_dec 0 (- x)) as [Hn|Hn].
  - assert (x = 0%R) by lra. subst x.
    rewrite Ropp_0. change 0%R with (IZR 0). rewrite Int_part_IZR.
    reflexivity.
  - rewrite Ropp_involutive. reflexivity.
  - lia.
  - lra.
Qed.

Lemma Rtrunc_between x z :
  (0 <= IZR z <= x)%R -> (x < IZR z + 1)%R -> Rtrunc x = z.
Proof.
  intros [H0 H1] H2. unfold Rtrunc.
  destruct (Rle_dec 0 x) as [Hx|Hx]; [|lra].
  symmetry. apply Int_part_spec. lra.
Qed.

Lemma Rtrunc_zero_l x : Rtrunc (0 * x) = 0.
Proof. rewrite Rmult_0_l. apply (Rtrunc_IZR 0). Qed.

Lemma Rtrunc_bound x m :
  (Rabs x <= IZR m)%R -> - m <= Rtrunc x /\ Rtrunc x <= m.
Proof.
  assert (P : forall y, (0 <= y)%R -> (y <= IZR m)%R ->
                        0 <= Int_part y /\ Int_part y <= m).
  { intros y Hy Hm. destruct (base_Int_part y) as [B1 B2]. split.
    - apply Z.lt_succ_r. apply lt_IZR.
      rewrite succ_IZR. lra.
    - apply le_IZR. lra. }
  intros H. unfold Rtrunc. destruct (Rle_dec 0 x) as [Hx|Hx].
  - rewrite Rabs_pos_eq in H by assumption.
    destruct (P x Hx H). lia.
  - rewrite Rabs_left in H by lra.
    destruct (P (- x)%R ltac:(lra) H). lia.
Qed.

Lemma Rabs_le_between x b : (Rabs x <= b -> - b <= x <= b)%R.
Proof. unfold Rabs. destruct (Rcase_abs x); lra. Qed.

(** ** Binary64 numbers *)

Lemma pow2R_pos e : (0 < powerRZ 2 e)%R.
Proof. apply powerRZ_lt. lra. Qed.

Lemma pow2R_add a b : (powerRZ 2 (a + b) = powerRZ 2 a * powerRZ 2 b)%R.
Proof. apply powerRZ_add. lra. Qed.

Lemma pow2R_Z n : 0 <= n -> powerRZ 2 n = IZR (2 ^ n).
Proof.
  intros H. rewrite <- (Z2Nat.id n H) at 1.
  rewrite <- pow_powerRZ. rewrite pow_IZR.
  rewrite Z2Nat.id by assumption. reflexivity.
Qed.

Lemma pow2R_opp n : (powerRZ 2 (- n) * powerRZ 2 n = 1)%R.
Proof.
  rewrite <- pow2R_add. replace (- n + n) with 0 by lia. reflexivity.
Qed.

Lemma value_zero : value zero = 0%R.
Proof. unfold value, zero. simpl. lra. Qed.

Lemma value_opp d : value (opp d) = (- value d)%R.
Proof. unfold value, opp. simpl. rewrite opp_IZR. lra. Qed.

Lemma round53_opp m e : round53 (- m) e = opp (round53 m e).
Proof.
  unfold round53.
  replace (- m =? 0) with (m =? 0)
    by (destruct (Z.eqb_spec m 0), (Z.eqb_spec (- m) 0); lia).
  destruct (Z.eqb_spec m 0) as [|N]; [reflexivity|].
  rewrite Z.abs_opp, Z.sgn_opp.
  cbv zeta.
  destruct (Z.log2 (Z.abs m) - 52 <=? 0).
  - unfold opp. simpl. f_equal. lia.
  - match goal with |- context [if ?c then _ else _] => destruct c end;
      unfold opp; simpl; f_equal; lia.
Qed.

(** A mantissa of at most 53 bits is kept as it is. *)
Lemma round53_exact m e :
  Z.abs m < 2 ^ 53 -> value (round53 m e) = (IZR m * powerRZ 2 e)%R.
Proof.
  intros H. unfold round53.
  destruct (Z.eqb_spec m 0) as [->|N].
  - rewrite value_zero. lra.
  - cbv zeta.
    assert (L : Z.log2 (Z.abs m) < 53) by (apply Z.log2_lt_pow2; lia).
    destruct (Z.leb_spec (Z.log2 (Z.abs m) - 52) 0) as [D|D]; [|lia].
    set (drop := Z.log2 (Z.abs m) - 52) in *.
    unfold value. cbn [mant expo].
    rewrite mult_IZR, <- pow2R_Z by lia.
    rewrite pow2R_add.
    pose proof (pow2R_opp drop) as O.
    rewrite Rmult_assoc, <- (Rmult_assoc (powerRZ 2 (- drop))).
    rewrite (Rmult_comm (powerRZ 2 (- drop))), (Rmult_assoc (powerRZ 2 e)).
    rewrite O. lra.
Qed.

(** A longer mantissa loses [drop] bits: the quotient is kept, or the
    quotient plus one where the bits lost are not all zero. *)
Lemma round53_rounds m e :
  2 ^ 53 <= m ->
  let drop := Z.log2 m - 52 in
  exists q',
    value (round53 m e) = (IZR q' * powerRZ 2 (e + drop))%R
    /\ m / 2 ^ drop <= q' <= m / 2 ^ drop + 1
    /\ (q' = m / 2 ^ drop + 1 -> 0 < m mod 2 ^ drop).
Proof.
  intros H drop.
  assert (L : 53 <= Z.log2 m) by (apply Z.log2_le_pow2; lia).
  assert (D : 0 < drop) by (unfold drop; lia).
  unfold round53.
  destruct (Z.eqb_spec m 0) as [|_]; [lia|].
  rewrite (Z.abs_eq m) by lia. rewrite (Z.sgn_pos m) by lia.
  cbv zeta. fold drop.
  destruct (Z.leb_spec drop 0) as [|_]; [lia|].
  rewrite Z.shiftr_div_pow2, Z.land_ones, Z.shiftl_1_l by lia.
  set (q := m / 2 ^ drop). set (r := m mod 2 ^ drop).
  assert (Hh : 0 < 2 ^ (drop - 1)) by (apply pow2_pos; lia).
  assert (Hr : 0 <= r < 2 ^ drop)
    by (apply Z.mod_pos_bound; apply pow2_pos; lia).
  set (q' := if r <? 2 ^ (drop - 1) then q
             else if 2 ^ (drop - 1) <? r then q + 1
                  else if Z.even q then q else q + 1).
  assert (Q : q <= q' <= q + 1 /\ (q' = q + 1 -> 0 < r)).
  { unfold q'.
    destruct (Z.ltb_spec r (2 ^ (drop - 1))); [lia|].
    destruct (Z.ltb_spec (2 ^ (drop - 1)) r); [lia|].
    destruct (Z.even q); lia. }
  exists q'. split; [|exact Q].
  destruct (Z.eqb_spec q' (2 ^ 53)) as [E|_].
  - unfold value. cbn [mant expo]. rewrite E.
    replace (e + drop + 1) with (1 + (e + drop)) by lia.
    rewrite pow2R_add. rewrite Z.mul_1_l.
    change (powerRZ 2 1) with (2 * 1)%R.
    replace (IZR (2 ^ 53)) with (2 * IZR (2 ^ 52))%R
      by (rewrite <- mult_IZR; reflexivity).
    lra.
  - unfold value. cbn [mant expo]. rewrite Z.mul_1_l. reflexivity.
Qed.

Lemma value_round53_shift m e c :
  value (round53 m (e + c)) = (value (round53 m e) * powerRZ 2 c)%R.
Proof.
  unfold round53.
  destruct (m =? 0); [rewrite value_zero; lra|].
  cbv zeta.
  destruct (Z.log2 (Z.abs m) - 52 <=? 0).
  - unfold value. cbn [mant expo].
    replace (e + c + (Z.log2 (Z.abs m) - 52))
      with (e + (Z.log2 (Z.abs m) - 52) + c) by lia.
    rewrite (pow2R_add _ c). lra.
  - match goal with |- context [if ?b then _ else _] => destruct b end;
      unfold value; cbn [mant expo].
    + replace (e + c + (Z.log2 (Z.abs m) - 52) + 1)
        with (e + (Z.log2 (Z.abs m) - 52) + 1 + c) by lia.
      rewrite (pow2R_add _ c). lra.
    + replace (e + c + (Z.log2 (Z.abs m) - 52))
        with (e + (Z.log2 (Z.abs m) - 52) + c) by lia.
      rewrite (pow2R_add _ c). lra.
Qed.

(** Comparisons with a scaled integer, moved to the integers. *)
Lemma scaled_le_int m e B :
  e <= 0 -> (IZR m * powerRZ 2 e <= IZR B)%R <-> m <= B * 2 ^ (- e).
Proof.
  intros H.
  pose proof (pow2R_pos e) as P. pose proof (pow2R_pos (- e)) as P'.
  pose proof (pow2R_opp e) as O.
  split; intros L.
  - apply le_IZR. rewrite mult_IZR, <- pow2R_Z by lia.
    apply Rmult_le_compat_r with (r := powerRZ 2 (- e)) in L; [|lra].
    rewrite Rmult_assoc, (Rmult_comm (powerRZ 2 e)), O in L. lra.
  - apply IZR_le in L. rewrite mult_IZR, <- pow2R_Z in L by lia.
    apply Rmult_le_compat_r with (r := powerRZ 2 e) in L; [|lra].
    rewrite (Rmult_assoc (IZR B)), O in L. lra.
Qed.

Lemma int_le_scaled m e B :
  e <= 0 -> (IZR B <= IZR m * powerRZ 2 e)%R <-> B * 2 ^ (- e) <= m.
Proof.
  intros H.
  pose proof (pow2R_pos e) as P. pose proof (pow2R_pos (- e)) as P'.
  pose proof (pow2R_opp e) as O.
  split; intros L.
  - apply le_IZR. rewrite mult_IZR, <- pow2R_Z by lia.
    apply Rmult_le_compat_r with (r := powerRZ 2 (- e)) in L; [|lra].
    rewrite Rmult_assoc, (Rmult_comm (powerRZ 2 e)), O in L. lra.
  - apply IZR_le in L. rewrite mult_IZR, <- pow2R_Z in L by lia.
    apply Rmult_le_compat_r with (r := powerRZ 2 e) in L; [|lra].
    rewrite (Rmult_assoc (IZR B)), O in L. lra.
Qed.

Lemma pow2R_ge_1 e : 0 <= e -> (1 <= powerRZ 2 e)%R.
Proof.
  intros H. rewrite pow2R_Z by assumption.
  apply IZR_le. pose proof (pow2_pos e H). lia.
Qed.

Lemma round53_nonneg m e : 0 <= m -> (0 <= value (round53 m e))%R.
Proof.
  intros H. pose proof (pow2R_pos e).
  destruct (Z_lt_le_dec m (2 ^ 53)) as [S|L].
  - rewrite round53_exact by lia.
    apply Rmult_le_pos; [apply IZR_le; lia | lra].
  - destruct (round53_rounds m e L) as (q' & -> & Q & _).
    assert (53 <= Z.log2 m) by (apply Z.log2_le_pow2; lia).
    assert (0 <= m / 2 ^ (Z.log2 m - 52))
      by (apply Z.div_pos; [lia | apply pow2_pos; lia]).
    apply Rmult_le_pos; [apply IZR_le; lia | apply Rlt_le, pow2R_pos].
Qed.

(** Rounding does not cross a representable number: here an integer of
    at most 53 bits. *)
Lemma round53_upper_int m e B :
  0 <= m -> 0 <= B < 2 ^ 53 ->
  (IZR m * powerRZ 2 e <= IZR B)%R -> (value (round53 m e) <= IZR B)%R.
Proof.
  intros Hm HB L.
  destruct (Z_lt_le_dec m (2 ^ 53)) as [S|G].
  - rewrite round53_exact by lia. exact L.
  - destruct (round53_rounds m e G) as (q' & -> & Q & R).
    set (drop := Z.log2 m - 52) in *.
    assert (Lg : 53 <= Z.log2 m) by (apply Z.log2_le_pow2; lia).
    assert (He : e < 0).
    { destruct (Z_lt_le_dec e 0) as [|P]; [assumption|exfalso].
      pose proof (pow2R_ge_1 e P) as P1.
      assert (IZR (2 ^ 53) <= IZR m)%R by (apply IZR_le; lia).
      assert (IZR B < IZR (2 ^ 53))%R by (apply IZR_lt; lia).
      assert (0 <= IZR m)%R by (apply IZR_le; lia).
      nra. }
    apply scaled_le_int in L; [|lia].
    set (t := - e) in *.
    assert (Pt : 0 < 2 ^ t) by (apply pow2_pos; lia).
    assert (Dt : drop <= t).
    { assert (Z.log2 m <= Z.log2 (B * 2 ^ t)) by (apply Z.log2_le_mono; lia).
      assert (Z.log2 (B * 2 ^ t) < 53 + t).
      { apply Z.log2_lt_pow2; [lia|].
        rewrite Z.pow_add_r by lia. nia. }
      unfold drop. lia. }
    assert (Pd : 0 < 2 ^ drop) by (apply pow2_pos; unfold drop; lia).
    set (n := B * 2 ^ (t - drop)).
    assert (N : n * 2 ^ drop = B * 2 ^ t).
    { unfold n. rewrite <- Z.mul_assoc, <- Z.pow_add_r by (unfold drop; lia).
      do 2 f_equal. lia. }
    pose proof (Z.div_mod m (2 ^ drop) ltac:(lia)) as DM.
    pose proof (Z.mod_pos_bound m (2 ^ drop) Pd) as MB.
    assert (Q' : q' <= n) by nia.
    apply scaled_le_int; [lia|].
    replace (- (e + drop)) with (t - drop) by (unfold t; lia).
    fold n. exact Q'.
Qed.

Lemma round53_lower_int m e B :
  0 <= m -> 0 <= B < 2 ^ 53 ->
  (IZR B <= IZR m * powerRZ 2 e)%R -> (IZR B <= value (round53 m e))%R.
Proof.
  intros Hm HB L.
  destruct (Z_lt_le_dec m (2 ^ 53)) as [S|G].
  - rewrite round53_exact by lia. exact L.
  - destruct (round53_rounds m e G) as (q' & -> & Q & R).
    set (drop := Z.log2 m - 52) in *.
    assert (Lg : 53 <= Z.log2 m) by (apply Z.log2_le_pow2; lia).
    assert (Pd : 0 < 2 ^ drop) by (apply pow2_pos; unfold drop; lia).
    assert (Hq : 2 ^ 52 <= m / 2 ^ drop).
    { apply Z.div_le_lower_bound; [lia|].
      rewrite <- Z.pow_add_r by (unfold drop; lia).
      replace (drop + 52) with (Z.log2 m) by (unfold drop; lia).
      apply Z.log2_spec. lia. }
    destruct (Z_lt_le_dec 0 (e + drop)) as [P|P].
    + pose proof (pow2R_ge_1 (e + drop - 1) ltac:(lia)) as P1.
      replace (e + drop) with (1 + (e + drop - 1)) by lia.
      rewrite pow2R_add. change (powerRZ 2 1) with (2 * 1)%R.
      assert (IZR (2 ^ 52) <= IZR q')%R by (apply IZR_le; lia).
      assert (IZR B < 2 * IZR (2 ^ 52))%R.
      { rewrite <- mult_IZR. apply IZR_lt. change (2 * 2 ^ 52) with (2 ^ 53).
        lia. }
      assert (0 < IZR (2 ^ 52))%R by (apply IZR_lt; lia).
      nra.
    + apply int_le_scaled; [lia|].
      assert (He : e <= 0) by (unfold drop in *; lia).
      apply int_le_scaled in L; [|lia].
      set (u := - (e + drop)) in *.
      assert (B * 2 ^ u <= m / 2 ^ drop); [|lia].
      apply Z.div_le_lower_bound; [lia|].
      replace (2 ^ drop * (B * 2 ^ u)) with (B * 2 ^ (- e)); [exact L|].
      replace (- e) with (u + drop) by (unfold u; lia).
      rewrite Z.pow_add_r by (unfold u, drop in *; lia). ring.
Qed.

(** The same with a representable bound [B 2^c]. *)
Lemma round53_upper m e B c :
  0 <= m -> 0 <= B < 2 ^ 53 ->
  (IZR m * powerRZ 2 e <= IZR B * powerRZ 2 c)%R ->
  (value (round53 m e) <= IZR B * powerRZ 2 c)%R.
Proof.
  intros Hm HB L.
  replace e with (e - c + c) by lia.
  rewrite value_round53_shift.
  pose proof (pow2R_pos c) as P.
  apply Rmult_le_compat_r; [lra|].
  apply round53_upper_int; try assumption.
  apply Rmult_le_reg_r with (r := powerRZ 2 c); [assumption|].
  rewrite Rmult_assoc, <- pow2R_add.
  replace (e - c + c) with e by lia. exact L.
Qed.

Lemma round53_lower m e B c :
  0 <= m -> 0 <= B < 2 ^ 53 ->
  (IZR B * powerRZ 2 c <= IZR m * powerRZ 2 e)%R ->
  (IZR B * powerRZ 2 c <= value (round53 m e))%R.
Proof.
  intros Hm HB L.
  replace e with (e - c + c) by lia.
  rewrite value_round53_shift.
  pose proof (pow2R_pos c) as P.
  apply Rmult_le_compat_r; [lra|].
  apply round53_lower_int; try assumption.
  apply Rmult_le_reg_r with (r := powerRZ 2 c); [assumption|].
  rewrite Rmult_assoc, <- pow2R_add.
  replace (e - c + c) with e by lia. exact L.
Qed.

Lemma Rtrunc_quotient m t :
  0 <= t -> Rtrunc (IZR m * powerRZ 2 (- t)) = Z.quot m (2 ^ t).
Proof.
  intros Ht.
  assert (P : 0 < 2 ^ t) by (apply pow2_pos; assumption).
  assert (N : forall a, 0 <= a ->
            Rtrunc (IZR a * powerRZ 2 (- t)) = Z.quot a (2 ^ t)).
  { intros a Ha. rewrite Z.quot_div_nonneg by lia.
    pose proof (Z.div_mod a (2 ^ t) ltac:(lia)) as DM.
    pose proof (Z.mod_pos_bound a (2 ^ t) P) as MB.
    assert (0 <= a / 2 ^ t) by (apply Z.div_pos; lia).
    apply Rtrunc_between.
    - split; [apply IZR_le; lia|].
      apply int_le_scaled; [lia|].
      rewrite Z.opp_involutive. lia.
    - rewrite <- (plus_IZR _ 1).
      pose proof (pow2R_pos (- t)) as Q.
      assert (L : (IZR a * powerRZ 2 (- t)
                   <= IZR (a / 2 ^ t + 1 - 1) + (1 - powerRZ 2 (- t)))%R).
      { assert (S : (IZR (a + 1) * powerRZ 2 (- t)
                     <= IZR (a / 2 ^ t + 1))%R).
        { apply scaled_le_int; [lia|]. rewrite Z.opp_involutive. lia. }
        rewrite plus_IZR in S.
        replace (a / 2 ^ t + 1 - 1)%Z with (a / 2 ^ t)%Z by lia.
        rewrite plus_IZR in S. lra. }
      replace (a / 2 ^ t + 1 - 1)%Z with (a / 2 ^ t)%Z in L by lia.
      rewrite plus_IZR. lra. }
  destruct (Z_le_gt_dec 0 m) as [Hm|Hm]; [apply N; assumption|].
  assert (E : m = - (- m)) by lia.
  set (a := - m) in *. assert (Ha : 0 <= a) by lia.
  clearbody a. subst m.
  rewrite opp_IZR, Ropp_mult_distr_l_reverse, Rtrunc_opp.
  rewrite N by assumption. rewrite Z.quot_opp_l by lia. reflexivity.
Qed.

(** [(long)d] is the real value of [d] without its fractional part. *)
Lemma to_long_spec d : to_long d = Rtrunc (value d).
Proof.
  unfold to_long, value. destruct d as [m e]. cbn [mant expo].
  destruct (Z.leb_spec 0 e) as [P|N].
  - rewrite pow2R_Z, <- mult_IZR by assumption.
    symmetry. apply Rtrunc_IZR.
  - replace e with (- - e) at 2 by lia.
    symmetry. apply Rtrunc_quotient. lia.
Qed.

Lemma mul_zero_l s : mul zero s = zero.
Proof. reflexivity. Qed.

Lemma value_of_long z : Z.abs z < 2 ^ 53 -> value (of_long z) = IZR z.
Proof.
  intros H. unfold of_long. rewrite round53_exact by assumption.
  simpl. lra.
Qed.

Lemma round53_abs m e :
  Rabs (value (round53 m e)) = value (round53 (Z.abs m) e).
Proof.
  destruct (Z_le_gt_dec 0 m) as [P|N].
  - rewrite Z.abs_eq by assumption.
    apply Rabs_pos_eq. apply round53_nonneg. assumption.
  - rewrite Z.abs_neq by lia.
    replace m with (- - m) at 1 by lia.
    rewrite round53_opp, value_opp, Rabs_Ropp.
    apply Rabs_pos_eq. apply round53_nonneg. lia.
Qed.

Lemma exact_abs m e :
  Rabs (IZR m * powerRZ 2 e) = (IZR (Z.abs m) * powerRZ 2 e)%R.
Proof.
  pose proof (pow2R_pos e).
  rewrite Rabs_mult, (Rabs_pos_eq (powerRZ 2 e)) by lra.
  rewrite <- abs_IZR. reflexivity.
Qed.

Lemma mul_exact a b :
  (IZR (mant a * mant b) * powerRZ 2 (expo a + expo b)
   = value a * value b)%R.
Proof. unfold value. rewrite mult_IZR, pow2R_add. ring. Qed.

(** The product of a [long] of at most 53 bits and a number of
    [[-1, 1]] stays within that [long]. *)
Lemma mul_bound M s :
  0 <= M < 2 ^ 53 -> (Rabs (value s) <= 1)%R ->
  (Rabs (value (mul (of_long M) s)) <= IZR M)%R.
Proof.
  intros HM Hs. unfold mul.
  rewrite round53_abs.
  apply round53_upper_int; [lia | assumption |].
  rewrite <- exact_abs, mul_exact, Rabs_mult.
  rewrite value_of_long by lia.
  assert (0 <= IZR M)%R by (apply IZR_le; lia).
  rewrite (Rabs_pos_eq (IZR M)) by assumption.
  rewrite <- (Rmult_1_r (IZR M)) at 2.
  apply Rmult_le_compat_l; assumption.
Qed.

(** A mantissa whose low bits are zero loses nothing. *)
Lemma round53_exact_multiple m e :
  0 <= m -> (2 ^ 53 <= m -> m mod 2 ^ (Z.log2 m - 52) = 0) ->
  value (round53 m e) = (IZR m * powerRZ 2 e)%R.
Proof.
  intros Hm H.
  destruct (Z_lt_le_dec m (2 ^ 53)) as [S|G].
  - apply round53_exact. lia.
  - destruct (round53_rounds m e G) as (q' & -> & Q & R).
    specialize (H G). set (drop := Z.log2 m - 52) in *.
    assert (Lg : 53 <= Z.log2 m) by (apply Z.log2_le_pow2; lia).
    assert (Pd : 0 < 2 ^ drop) by (apply pow2_pos; unfold drop; lia).
    pose proof (Z.div_mod m (2 ^ drop) ltac:(lia)) as DM.
    assert (q' = m / 2 ^ drop) by lia. subst q'.
    rewrite pow2R_add, (pow2R_Z drop) by (unfold drop; lia).
    rewrite (Rmult_comm (powerRZ 2 e)), <- Rmult_assoc, <- mult_IZR.
    do 2 f_equal. lia.
Qed.

Lemma pow52_multiple a :
  0 < a < 2 ^ 53 -> (2 ^ 52 * a) mod 2 ^ (Z.log2 (2 ^ 52 * a) - 52) = 0.
Proof.
  intros H.
  rewrite (Z.mul_comm (2 ^ 52)), Z.log2_mul_pow2 by lia.
  assert (Z.log2 a < 53) by (apply Z.log2_lt_pow2; lia).
  pose proof (Z.log2_nonneg a).
  replace (52 + Z.log2 a - 52) with (Z.log2 a) by lia.
  replace (2 ^ 52) with (2 ^ (52 - Z.log2 a) * 2 ^ Z.log2 a)
    by (rewrite <- Z.pow_add_r by lia; f_equal; lia).
  rewrite Z.mul_assoc. apply Z.mod_mul.
  apply Z.pow_nonzero; lia.
Qed.

(** A power of two times a double is exact. *)
Lemma mul_pow2_exact j s :
  Z.abs (mant s) < 2 ^ 53 ->
  value (mul (Double (2 ^ 52) j) s)
  = (value (Double (2 ^ 52) j) * value s)%R.
Proof.
  intros Hs. unfold mul. cbn [mant expo].
  rewrite <- (mul_exact (Double (2 ^ 52) j) s). cbn [mant expo].
  destruct (Z.compare_spec 0 (mant s)) as [Z|P|N].
  - rewrite <- Z, Z.mul_0_r. rewrite round53_exact by (simpl; lia).
    reflexivity.
  - apply round53_exact_multiple; [lia|].
    intros _. apply pow52_multiple. lia.
  - replace (2 ^ 52 * mant s) with (- (2 ^ 52 * - mant s)) by lia.
    rewrite round53_opp, value_opp, opp_IZR.
    rewrite round53_exact_multiple; [lra | lia |].
    intros _. apply pow52_multiple. lia.
Qed.

(** The operations against the kernel's binary64 arithmetic: on the
    phases and the sines of the sample table, on [M_PI] and [2.0], on a
    product that is a tie, and the conversion of a [long] on exact
    values, ties that go down and up, and the largest [maxv]. *)
Lemma binary64_checked :
  forallb (fun p => same_as_prim (fst p) (snd p)
                    && same_as_prim (snd p) (fst p)
                    && same_as_prim (fst p) M_PI
                    && same_as_prim (of_long (maxv 47)) (snd p)
                    && same_as_prim (of_long (maxv 55)) (snd p))
          ((two, M_PI) :: (of_long (2 ^ 53 - 1), of_long 3)
           :: (of_long 3, of_long 7) :: sample_sin_table)
  = true
  /\ forallb long_same_as_prim
       [0; 1; -1; 127; -127; maxv 54; maxv 55; - maxv 55;
        2 ^ 53 + 1; 2 ^ 53 + 3; 2 ^ 55 + 1; 2 ^ 55 + 7; maxv 63]
     = true.
Proof. split; vm_compute; reflexivity. Qed.

(** [(double)maxv] is [maxValue] for the output widths up to 54, and one
    more than [maxValue] from 55 to 63. *)
Lemma value_of_maxv ow :
  1 <= ow <= 54 -> value (of_long (maxv ow)) = IZR (maxValue ow).
Proof.
  intros H. rewrite maxv_spec by lia.
  apply value_of_long.
  pose proof (maxValue_nonneg ow ltac:(lia)).
  assert (2 ^ (ow - 1) <= 2 ^ 53) by (apply Z.pow_le_mono_r; lia).
  unfold maxValue in *. lia.
Qed.

Lemma of_long_maxv_wide ow :
  55 <= ow <= 63 -> of_long (maxv ow) = Double (2 ^ 52) (ow - 53).
Proof.
  intros H.
  assert (C : ow = 55 \/ ow = 56 \/ ow = 57 \/ ow = 58 \/ ow = 59
              \/ ow = 60 \/ ow = 61 \/ ow = 62 \/ ow = 63) by lia.
  repeat destruct C as [->|C]; try subst ow; reflexivity.
Qed.

Lemma value_of_maxv_wide ow :
  55 <= ow <= 63 -> value (of_long (maxv ow)) = IZR (maxValue ow + 1).
Proof.
  intros H. rewrite of_long_maxv_wide by assumption.
  unfold value, maxValue. cbn [mant expo].
  assert (E : 2 ^ (ow - 1) = 2 ^ 52 * 2 ^ (ow - 53))
    by (rewrite <- Z.pow_add_r by lia; f_equal; lia).
  replace (2 ^ (ow - 1) - 1 + 1) with (2 ^ 52 * 2 ^ (ow - 53)) by lia.
  rewrite mult_IZR, pow2R_Z by lia. reflexivity.
Qed.

(** ** The table loops *)

Lemma filled_length f n : List.length (filled f n) = n.
Proof. unfold filled. rewrite length_map, length_seq. reflexivity. Qed.

Lemma filled_nth_error f n i :
  (i < n)%nat -> nth_error (filled f n) i = Some (Some (f (Z.of_nat i))).
Proof.
  intros H. unfold filled.
  rewrite nth_error_map, nth_error_seq.
  destruct (Nat.ltb_spec i n); [reflexivity | lia].
Qed.

Lemma filled_nth_error_Z f n k :
  0 <= k < Z.of_nat n ->
  nth_error (filled f n) (Z.to_nat k) = Some (Some (f k)).
Proof.
  intros H. rewrite filled_nth_error by lia.
  rewrite Z2Nat.id by lia. reflexivity.
Qed.

Lemma filled_constant f n v :
  (forall k, f k = v) -> filled f n = repeat (Some v) n.
Proof.
  intros H. unfold filled.
  assert (G : forall l : list nat,
             map (fun i => Some (f (Z.of_nat i))) l
             = repeat (Some v) (List.length l)).
  { induction l as [|x l IH]; simpl; [reflexivity|].
    rewrite H, IH. reflexivity. }
  rewrite G, length_seq. reflexivity.
Qed.

Lemma filled_within f n m :
  (forall k, - m <= f k /\ f k <= m) -> entries_within m (filled f n).
Proof.
  intros H. unfold entries_within, filled.
  apply Forall_forall. intros c Hc.
  apply in_map_iff in Hc. destruct Hc as (i & <- & _).
  eexists. split; [reflexivity | apply H].
Qed.

Lemma filled_within_below f n m :
  (forall k, 0 <= k < Z.of_nat n -> - m <= f k /\ f k <= m) ->
  entries_within m (filled f n).
Proof.
  intros H. unfold entries_within, filled.
  apply Forall_forall. intros c Hc.
  apply in_map_iff in Hc. destruct Hc as (i & <- & Hi).
  apply in_seq in Hi.
  eexists. split; [reflexivity | apply H; lia].
Qed.

Lemma filled_succ f n :
  filled f (S n) = filled f n ++ [Some (f (Z.of_nat n))].
Proof. unfold filled. rewrite seq_S, map_app. reflexivity. Qed.

Lemma update_at_end (done rest : buffer) c v n :
  List.length done = n ->
  update (done ++ c :: rest) n v = done ++ Some v :: rest.
Proof.
  intros <-.
  induction done as [|d done IH]; simpl; [reflexivity|].
  rewrite IH. reflexivity.
Qed.

Lemma iterate_last n k body buf :
  iterate (S n) k body buf = body (k + Z.of_nat n) (iterate n k body buf).
Proof.
  revert k buf. induction n as [|n IH]; intros k buf.
  - simpl. rewrite Z.add_0_r. reflexivity.
  - change (iterate (S (S n)) k body buf)
      with (iterate (S n) (k + 1) body (body k buf)).
    rewrite IH. simpl iterate. f_equal. lia.
Qed.

(** After [n] turns of a loop that stores [f k] at [k], the first [n]
    cells hold [f 0], ..., [f (n-1)] and the others are untouched. *)
Lemma iterate_store f n len :
  (n <= len)%nat ->
  iterate n 0 (fun k buf => store buf k (f k)) (repeat None len)
  = filled f n ++ repeat None (len - n).
Proof.
  induction n as [|n IH]; intros Hn.
  - simpl. rewrite Nat.sub_0_r. reflexivity.
  - rewrite iterate_last, IH by lia.
    rewrite Z.add_0_l. unfold store.
    destruct (Z.ltb_spec (Z.of_nat n) 0); [lia|].
    rewrite Nat2Z.id.
    replace (len - n)%nat with (S (len - S n)) by lia.
    simpl repeat.
    rewrite update_at_end by apply filled_length.
    rewrite filled_succ, <- app_assoc. reflexivity.
Qed.

Lemma for_k_store f bound len :
  0 <= bound <= len ->
  for_k bound (fun k buf => store buf k (f k)) (new_long len)
  = filled f (Z.to_nat bound)
    ++ repeat None (Z.to_nat len - Z.to_nat bound).
Proof.
  intros H. unfold for_k, new_long. apply iterate_store. lia.
Qed.

Section TableLoops.

Variable libm_sin : double -> double.

Local Abbreviation sintable_entry := (sintable_entry libm_sin).
Local Abbreviation quarterwav_entry := (quarterwav_entry libm_sin).
Local Abbreviation sintable_tbldata := (sintable_tbldata libm_sin).
Local Abbreviation quarterwav_tbldata := (quarterwav_tbldata libm_sin).

Lemma sintable_tbldata_spec lgtable ow :
  0 <= lgtable < 31 ->
  sintable_tbldata lgtable ow
  = filled (sintable_entry lgtable ow) (Z.to_nat (2 ^ lgtable)).
Proof.
  intros H. unfold sintable_tbldata.
  fold (tbl_entries lgtable). rewrite tbl_entries_spec by assumption.
  pose proof (pow2_pos lgtable ltac:(lia)).
  rewrite for_k_store by lia.
  rewrite Nat.sub_diag. simpl. apply app_nil_r.
Qed.

Lemma quarter_entries lgtable :
  2 <= lgtable < 31 -> int_div (tbl_entries lgtable) 4 = 2 ^ (lgtable - 2).
Proof.
  intros H. unfold int_div. rewrite tbl_entries_spec by lia.
  replace lgtable with (lgtable - 2 + 2) at 1 by lia.
  rewrite Z.pow_add_r by lia. change (2 ^ 2) with 4.
  apply Z.quot_mul. lia.
Qed.

Lemma quarterwav_tbldata_spec lgtable ow :
  2 <= lgtable < 31 ->
  quarterwav_tbldata lgtable ow
  = filled (quarterwav_entry lgtable ow) (Z.to_nat (2 ^ (lgtable - 2)))
    ++ repeat None (Z.to_nat (2 ^ lgtable) - Z.to_nat (2 ^ (lgtable - 2))).
Proof.
  intros H. unfold quarterwav_tbldata.
  fold (tbl_entries lgtable). rewrite quarter_entries by assumption.
  rewrite tbl_entries_spec by lia.
  apply for_k_store.
  pose proof (pow2_pos (lgtable - 2) ltac:(lia)).
  assert (2 ^ (lgtable - 2) <= 2 ^ lgtable) by (apply Z.pow_le_mono_r; lia).
  lia.
Qed.

(** What [hextable] reads of the two tables. *)
Lemma sintable_persisted fname lgtable ow :
  0 <= lgtable < 31 ->
  persisted (HexCall fname lgtable ow (sintable_tbldata lgtable ow))
  = filled (sintable_entry lgtable ow) (Z.to_nat (2 ^ lgtable)).
Proof.
  intros H. unfold persisted. simpl.
  rewrite sintable_tbldata_spec by assumption.
  rewrite <- (filled_length (sintable_entry lgtable ow)
                            (Z.to_nat (2 ^ lgtable))) at 1.
  apply firstn_all.
Qed.

Lemma quarterwav_persisted fname lgtable ow :
  2 <= lgtable < 31 ->
  persisted (HexCall fname (lgtable - 2) ow (quarterwav_tbldata lgtable ow))
  = filled (quarterwav_entry lgtable ow) (Z.to_nat (2 ^ (lgtable - 2))).
Proof.
  intros H. unfold persisted. simpl.
  rewrite quarterwav_tbldata_spec by assumption.
  rewrite <- (filled_length (quarterwav_entry lgtable ow)
                            (Z.to_nat (2 ^ (lgtable - 2)))) at 1.
  rewrite firstn_app, firstn_all, Nat.sub_diag. simpl.
  apply app_nil_r.
Qed.

End TableLoops.

(** ** Texts *)

Lemma append_assoc (a b c : string) :
  ((a ++ b) ++ c = a ++ (b ++ c))%string.
Proof.
  induction a as [|x a IH]; simpl; [reflexivity|].
  rewrite IH. reflexivity.
Qed.

Lemma occurs_here needle post : occurs needle (needle ++ post)%string.
Proof. exists ""%string, post. reflexivity. Qed.

Lemma occurs_skip needle c hay :
  occurs needle hay -> occurs needle (String c hay).
Proof.
  intros (pre & post & ->). exists (String c pre), post. reflexivity.
Qed.

Lemma occurs_app_r needle pre hay :
  occurs needle hay -> occurs needle (pre ++ hay)%string.
Proof.
  intros (p & post & ->). exists (pre ++ p)%string, post.
  rewrite append_assoc. reflexivity.
Qed.

(** A needle with an argument printed in its middle. *)
Lemma occurs_here3 a arg b post :
  occurs (a ++ arg ++ b)%string (a ++ arg ++ b ++ post)%string.
Proof.
  exists ""%string, post. simpl. rewrite !append_assoc. reflexivity.
Qed.

Lemma occurs_app_l needle hay post :
  occurs needle hay -> occurs needle (hay ++ post)%string.
Proof.
  intros (pre & p & ->). exists pre, (p ++ post)%string.
  rewrite !append_assoc. reflexivity.
Qed.

Lemma parameter_PW_here lgtable post :
  occurs (parameter_PW lgtable)
         (lit "\tparameter\tPW =" ++ pad2 (decimal lgtable) ++ "," ++ post).
Proof. apply occurs_here3. Qed.

(** Evaluate the literals and the formats of a text, and leave the
    arguments printed into it as they are. *)
Ltac eval_literals :=
  repeat match goal with
  | |- context [lit ?f] =>
      let v := eval lazy beta iota zeta
                    delta [lit String.append tab newline dquote] in (lit f) in
      progress change (lit f) with v
  end.

Ltac eval_formats :=
  repeat match goal with
  | |- context [sprintf ?f ?a] =>
      let v := eval lazy beta iota zeta delta [sprintf tl] in (sprintf f a) in
      progress change (sprintf f a) with v
  end.

(** Walk down an evaluated text to a needle that starts with [c]. *)
Ltac find_from c :=
  lazymatch goal with
  | |- occurs ?n (String c ?h) =>
      first [ apply (occurs_here n)
            | apply parameter_PW_here
            | apply (occurs_skip n); find_from c ]
  | |- occurs ?n (String _ ?h) => apply (occurs_skip n); find_from c
  | |- occurs ?n (?a ++ ?b)%string =>
      first [ apply (occurs_app_l n); solve [find_from c]
            | apply (occurs_app_r n); find_from c ]
  end.

(** The text is complete before [1<<lgtable]: it is the same whether
    that shift is defined or not. *)
Ltac either_shift :=
  try match goal with
      | |- context [int_shl_defined 1 ?l] => destruct (int_shl_defined 1 l)
      end.

Ltac emitted_text :=
  either_shift;
  lazy beta iota zeta
       delta [bind when defined fprintf fputs legal hextable ret assert
              final w_fp w_stderr w_hex negb andb];
  eval_literals; eval_formats.

(** ** Runs of the generators *)

Section Runs.

Variable legal_text : string -> string -> string -> string.
Variable modulename : string -> string.
Variable PROJECT : string.
Variable libm_sin : double -> double.

Local Abbreviation sintable :=
  (sintable legal_text modulename PROJECT libm_sin).
Local Abbreviation quarterwav :=
  (quarterwav legal_text modulename PROJECT libm_sin).
Local Abbreviation sintable_entry := (sintable_entry libm_sin).
Local Abbreviation quarterwav_entry := (quarterwav_entry libm_sin).
Local Abbreviation sintable_tbldata := (sintable_tbldata libm_sin).
Local Abbreviation quarterwav_tbldata := (quarterwav_tbldata libm_sin).

Ltac run_generator :=
  cbn [bind when defined fprintf fputs legal hextable ret assert final
       w_fp w_stderr w_hex negb andb];
  rewrite ?append_assoc; reflexivity.

(** A run of [sintable] below the size limit returns, after it has
    written the module to [fp] and called [hextable] once. *)
Lemma sintable_run fname lgtable ow with_reset with_aux async_reset w :
  0 <= lgtable < 24 ->
  sintable fname lgtable ow with_reset with_aux async_reset w
  = Returned tt
      (World (w_fp w ++
              emitted (sintable fname lgtable ow
                                with_reset with_aux async_reset))
             (w_stderr w)
             (w_hex w ++ [HexCall fname lgtable ow
                                  (sintable_tbldata lgtable ow)])).
Proof.
  intros H. unfold emitted, sintable.
  destruct (Z.geb_spec lgtable 24) as [G|_]; [lia|].
  rewrite (proj2 (int_shl_defined_spec lgtable)) by lia.
  destruct with_reset, with_aux, async_reset; run_generator.
Qed.

(** With a negative phase width [sintable] writes the module as well,
    and then shifts by a negative count. *)
Lemma sintable_negative fname lgtable ow with_reset with_aux async_reset w :
  lgtable < 0 ->
  sintable fname lgtable ow with_reset with_aux async_reset w
  = Undefined
      (World (w_fp w ++
              emitted (sintable fname lgtable ow
                                with_reset with_aux async_reset))
             (w_stderr w) (w_hex w)).
Proof.
  intros H. unfold emitted, sintable.
  destruct (Z.geb_spec lgtable 24) as [G|_]; [lia|].
  assert (D : int_shl_defined 1 lgtable = false).
  { destruct (int_shl_defined 1 lgtable) eqn:E; [|reflexivity].
    apply int_shl_defined_spec in E. lia. }
  rewrite D.
  destruct with_reset, with_aux, async_reset; run_generator.
Qed.

Lemma sintable_too_large fname lgtable ow with_reset with_aux async_reset w :
  24 <= lgtable ->
  sintable fname lgtable ow with_reset with_aux async_reset w
  = Exited EXIT_FAILURE
      (World (w_fp w) (w_stderr w ++ size_diagnostic) (w_hex w)).
Proof.
  intros H. unfold sintable.
  destruct (Z.geb_spec lgtable 24) as [_|G]; [|lia].
  cbn [bind when eprintf exit w_fp w_stderr w_hex].
  rewrite !append_assoc. reflexivity.
Qed.

(** A run of [quarterwav] within its limits returns, after it has written
    the module to [fp] and called [hextable] once, for [lgtable-2]. *)
Lemma quarterwav_run fname lgtable ow with_reset with_aux async_reset w :
  2 < lgtable < 26 ->
  quarterwav fname lgtable ow with_reset with_aux async_reset w
  = Returned tt
      (World (w_fp w ++
              emitted (quarterwav fname lgtable ow
                                  with_reset with_aux async_reset))
             (w_stderr w)
             (w_hex w ++ [HexCall fname (lgtable - 2) ow
                                  (quarterwav_tbldata lgtable ow)])).
Proof.
  intros H. unfold emitted, quarterwav.
  destruct (Z.gtb_spec lgtable 2) as [_|G]; [|lia].
  destruct (Z.geb_spec lgtable 26) as [G|_]; [lia|].
  rewrite (proj2 (int_shl_defined_spec lgtable)) by lia.
  destruct with_reset, with_aux, async_reset; run_generator.
Qed.

Lemma quarterwav_too_small fname lgtable ow with_reset with_aux async_reset w :
  lgtable <= 2 ->
  quarterwav fname lgtable ow with_reset with_aux async_reset w = Aborted w.
Proof.
  intros H. unfold quarterwav.
  destruct (Z.gtb_spec lgtable 2) as [G|_]; [lia|].
  reflexivity.
Qed.

Lemma quarterwav_too_large fname lgtable ow with_reset with_aux async_reset w :
  26 <= lgtable ->
  quarterwav fname lgtable ow with_reset with_aux async_reset w
  = Exited EXIT_FAILURE
      (World (w_fp w) (w_stderr w ++ size_diagnostic) (w_hex w)).
Proof.
  intros H. unfold quarterwav.
  destruct (Z.gtb_spec lgtable 2) as [_|G]; [|lia].
  destruct (Z.geb_spec lgtable 26) as [_|G]; [|lia].
  cbn [bind when assert eprintf exit w_fp w_stderr w_hex].
  rewrite !append_assoc. reflexivity.
Qed.

End Runs.

(** ** The fold of the phase word *)

Lemma bit_not_low n s :
  0 <= n -> 0 <= s < 2 ^ n -> bit_not n s = 2 ^ n - 1 - s.
Proof.
  intros Hn Hs. unfold bit_not, low_bits.
  rewrite Z.land_ones, Z.lnot_eq_pred_opp by assumption.
  replace (- s - 1) with (2 ^ n - 1 - s + (-1) * 2 ^ n) by lia.
  rewrite Z.mod_add by lia.
  apply Z.mod_small. lia.
Qed.

(** The two top bits of a phase word select the half and the quadrant;
    the fold keeps the low bits in even quadrants and mirrors them in odd
    ones. *)
Lemma fold_spec PW k :
  2 < PW -> 0 <= k < 2 ^ PW ->
  exists (h q : bool) (s : Z),
    0 <= s < 2 ^ (PW - 2)
    /\ k = (if h then 2 * 2 ^ (PW - 2) else 0)
           + (if q then 2 ^ (PW - 2) else 0) + s
    /\ QuarterHW.fold_negate PW k = h
    /\ QuarterHW.fold_index PW k = if q then 2 ^ (PW - 2) - 1 - s else s.
Proof.
  intros HPW Hk.
  set (Q := 2 ^ (PW - 2)).
  assert (HQ : 0 < Q) by (apply pow2_pos; lia).
  assert (H2 : 2 ^ (PW - 1) = Q * 2).
  { replace (PW - 1) with (PW - 2 + 1) by lia.
    rewrite Z.pow_add_r by lia. reflexivity. }
  assert (H4 : 2 ^ PW = 4 * Q).
  { replace PW with (PW - 2 + 2) at 1 by lia.
    rewrite Z.pow_add_r by lia. fold Q. lia. }
  pose proof (Z.div_mod k Q ltac:(lia)) as Hdm.
  pose proof (Z.mod_pos_bound k Q HQ) as Hs.
  assert (Hd : 0 <= k / Q < 4).
  { split; [apply Z.div_pos; lia | apply Z.div_lt_upper_bound; lia]. }
  unfold QuarterHW.fold_negate, QuarterHW.fold_index.
  rewrite !Z.testbit_eqb by lia.
  rewrite H2, <- Z.div_div by lia. fold Q.
  replace (low_bits (PW - 2) k) with (k mod Q)
    by (unfold low_bits; rewrite Z.land_ones by lia; reflexivity).
  rewrite bit_not_low by (fold Q; lia). fold Q.
  set (d := k / Q) in *. set (s := k mod Q) in *.
  assert (C : d = 0 \/ d = 1 \/ d = 2 \/ d = 3) by lia.
  destruct C as [C|[C|[C|C]]]; rewrite C in *.
  - exists false, false, s. repeat split; try lia; reflexivity.
  - exists false, true, s. repeat split; try lia; reflexivity.
  - exists true, false, s. repeat split; try lia; reflexivity.
  - exists true, true, s. repeat split; try lia; reflexivity.
Qed.

(** ** The symmetries of the sine the fold relies on *)

Local Open Scope R_scope.

Lemma PI_bounds : 3.1415 < PI < 3.1416.
Proof.
  destruct (PI_2_3_7_ineq 1) as [L _].
  destruct (PI_2_3_7_ineq 2) as [_ U].
  unfold PI_2_3_7_tg, tg_alt, Ratan_seq in L, U.
  simpl in L, U.
  lra.
Qed.

(** A bin centre of the stored quadrant, as the loop of [quarterwav]
    computes it. *)
Lemma bin_centre x n :
  n <> 0 -> 2 * PI * x / n + PI / n = 2 * PI * (x + / 2) / n.
Proof. intros H. field. assumption. Qed.



Lemma sin_cubic_lower a : 0 <= a <= PI -> a - a ^ 3 / 6 <= sin a.
Proof.
  intros [H0 H1].
  destruct (sin_bound a 0 H0 H1) as [Lo _].
  unfold sin_approx, sin_term in Lo.
  simpl in Lo.
  lra.
Qed.

Lemma sin_PI16 : 24.5 / 127 < sin (PI / 16) < 25 / 127.
Proof.
  pose proof PI_bounds as [L U].
  pose proof (sin_cubic_lower (PI / 16) ltac:(split; lra)) as Lo.
  pose proof (sin_lt_x (PI / 16) ltac:(lra)) as Hi.
  set (a := PI / 16) in *.
  assert (Ha : 0.1963 < a < 0.19635) by (unfold a; lra).
  split; [|lra].
  assert (a ^ 3 <= 0.19635 ^ 3) by (apply pow_incr; lra).
  lra.
Qed.

(** The series of the sine encloses it, on [[0, 4]]. *)
Lemma INR_fact n : INR (fact n) = IZR (factZ n).
Proof.
  induction n as [|n IH]; [reflexivity|].
  change (fact (S n)) with (S n * fact n)%nat.
  change (factZ (S n)) with (Z.of_nat (S n) * factZ n)%Z.
  rewrite mult_INR, mult_IZR, IH, INR_IZR_INZ. reflexivity.
Qed.

Lemma sin_approx_poly a n : sin_approx a n = sin_poly a n.
Proof.
  unfold sin_approx. induction n as [|n IH].
  - unfold sum_f_R0, sin_term. simpl. field.
  - change (sum_f_R0 (sin_term a) (S n))
      with (sum_f_R0 (sin_term a) n + sin_term a (S n)).
    rewrite IH. unfold sin_term. rewrite INR_fact.
    cbn [sin_poly]. reflexivity.
Qed.

Lemma sin_between a n :
  0 <= a <= 4 -> sin_poly a (2 * n + 1) <= sin a <= sin_poly a (2 * (n + 1)).
Proof.
  intros [H0 H1]. rewrite <- !sin_approx_poly.
  apply pre_sin_bound; assumption.
Qed.

(** The sine moves no faster than its argument. *)
Lemma sin_abs_le x : Rabs (sin x) <= Rabs x.
Proof.
  assert (P : forall y, 0 <= y -> Rabs (sin y) <= y).
  { intros y Hy. destruct (Rle_lt_dec y 1) as [S|B].
    - pose proof PI_bounds as [L U].
      pose proof (sin_ge_0 y Hy ltac:(lra)).
      rewrite Rabs_pos_eq by assumption.
      destruct (Req_dec y 0) as [->|N].
      + rewrite sin_0. lra.
      + apply Rlt_le. apply sin_lt_x. lra.
    - pose proof (SIN_bound y) as [A B']. apply Rabs_le. lra. }
  destruct (Rle_dec 0 x) as [Hx|Hx].
  - rewrite (Rabs_pos_eq x) by assumption. apply P. assumption.
  - rewrite (Rabs_left x) by lra.
    rewrite <- (Ropp_involutive x) at 1.
    rewrite sin_neg, Rabs_Ropp. apply P. lra.
Qed.

Lemma sin_lipschitz a b : Rabs (sin a - sin b) <= Rabs (a - b).
Proof.
  rewrite form4, !Rabs_mult.
  pose proof (COS_bound ((a + b) / 2)) as [C1 C2].
  assert (C : Rabs (cos ((a + b) / 2)) <= 1) by (apply Rabs_le; lra).
  pose proof (sin_abs_le ((a - b) / 2)) as S.
  pose proof (Rabs_pos (sin ((a - b) / 2))).
  pose proof (Rabs_pos (cos ((a + b) / 2))).
  rewrite (Rabs_pos_eq 2) by lra.
  replace (Rabs ((a - b) / 2)) with (Rabs (a - b) / 2) in S.
  - nra.
  - unfold Rdiv. rewrite Rabs_mult. f_equal.
    rewrite Rabs_pos_eq; lra.
Qed.

Lemma PI_bounds17 :
  3.1415926535897932 < PI < 3.1415926535897933.
Proof.
  destruct (PI_2_3_7_ineq 9) as [L _].
  destruct (PI_2_3_7_ineq 10) as [_ U].
  unfold PI_2_3_7_tg, tg_alt, Ratan_seq in L, U.
  simpl in L, U.
  lra.
Qed.

Lemma sqrt2_bounds : 127 / 90 < sqrt 2 < 127 / 89.5.
Proof.
  split.
  - apply Rsqr_incrst_0; try lra.
    + rewrite Rsqr_sqrt by lra. unfold Rsqr. lra.
    + apply sqrt_pos.
  - apply Rsqr_incrst_0; try lra.
    + rewrite Rsqr_sqrt by lra. unfold Rsqr. lra.
    + apply sqrt_pos.
Qed.

Local Close Scope R_scope.

Ltac eval_factorials H :=
  repeat match type of H with
         | context [factZ ?k] =>
             let v := eval vm_compute in (factZ k) in
             change (factZ k) with v in H
         end.

(** ** The entries of the two tables *)

Lemma in_unit_spec d :
  in_unit d = true ->
  Z.abs (mant d) < 2 ^ 53 /\ (Rabs (value d) <= 1)%R.
Proof.
  unfold in_unit. rewrite andb_true_iff, Z.ltb_lt. intros [M H].
  split; [assumption|].
  unfold value. rewrite exact_abs.
  destruct (Z.leb_spec 0 (expo d)) as [P|N].
  - apply Z.leb_le in H.
    rewrite pow2R_Z, <- mult_IZR by assumption.
    apply IZR_le. assumption.
  - apply Z.leb_le in H. apply scaled_le_int; lia.
Qed.

Lemma below_one_spec d :
  below_one d = true ->
  Z.abs (mant d) < 2 ^ 53 /\ (Rabs (value d) < 1)%R.
Proof.
  unfold below_one. rewrite andb_true_iff, Z.ltb_lt. intros [M H].
  split; [assumption|].
  unfold value. rewrite exact_abs.
  destruct (Z.leb_spec 0 (expo d)) as [P|N].
  - apply Z.ltb_lt in H.
    rewrite pow2R_Z, <- mult_IZR by assumption.
    apply IZR_lt. assumption.
  - apply Z.ltb_lt in H.
    assert (L : (IZR (Z.abs (mant d) + 1) * powerRZ 2 (expo d) <= IZR 1)%R)
      by (apply scaled_le_int; lia).
    rewrite plus_IZR in L. pose proof (pow2R_pos (expo d)). lra.
Qed.

Lemma Rtrunc_below x m :
  (Rabs x < IZR (m + 1))%R -> - m <= Rtrunc x /\ Rtrunc x <= m.
Proof.
  assert (P : forall y, (0 <= y)%R -> (y < IZR (m + 1))%R ->
                        0 <= Int_part y /\ Int_part y <= m).
  { intros y Hy Hm. destruct (base_Int_part y) as [B1 B2]. split.
    - apply Z.lt_succ_r. apply lt_IZR.
      rewrite succ_IZR. lra.
    - apply Z.lt_succ_r. apply lt_IZR.
      unfold Z.succ. lra. }
  intros H. unfold Rtrunc. destruct (Rle_dec 0 x) as [Hx|Hx].
  - rewrite Rabs_pos_eq in H by assumption.
    destruct (P x Hx H). lia.
  - rewrite Rabs_left in H by lra.
    destruct (P (- x)%R ltac:(lra) H). lia.
Qed.

(** A product between two representable numbers [lo 2^clo] and
    [hi 2^chi] is rounded to a number between them. *)
Lemma mul_between a s lo clo hi chi :
  0 <= lo < 2 ^ 53 -> 0 <= hi < 2 ^ 53 ->
  (IZR lo * powerRZ 2 clo <= value a * value s)%R ->
  (value a * value s <= IZR hi * powerRZ 2 chi)%R ->
  (IZR lo * powerRZ 2 clo <= value (mul a s) <= IZR hi * powerRZ 2 chi)%R.
Proof.
  intros Hlo Hhi L U. rewrite <- mul_exact in L, U. unfold mul.
  assert (P : 0 <= mant a * mant s).
  { apply le_IZR.
    pose proof (pow2R_pos (expo a + expo s)).
    pose proof (pow2R_pos clo).
    assert (0 <= IZR lo)%R by (apply IZR_le; lia).
    assert (0 <= IZR lo * powerRZ 2 clo)%R by (apply Rmult_le_pos; lra).
    apply Rmult_le_reg_r with (r := powerRZ 2 (expo a + expo s)); lra. }
  split.
  - apply round53_lower; assumption.
  - apply round53_upper; assumption.
Qed.

Lemma mul_between_neg a s lo clo hi chi :
  0 <= lo < 2 ^ 53 -> 0 <= hi < 2 ^ 53 ->
  (IZR lo * powerRZ 2 clo <= - (value a * value s))%R ->
  (- (value a * value s) <= IZR hi * powerRZ 2 chi)%R ->
  (IZR lo * powerRZ 2 clo <= - value (mul a s)
   <= IZR hi * powerRZ 2 chi)%R.
Proof.
  intros Hlo Hhi L U.
  assert (E : mul a s = opp (mul a (opp s))).
  { unfold mul, opp at 2 3. cbn [mant expo].
    rewrite Z.mul_opp_r, round53_opp.
    unfold opp. cbn [mant expo]. rewrite Z.opp_involutive.
    destruct (round53 _ _). reflexivity. }
  rewrite E, value_opp, Ropp_involutive.
  apply mul_between; try assumption.
  - rewrite value_opp. lra.
  - rewrite value_opp. lra.
Qed.

Lemma Rtrunc_small x : (Rabs x < 1)%R -> Rtrunc x = 0.
Proof.
  intros H. destruct (Rtrunc_below x 0 H). lia.
Qed.

Section Entries.

Variable libm_sin : double -> double.

Local Abbreviation sintable_entry := (sintable_entry libm_sin).
Local Abbreviation quarterwav_entry := (quarterwav_entry libm_sin).

(** With [sin] in [[-1, 1]] and an output width whose [maxv] a [double]
    holds exactly, a product and its conversion stay within
    [maxValue]. *)
Lemma entry_bound ow s :
  1 <= ow <= 54 -> in_unit s = true ->
  - maxValue ow <= to_long (mul (of_long (maxv ow)) s)
  /\ to_long (mul (of_long (maxv ow)) s) <= maxValue ow.
Proof.
  intros Ho Hs. rewrite to_long_spec. apply Rtrunc_bound.
  rewrite maxv_spec by lia.
  pose proof (maxValue_nonneg ow ltac:(lia)).
  assert (2 ^ (ow - 1) <= 2 ^ 53) by (apply Z.pow_le_mono_r; lia).
  apply mul_bound; [unfold maxValue in *; lia|].
  apply in_unit_spec. assumption.
Qed.

(** From 55 bits on [(double)maxv] is [2^(ow-1)], and the product stays
    within [maxValue] when the sine is inside [(-1, 1)]. *)
Lemma entry_bound_wide ow s :
  55 <= ow <= 63 -> below_one s = true ->
  - maxValue ow <= to_long (mul (of_long (maxv ow)) s)
  /\ to_long (mul (of_long (maxv ow)) s) <= maxValue ow.
Proof.
  intros Ho Hs. rewrite to_long_spec. apply Rtrunc_below.
  destruct (below_one_spec s Hs) as [M B].
  rewrite <- value_of_maxv_wide, of_long_maxv_wide by assumption.
  rewrite mul_pow2_exact by assumption.
  rewrite Rabs_mult.
  assert (P : (0 < value (Double (2 ^ 52) (ow - 53)))%R).
  { unfold value. cbn [mant expo].
    apply Rmult_lt_0_compat; [apply IZR_lt; lia | apply pow2R_pos]. }
  rewrite (Rabs_pos_eq (value _)) by lra.
  pose proof (Rabs_pos (value s)). nra.
Qed.

Lemma entry_ow1 s : to_long (mul (of_long (maxv 1)) s) = 0.
Proof. reflexivity. Qed.

(** Where [sin] returns 1 the entry is [maxValue]. *)
Lemma entry_at_one ow s :
  1 <= ow <= 54 -> value s = 1%R ->
  to_long (mul (of_long (maxv ow)) s) = maxValue ow.
Proof.
  intros Ho Hs. rewrite to_long_spec.
  pose proof (maxValue_nonneg ow ltac:(lia)) as N.
  assert (B : maxValue ow < 2 ^ 53).
  { assert (2 ^ (ow - 1) <= 2 ^ 53) by (apply Z.pow_le_mono_r; lia).
    unfold maxValue. lia. }
  destruct (mul_between (of_long (maxv ow)) s
              (maxValue ow) 0 (maxValue ow) 0) as [L U];
    try lia; try (rewrite value_of_maxv, Hs by lia; simpl; lra).
  simpl powerRZ in L, U.
  replace (value (mul (of_long (maxv ow)) s)) with (IZR (maxValue ow))
    by lra.
  apply Rtrunc_IZR.
Qed.

(** The fold applied to the stored quadrant gives the entry at the
    folded index, negated in the second half of the period. *)
Lemma reconstruct_filled lgtable ow k :
  2 < lgtable < 31 -> 0 <= k < 2 ^ lgtable ->
  0 <= QuarterHW.fold_index lgtable k < 2 ^ (lgtable - 2)
  /\ QuarterHW.reconstruct lgtable
       (filled (quarterwav_entry lgtable ow)
               (Z.to_nat (2 ^ (lgtable - 2)))) k
     = Some (if QuarterHW.fold_negate lgtable k
             then - quarterwav_entry lgtable ow
                      (QuarterHW.fold_index lgtable k)
             else quarterwav_entry lgtable ow
                    (QuarterHW.fold_index lgtable k)).
Proof.
  intros Hl Hk.
  destruct (fold_spec lgtable k) as (h & q & s & Hs & Ek & Hn & Hi);
    [lia | assumption |].
  assert (R : 0 <= QuarterHW.fold_index lgtable k < 2 ^ (lgtable - 2))
    by (rewrite Hi; destruct q; lia).
  split; [exact R|].
  unfold QuarterHW.reconstruct.
  rewrite filled_nth_error_Z by lia. reflexivity.
Qed.

End Entries.



(** ** The printed hardware, cycle by cycle *)

Lemma reset_branch async_reset ev i :
  reset_asserted async_reset ev i ->
  always_reset true async_reset ev i = ResetBranch.
Proof.
  unfold reset_asserted, always_reset.
  destruct async_reset; simpl.
  - intros [->|H]; [reflexivity|]. destruct ev; [|reflexivity].
    rewrite H. reflexivity.
  - intros [-> H]. rewrite H. reflexivity.
Qed.

Section QuarterCycles.

Variables PW OW : Z.
Variables with_reset with_aux async_reset : bool.
Variable quartertable : Z -> Z.

Local Abbreviation step :=
  (QuarterHW.step PW OW with_reset with_aux async_reset quartertable).
Local Abbreviation clocks :=
  (QuarterHW.clocks PW OW with_reset with_aux async_reset quartertable).

Lemma quarter_step_enabled i r :
  enabled with_reset async_reset i ->
  step posedge_i_clk i r
  = QuarterHW.Regs
      (QuarterHW.fold_negate PW (i_phase i))
      (QuarterHW.negate0 r)
      (QuarterHW.fold_index PW (i_phase i))
      (quartertable (QuarterHW.index r))
      (if QuarterHW.negate1 r then neg OW (QuarterHW.tblvalue r)
       else QuarterHW.tblvalue r)
      (if with_aux then i_aux i else QuarterHW.aux0 r)
      (if with_aux then QuarterHW.aux0 r else QuarterHW.aux1 r)
      (if with_aux then QuarterHW.aux1 r else QuarterHW.o_aux r).
Proof.
  intros [Hb Hce].
  unfold QuarterHW.step, QuarterHW.main_block, QuarterHW.aux_block.
  rewrite Hb, Hce. destruct with_aux; reflexivity.
Qed.

Lemma quarter_step_disabled i r :
  disabled with_reset async_reset i -> step posedge_i_clk i r = r.
Proof.
  intros [Hb Hce].
  unfold QuarterHW.step, QuarterHW.main_block, QuarterHW.aux_block.
  rewrite Hb, Hce. destruct with_aux, r; reflexivity.
Qed.

Lemma quarter_step_reset ev i r :
  always_reset with_reset async_reset ev i = ResetBranch ->
  step ev i r
  = QuarterHW.Regs false false 0 0 0
      (if with_aux then false else QuarterHW.aux0 r)
      (if with_aux then false else QuarterHW.aux1 r)
      (if with_aux then false else QuarterHW.o_aux r).
Proof.
  intros Hb.
  unfold QuarterHW.step, QuarterHW.main_block, QuarterHW.aux_block.
  rewrite Hb. destruct with_aux; reflexivity.
Qed.

Lemma quarter_clocks_app l1 l2 r :
  clocks (l1 ++ l2) r = clocks l2 (clocks l1 r).
Proof. apply fold_left_app. Qed.

Lemma quarter_clocks_disabled l r :
  Forall (disabled with_reset async_reset) l -> clocks l r = r.
Proof.
  intros H. revert r. induction H as [|i l Hi _ IH]; intros r.
  - reflexivity.
  - unfold QuarterHW.clocks. simpl fold_left.
    rewrite quarter_step_disabled by assumption. apply IH.
Qed.

(** One enabled edge, with any number of disabled edges before it. *)
Lemma quarter_clocks_enabled d i r :
  Forall (disabled with_reset async_reset) d ->
  enabled with_reset async_reset i ->
  clocks (d ++ [i]) r = step posedge_i_clk i r.
Proof.
  intros Hd Hi. rewrite quarter_clocks_app.
  rewrite (quarter_clocks_disabled d) by assumption.
  reflexivity.
Qed.

Lemma quarter_clocks_next d i rest r :
  Forall (disabled with_reset async_reset) d ->
  enabled with_reset async_reset i ->
  clocks (d ++ i :: rest) r = clocks rest (step posedge_i_clk i r).
Proof.
  intros Hd Hi.
  change (d ++ i :: rest) with (d ++ [i] ++ rest).
  rewrite app_assoc, quarter_clocks_app.
  rewrite (quarter_clocks_enabled d i r) by assumption.
  reflexivity.
Qed.

(** A phase word reaches [o_val] with the third enabled edge: it is
    folded into [index], read from the table into [tblvalue], and
    negated or not into [o_val]. *)
Lemma quarter_primary_latency r i0 i1 i2 d0 d1 d2 d3 :
  enabled with_reset async_reset i0 ->
  enabled with_reset async_reset i1 ->
  enabled with_reset async_reset i2 ->
  Forall (disabled with_reset async_reset) d0 ->
  Forall (disabled with_reset async_reset) d1 ->
  Forall (disabled with_reset async_reset) d2 ->
  Forall (disabled with_reset async_reset) d3 ->
  QuarterHW.o_val (clocks (d0 ++ i0 :: d1 ++ i1 :: d2 ++ i2 :: d3) r)
  = QuarterHW.lookup PW OW quartertable (i_phase i0).
Proof.
  intros E0 E1 E2 D0 D1 D2 D3.
  rewrite !quarter_clocks_next by assumption.
  rewrite quarter_clocks_disabled by assumption.
  rewrite !quarter_step_enabled by assumption.
  reflexivity.
Qed.

End QuarterCycles.

(** With [with_aux], the auxiliary bit moves one register per enabled
    edge: [aux[0]], then [aux[1]], then [o_aux]. *)
Lemma quarter_aux_stages PW OW with_reset async_reset quartertable
  r i0 i1 i2 d0 d1 d2 d3 :
  enabled with_reset async_reset i0 ->
  enabled with_reset async_reset i1 ->
  enabled with_reset async_reset i2 ->
  Forall (disabled with_reset async_reset) d0 ->
  Forall (disabled with_reset async_reset) d1 ->
  Forall (disabled with_reset async_reset) d2 ->
  Forall (disabled with_reset async_reset) d3 ->
  let run := QuarterHW.clocks PW OW with_reset true async_reset quartertable in
  QuarterHW.aux0 (run (d0 ++ i0 :: d1) r) = i_aux i0
  /\ QuarterHW.aux1 (run (d0 ++ i0 :: d1 ++ i1 :: d2) r) = i_aux i0
  /\ QuarterHW.o_aux (run (d0 ++ i0 :: d1 ++ i1 :: d2) r) = QuarterHW.aux0 r
  /\ QuarterHW.o_aux (run (d0 ++ i0 :: d1 ++ i1 :: d2 ++ i2 :: d3) r)
     = i_aux i0.
Proof.
  intros E0 E1 E2 D0 D1 D2 D3 run. unfold run.
  rewrite !quarter_clocks_next by assumption.
  rewrite !quarter_clocks_disabled by assumption.
  rewrite !quarter_step_enabled by assumption.
  repeat split; reflexivity.
Qed.

(** ** The printed modules on their tables *)

Lemma low_bits_mod n v : 0 <= n -> low_bits n v = v mod 2 ^ n.
Proof. intros H. unfold low_bits. apply Z.land_ones. assumption. Qed.

(** A word of [n] bits holds the integers of [[-2^(n-1), 2^(n-1))]. *)
Lemma signed_low_bits n v :
  1 <= n -> - 2 ^ (n - 1) <= v < 2 ^ (n - 1) ->
  signed n (low_bits n v) = v.
Proof.
  intros Hn Hv. rewrite low_bits_mod by lia. unfold signed.
  assert (E : 2 ^ n = 2 * 2 ^ (n - 1)).
  { replace n with (Z.succ (n - 1)) at 1 by lia.
    apply Z.pow_succ_r. lia. }
  destruct (Z_lt_le_dec v 0) as [Neg|Pos].
  - replace (v mod 2 ^ n) with (v + 2 ^ n).
    + destruct (Z.ltb_spec (v + 2 ^ n) (2 ^ (n - 1))); lia.
    + apply Z.mod_unique with (q := -1); lia.
  - rewrite Z.mod_small by lia.
    destruct (Z.ltb_spec v (2 ^ (n - 1))); lia.
Qed.

Lemma neg_low_bits n v : 0 <= n -> neg n (low_bits n v) = low_bits n (- v).
Proof.
  intros Hn. unfold neg. rewrite !low_bits_mod by assumption.
  change (- (v mod 2 ^ n)) with (0 - v mod 2 ^ n).
  rewrite Zminus_mod_idemp_r. reflexivity.
Qed.

Section ModulesOnTables.

Variable libm_sin : double -> double.

Local Abbreviation sintable_entry := (sintable_entry libm_sin).
Local Abbreviation quarterwav_entry := (quarterwav_entry libm_sin).
Local Abbreviation sintable_tbldata := (sintable_tbldata libm_sin).
Local Abbreviation quarterwav_tbldata := (quarterwav_tbldata libm_sin).

(** The module of [quarterwav] on the table of [quarterwav]: the word
    that reaches [o_val] for a phase word [k], read as two's complement,
    is the entry at the folded index, negated in the second half of the
    period. *)
Lemma quarter_module_value fname lgtable ow k :
  sine_in_range libm_sin ->
  2 < lgtable < 26 -> 2 <= ow <= 54 -> 0 <= k < 2 ^ lgtable ->
  let c := HexCall fname (lgtable - 2) ow (quarterwav_tbldata lgtable ow) in
  signed ow (QuarterHW.lookup lgtable ow (loaded c) k)
  = if QuarterHW.fold_negate lgtable k
    then - quarterwav_entry lgtable ow (QuarterHW.fold_index lgtable k)
    else quarterwav_entry lgtable ow (QuarterHW.fold_index lgtable k).
Proof.
  intros Hs Hl Ho Hk c.
  destruct (reconstruct_filled libm_sin lgtable ow k ltac:(lia) Hk)
    as [Hj _].
  unfold QuarterHW.lookup, loaded, c.
  rewrite quarterwav_persisted by lia. simpl hx_ow.
  rewrite filled_nth_error_Z by lia.
  assert (B : - maxValue ow
               <= quarterwav_entry lgtable ow (QuarterHW.fold_index lgtable k)
               <= maxValue ow)
    by (apply entry_bound; [lia | apply Hs]).
  assert (P : 0 < 2 ^ (ow - 1)) by (apply pow2_pos; lia).
  unfold maxValue in B.
  destruct (QuarterHW.fold_negate lgtable k).
  - rewrite neg_low_bits by lia. apply signed_low_bits; lia.
  - apply signed_low_bits; lia.
Qed.

(** The same along the pipeline: three enabled edges after a phase word
    was presented, [o_val] holds that value. *)
Lemma quarter_module_output fname lgtable ow with_reset with_aux async_reset
  r i0 i1 i2 d0 d1 d2 d3 :
  sine_in_range libm_sin ->
  2 < lgtable < 26 -> 2 <= ow <= 54 -> 0 <= i_phase i0 < 2 ^ lgtable ->
  enabled with_reset async_reset i0 ->
  enabled with_reset async_reset i1 ->
  enabled with_reset async_reset i2 ->
  Forall (disabled with_reset async_reset) d0 ->
  Forall (disabled with_reset async_reset) d1 ->
  Forall (disabled with_reset async_reset) d2 ->
  Forall (disabled with_reset async_reset) d3 ->
  let c := HexCall fname (lgtable - 2) ow (quarterwav_tbldata lgtable ow) in
  signed ow
    (QuarterHW.o_val
       (QuarterHW.clocks lgtable ow with_reset with_aux async_reset
          (loaded c) (d0 ++ i0 :: d1 ++ i1 :: d2 ++ i2 :: d3) r))
  = if QuarterHW.fold_negate lgtable (i_phase i0)
    then - quarterwav_entry lgtable ow
             (QuarterHW.fold_index lgtable (i_phase i0))
    else quarterwav_entry lgtable ow
           (QuarterHW.fold_index lgtable (i_phase i0)).
Proof.
  intros Hs Hl Ho Hk E0 E1 E2 D0 D1 D2 D3 c.
  rewrite quarter_primary_latency by assumption.
  apply quarter_module_value; assumption.
Qed.

(** The module of [sintable] on the table of [sintable]: an enabled edge
    loads [o_val] with the sample of the phase word and [o_aux] with
    [i_aux]; an event with the reset asserted clears both. *)
Lemma direct_module_output fname lgtable ow with_reset async_reset r i :
  sine_in_range libm_sin ->
  0 <= lgtable < 24 -> 2 <= ow <= 54 -> 0 <= i_phase i < 2 ^ lgtable ->
  enabled with_reset async_reset i ->
  let c := HexCall fname lgtable ow (sintable_tbldata lgtable ow) in
  let r' := DirectHW.step with_reset true async_reset (loaded c)
                          posedge_i_clk i r in
  signed ow (DirectHW.o_val r') = sintable_entry lgtable ow (i_phase i)
  /\ DirectHW.o_aux r' = i_aux i.
Proof.
  intros Hs Hl Ho Hk [Hb Hce] c r'. unfold r', DirectHW.step.
  unfold DirectHW.o_val_block, DirectHW.o_aux_block.
  rewrite Hb, Hce. simpl. split; [|reflexivity].
  unfold loaded, c. rewrite sintable_persisted by lia. simpl hx_ow.
  rewrite filled_nth_error_Z by lia.
  assert (B : - maxValue ow <= sintable_entry lgtable ow (i_phase i)
               <= maxValue ow)
    by (apply entry_bound; [lia | apply Hs]).
  assert (P : 0 < 2 ^ (ow - 1)) by (apply pow2_pos; lia).
  unfold maxValue in B.
  apply signed_low_bits; lia.
Qed.

End ModulesOnTables.

Lemma direct_module_reset tbl with_aux async_reset ev i r :
  reset_asserted async_reset ev i ->
  DirectHW.step true with_aux async_reset tbl ev i r
  = DirectHW.Regs 0 (if with_aux then false else DirectHW.o_aux r).
Proof.
  intros H. unfold DirectHW.step.
  unfold DirectHW.o_val_block, DirectHW.o_aux_block.
  rewrite reset_branch by assumption. reflexivity.
Qed.

(** ** Entries of particular tables *)

Local Open Scope R_scope.

Lemma sin_quintic_upper a :
  0 <= a <= PI -> sin a <= a - a ^ 3 / 6 + a ^ 5 / 120.
Proof.
  intros [H0 H1].
  destruct (sin_bound a 0 H0 H1) as [_ Hi].
  unfold sin_approx, sin_term in Hi.
  simpl in Hi.
  lra.
Qed.

(** [truncate(127 sin(pi/16)) = 24], and 24 is not the nearest integer. *)
Lemma Rtrunc_127_sin_PI16 :
  Rtrunc (127 * sin (PI / 16)) = 24%Z /\ ~ nearest 24 (127 * sin (PI / 16)).
Proof.
  pose proof sin_PI16 as [L U]. split.
  - apply Rtrunc_between; lra.
  - unfold nearest. intros N.
    rewrite Rabs_left in N by lra. lra.
Qed.

(** [truncate(127 sin(pi/4)) = 89], and 89 is not the nearest integer. *)
Lemma Rtrunc_127_sin_PI4 :
  Rtrunc (127 * sin (PI / 4)) = 89%Z /\ ~ nearest 89 (127 * sin (PI / 4)).
Proof.
  pose proof sqrt2_bounds as [L U].
  rewrite sin_PI4.
  assert (P : 0 < / sqrt 2) by (apply Rinv_0_lt_compat; lra).
  assert (E : / sqrt 2 * sqrt 2 = 1) by (apply Rinv_l; lra).
  assert (B : 89.5 < 127 * (1 / sqrt 2) < 90).
  { unfold Rdiv. rewrite Rmult_1_l. split; nra. }
  split.
  - apply Rtrunc_between; lra.
  - unfold nearest. intros N.
    rewrite Rabs_left in N by lra. lra.
Qed.

(** [truncate(127 sin(5 pi/4)) = -89]: toward zero, not downward. *)
Lemma Rtrunc_127_sin_5PI4 : Rtrunc (127 * sin (5 * PI / 4)) = (- 89)%Z.
Proof.
  replace (5 * PI / 4) with (PI / 4 + PI) by field.
  rewrite neg_sin.
  replace (127 * - sin (PI / 4)) with (- (127 * sin (PI / 4))) by ring.
  rewrite Rtrunc_opp.
  destruct Rtrunc_127_sin_PI4 as [-> _]. reflexivity.
Qed.

(** The phase of the first bin centre of sixteen, and of sample 5 of
    eight, as the loops compute them. *)
Lemma value_quarterwav_phase_4_0 :
  value (quarterwav_phase 4 0) = 7074237752028440 / 36028797018963968.
Proof.
  change (quarterwav_phase 4 0) with (Double 7074237752028440 (-55)).
  unfold value. cbn [mant expo]. simpl powerRZ. field.
Qed.

Lemma value_sintable_phase_3_5 :
  value (sintable_phase 3 5) = 8842797190035550 / 2251799813685248.
Proof.
  change (sintable_phase 3 5) with (Double 8842797190035550 (-51)).
  unfold value. cbn [mant expo]. simpl powerRZ. field.
Qed.

Lemma sin_quarterwav_phase_4_0 :
  0.19508 < sin (value (quarterwav_phase 4 0)) < 0.19510.
Proof.
  rewrite value_quarterwav_phase_4_0.
  set (a := 7074237752028440 / 36028797018963968).
  assert (Ha : 0.196349 < a < 0.19635) by (unfold a; lra).
  pose proof PI_bounds as [L U].
  pose proof (sin_cubic_lower a ltac:(split; lra)) as Lo.
  pose proof (sin_quintic_upper a ltac:(split; lra)) as Hi.
  assert (a ^ 3 <= 0.19635 ^ 3) by (apply pow_incr; lra).
  assert (0.196349 ^ 3 <= a ^ 3) by (apply pow_incr; lra).
  assert (a ^ 5 <= 0.19635 ^ 5) by (apply pow_incr; lra).
  split; lra.
Qed.

Lemma sin_sintable_phase_3_5 :
  - 0.7073 < sin (value (sintable_phase 3 5)) < - 0.7046.
Proof.
  rewrite value_sintable_phase_3_5.
  pose proof PI_bounds as [L U].
  set (a := 8842797190035550 / 2251799813685248 - PI).
  replace (8842797190035550 / 2251799813685248) with (a + PI)
    by (unfold a; ring).
  rewrite neg_sin.
  assert (Ha : 0.78539 < a < 0.78550) by (unfold a; lra).
  pose proof (sin_cubic_lower a ltac:(split; lra)) as Lo.
  pose proof (sin_quintic_upper a ltac:(split; lra)) as Hi.
  assert (a ^ 3 <= 0.78550 ^ 3) by (apply pow_incr; lra).
  assert (0.78539 ^ 3 <= a ^ 3) by (apply pow_incr; lra).
  assert (a ^ 5 <= 0.78550 ^ 5) by (apply pow_incr; lra).
  split; lra.
Qed.

Local Close Scope R_scope.

Lemma value_of_long_127 : value (of_long (maxv 8)) = 127%R.
Proof. rewrite value_of_maxv by lia. reflexivity. Qed.

Section ParticularEntries.

Variable libm_sin : double -> double.

Local Open Scope R_scope.

(** With a [sin] within [2^-10] of the sine at the first bin centre of
    sixteen, entry 0 of the quarter table of 8 bits is 24. *)
Lemma quarterwav_entry_4_8_0 :
  close_to_sine 10 libm_sin (quarterwav_phase 4 0) ->
  quarterwav_entry libm_sin 4 8 0 = 24%Z.
Proof.
  intros C. unfold close_to_sine in C.
  pose proof sin_quarterwav_phase_4_0 as [L U].
  apply Rabs_le_between in C. simpl pow in C.
  unfold quarterwav_entry. rewrite to_long_spec.
  set (s := libm_sin (quarterwav_phase 4 0)) in *.
  destruct (mul_between (of_long (maxv 8)) s 24 0 799 (-5)) as [Lo Hi];
    try lia; try (rewrite value_of_long_127; simpl powerRZ; lra).
  simpl powerRZ in Lo, Hi.
  apply Rtrunc_between; lra.
Qed.

(** With a [sin] within [2^-10] of the sine at sample 5 of eight, where
    the sine is negative, entry 5 of the table of 8 bits is -89: the
    conversion has dropped the fraction of -89.8, toward zero. *)
Lemma sintable_entry_3_8_5 :
  close_to_sine 10 libm_sin (sintable_phase 3 5) ->
  sintable_entry libm_sin 3 8 5 = (- 89)%Z.
Proof.
  intros C. unfold close_to_sine in C.
  pose proof sin_sintable_phase_3_5 as [L U].
  apply Rabs_le_between in C. simpl pow in C.
  unfold sintable_entry. rewrite to_long_spec.
  set (s := libm_sin (sintable_phase 3 5)) in *.
  destruct (mul_between_neg (of_long (maxv 8)) s 89 0 2879 (-5))
    as [Lo Hi];
    try lia; try (rewrite value_of_long_127; simpl powerRZ; lra).
  simpl powerRZ in Lo, Hi.
  rewrite <- (Ropp_involutive (value _)), Rtrunc_opp.
  rewrite (Rtrunc_between _ 89); [reflexivity | lra | lra].
Qed.

(** With a [sin] within [2^-10] of the sine at 0, entry 0 of the table
    of [sintable] of 8 bits is 0. *)
Lemma sintable_entry_4_8_0 :
  close_to_sine 10 libm_sin (sintable_phase 4 0) ->
  sintable_entry libm_sin 4 8 0 = 0%Z.
Proof.
  intros C. unfold close_to_sine in C.
  change (sintable_phase 4 0) with zero in *.
  rewrite value_zero, sin_0 in C.
  apply Rabs_le_between in C. simpl pow in C.
  unfold sintable_entry.
  change (sintable_phase 4 0) with zero.
  rewrite to_long_spec.
  set (s := libm_sin zero) in *.
  apply Rtrunc_small.
  destruct (Rle_dec 0 (value s)) as [P|N].
  - destruct (mul_between (of_long (maxv 8)) s 0 0 1 (-1)) as [Lo Hi];
      try lia; try (rewrite value_of_long_127; simpl powerRZ; lra).
    simpl powerRZ in Lo, Hi. rewrite Rabs_pos_eq; lra.
  - destruct (mul_between_neg (of_long (maxv 8)) s 0 0 1 (-1))
      as [Lo Hi];
      try lia; try (rewrite value_of_long_127; simpl powerRZ; lra).
    simpl powerRZ in Lo, Hi. rewrite Rabs_left1; lra.
Qed.

(** Where [sin] returns 1 at the quarter period, entry 4 of sixteen is
    127. *)
Lemma sintable_entry_4_8_4 :
  value (libm_sin (sintable_phase 4 4)) = 1 ->
  sintable_entry libm_sin 4 8 4 = 127%Z.
Proof.
  intros H. unfold sintable_entry.
  apply (entry_at_one 8); [lia | assumption].
Qed.

End ParticularEntries.

(** ** The generators' runs, texts and tables *)

Section GeneratorProperties.

Variable legal_text : string -> string -> string -> string.
Variable modulename : string -> string.
Variable PROJECT : string.
Variable libm_sin : double -> double.

Local Abbreviation sintable :=
  (sintable legal_text modulename PROJECT libm_sin).
Local Abbreviation quarterwav :=
  (quarterwav legal_text modulename PROJECT libm_sin).
Local Abbreviation sintable_entry := (sintable_entry libm_sin).
Local Abbreviation quarterwav_entry := (quarterwav_entry libm_sin).
Local Abbreviation sintable_tbldata := (sintable_tbldata libm_sin).
Local Abbreviation quarterwav_tbldata := (quarterwav_tbldata libm_sin).

Lemma sintable_returns fname lgtable ow with_reset with_aux async_reset w
  (P : string -> hexcall -> Prop) :
  0 <= lgtable < 24 ->
  P (emitted (sintable fname lgtable ow with_reset with_aux async_reset))
    (HexCall fname lgtable ow (sintable_tbldata lgtable ow)) ->
  returns (sintable fname lgtable ow with_reset with_aux async_reset w) w P.
Proof.
  intros H HP. eexists _, _. split; [|exact HP].
  apply sintable_run. assumption.
Qed.

Lemma quarterwav_returns fname lgtable ow with_reset with_aux async_reset w
  (P : string -> hexcall -> Prop) :
  2 < lgtable < 26 ->
  P (emitted (quarterwav fname lgtable ow with_reset with_aux async_reset))
    (HexCall fname (lgtable - 2) ow (quarterwav_tbldata lgtable ow)) ->
  returns (quarterwav fname lgtable ow with_reset with_aux async_reset w) w P.
Proof.
  intros H HP. eexists _, _. split; [|exact HP].
  apply quarterwav_run. assumption.
Qed.

(** C7.  [sintable] with a phase width of 23 returns, and has handed a
    table of [2^23] entries to [hextable].  With a phase width of 24 or
    more it terminates with [EXIT_FAILURE], which is not zero, after it
    has printed the diagnostic to [stderr]: nothing has been written to
    [fp] and [hextable] has not been called, so the test comes before any
    text and before the table. *)
Theorem sintable_size_limit fname lgtable ow with_reset with_aux async_reset w :
  24 <= lgtable ->
  returns (sintable fname 23 ow with_reset with_aux async_reset w) w
          (fun _ c => List.length (persisted c) = Z.to_nat (2 ^ 23))
  /\ sintable fname lgtable ow with_reset with_aux async_reset w
     = Exited EXIT_FAILURE
         (World (w_fp w) (w_stderr w ++ size_diagnostic) (w_hex w))
  /\ EXIT_FAILURE <> 0.
Proof.
  intros H. split; [|split].
  - apply sintable_returns; [lia|].
    rewrite sintable_persisted by lia. apply filled_length.
  - apply sintable_too_large. assumption.
  - discriminate.
Qed.

(** C8.  [quarterwav] stops at the assertion for every phase width of 2
    or less, and terminates with [EXIT_FAILURE] and the diagnostic for
    every phase width of 26 or more; in both cases nothing has been
    written to [fp] and [hextable] has not been called.  With a phase
    width of 3 it returns, with a table of two entries. *)
Theorem quarterwav_limits fname small large ow
  with_reset with_aux async_reset w :
  small <= 2 -> 26 <= large ->
  quarterwav fname small ow with_reset with_aux async_reset w = Aborted w
  /\ quarterwav fname large ow with_reset with_aux async_reset w
     = Exited EXIT_FAILURE
         (World (w_fp w) (w_stderr w ++ size_diagnostic) (w_hex w))
  /\ EXIT_FAILURE <> 0
  /\ returns (quarterwav fname 3 ow with_reset with_aux async_reset w) w
             (fun _ c => List.length (persisted c) = 2%nat).
Proof.
  intros Hs Hl. repeat split.
  - apply quarterwav_too_small. assumption.
  - apply quarterwav_too_large. assumption.
  - discriminate.
  - apply quarterwav_returns; [lia|].
    rewrite quarterwav_persisted by lia. apply filled_length.
Qed.

Lemma quarterwav_declares fname lgtable ow with_reset with_aux async_reset :
  2 < lgtable < 26 ->
  let text := emitted (quarterwav fname lgtable ow
                                  with_reset with_aux async_reset) in
  occurs (parameter_PW lgtable) text
  /\ occurs quartertable_declaration text.
Proof.
  intros H. unfold emitted, quarterwav.
  destruct (Z.gtb_spec lgtable 2) as [_|G]; [|lia].
  destruct (Z.geb_spec lgtable 26) as [G|_]; [lia|].
  destruct with_reset, with_aux, async_reset; emitted_text.
  all: split; find_from "009"%char.
Qed.

(** C6.  Within its limits [quarterwav] prints [PW = lgtable] and
    declares [quartertable] over [[0:((1<<(PW-2))-1)]], which are
    [2^(lgtable-2)] words; it calls [hextable] with [lgtable-2], and the
    [2^(lgtable-2)] cells [hextable] then reads are the samples of one
    quadrant, every one with a value. *)
Theorem quarterwav_table_size fname lgtable ow
  with_reset with_aux async_reset w :
  2 < lgtable < 26 ->
  returns (quarterwav fname lgtable ow with_reset with_aux async_reset w) w
    (fun text c =>
       occurs (parameter_PW lgtable) text
       /\ occurs quartertable_declaration text
       /\ words (quartertable_range lgtable) = 2 ^ (lgtable - 2)
       /\ hx_lgtable c = lgtable - 2
       /\ persisted c
          = filled (quarterwav_entry lgtable ow)
                   (Z.to_nat (2 ^ (lgtable - 2)))
       /\ List.length (persisted c) = Z.to_nat (2 ^ (lgtable - 2))).
Proof.
  intros H. apply quarterwav_returns; [assumption|].
  destruct (quarterwav_declares fname lgtable ow
              with_reset with_aux async_reset H) as [H1 H2].
  rewrite quarterwav_persisted by lia.
  repeat split; try assumption.
  - unfold words, quartertable_range. simpl fst. simpl snd.
    rewrite Z.shiftl_1_l. lia.
  - apply filled_length.
Qed.

Lemma quarterwav_prints_reset fname lgtable ow with_aux async_reset :
  2 < lgtable < 26 ->
  occurs quarter_reset_branch
         (emitted (quarterwav fname lgtable ow true with_aux async_reset)).
Proof.
  intros H. unfold emitted, quarterwav.
  destruct (Z.gtb_spec lgtable 2) as [_|G]; [|lia].
  destruct (Z.geb_spec lgtable 26) as [G|_]; [lia|].
  destruct with_aux, async_reset; emitted_text.
  all: find_from "009"%char.
Qed.

(** C9.  With [with_reset], [quarterwav] prints the reset branch that
    assigns zero to [negate], [index], [tblvalue] and [o_val]; at an event
    with the reset asserted (a rising edge of [i_clk] with [i_reset] high
    or [i_areset_n] low, or the falling edge of [i_areset_n]), both bits
    of [negate], [index], [tblvalue] and [o_val] are zero after that one
    event, whatever they held and whatever the other inputs are. *)
Theorem quarter_reset_clears_pipeline fname lgtable ow with_aux async_reset w
  quartertable ev i r :
  2 < lgtable < 26 ->
  reset_asserted async_reset ev i ->
  returns (quarterwav fname lgtable ow true with_aux async_reset w) w
          (fun text _ => occurs quarter_reset_branch text)
  /\ let r' := QuarterHW.step lgtable ow true with_aux async_reset
                              quartertable ev i r in
     QuarterHW.negate0 r' = false
     /\ QuarterHW.negate1 r' = false
     /\ QuarterHW.index r' = 0
     /\ QuarterHW.tblvalue r' = 0
     /\ QuarterHW.o_val r' = 0.
Proof.
  intros H Hb. split.
  - apply quarterwav_returns; [assumption|].
    apply quarterwav_prints_reset. assumption.
  - rewrite quarter_step_reset by (apply reset_branch; assumption).
    repeat split; reflexivity.
Qed.

Lemma quarterwav_prints_aux fname lgtable ow with_reset async_reset :
  2 < lgtable < 26 ->
  let text := emitted (quarterwav fname lgtable ow
                                  with_reset true async_reset) in
  occurs aux_declaration text /\ occurs aux_shift text.
Proof.
  intros H. unfold emitted, quarterwav.
  destruct (Z.gtb_spec lgtable 2) as [_|G]; [|lia].
  destruct (Z.geb_spec lgtable 26) as [G|_]; [lia|].
  destruct with_reset, async_reset; emitted_text.
  all: split; [find_from "009"%char | find_from "i"%char].
Qed.

(** C2, amended.  With [with_aux], [quarterwav] prints the two bit
    register [aux] and the assignment [{ o_aux, aux } <= { aux, i_aux }]:
    a shift register of three stages, [aux[0]], [aux[1]] and [o_aux], the
    oldest being the output.  A bit presented on an enabled edge is in
    [aux[0]] after that edge, in [aux[1]] after the second enabled edge,
    where [o_aux] still shows what [aux[0]] held before, and in [o_aux]
    after the third; with that third edge [o_val] takes the value looked
    up for the phase presented with the bit.  Edges on which [i_ce] is
    low, before, between or after, change nothing. *)
Theorem quarter_aux_latency fname lgtable ow with_reset async_reset w
  quartertable r i0 i1 i2 d0 d1 d2 d3 :
  2 < lgtable < 26 ->
  enabled with_reset async_reset i0 ->
  enabled with_reset async_reset i1 ->
  enabled with_reset async_reset i2 ->
  Forall (disabled with_reset async_reset) d0 ->
  Forall (disabled with_reset async_reset) d1 ->
  Forall (disabled with_reset async_reset) d2 ->
  Forall (disabled with_reset async_reset) d3 ->
  returns (quarterwav fname lgtable ow with_reset true async_reset w) w
          (fun text _ => occurs aux_declaration text /\ occurs aux_shift text)
  /\ let run := QuarterHW.clocks lgtable ow with_reset true async_reset
                                 quartertable in
     QuarterHW.aux0 (run (d0 ++ i0 :: d1) r) = i_aux i0
     /\ QuarterHW.aux1 (run (d0 ++ i0 :: d1 ++ i1 :: d2) r) = i_aux i0
     /\ QuarterHW.o_aux (run (d0 ++ i0 :: d1 ++ i1 :: d2) r)
        = QuarterHW.aux0 r
     /\ QuarterHW.o_aux (run (d0 ++ i0 :: d1 ++ i1 :: d2 ++ i2 :: d3) r)
        = i_aux i0
     /\ QuarterHW.o_val (run (d0 ++ i0 :: d1 ++ i1 :: d2 ++ i2 :: d3) r)
        = QuarterHW.lookup lgtable ow quartertable (i_phase i0).
Proof.
  intros H E0 E1 E2 D0 D1 D2 D3. split.
  - apply quarterwav_returns; [assumption|].
    apply quarterwav_prints_aux. assumption.
  - intros run.
    destruct (quarter_aux_stages lgtable ow with_reset async_reset
                quartertable r i0 i1 i2 d0 d1 d2 d3
                E0 E1 E2 D0 D1 D2 D3) as (A0 & A1 & A2 & A3).
    repeat split; try assumption.
    apply quarter_primary_latency; assumption.
Qed.

(** C10.  Neither generator tests [ow].  With [ow = 1] and a phase width
    within the limits both return, and every cell [hextable] reads holds
    zero. *)
Theorem tables_of_width_one_are_zero fname direct quarter
  with_reset with_aux async_reset w :
  0 <= direct < 24 -> 2 < quarter < 26 ->
  returns (sintable fname direct 1 with_reset with_aux async_reset w) w
          (fun _ c => persisted c = repeat (Some 0) (Z.to_nat (2 ^ direct)))
  /\ returns (quarterwav fname quarter 1 with_reset with_aux async_reset w) w
             (fun _ c => persisted c
                         = repeat (Some 0) (Z.to_nat (2 ^ (quarter - 2)))).
Proof.
  intros Hd Hq. split.
  - apply sintable_returns; [lia|].
    rewrite sintable_persisted by lia.
    apply filled_constant. intros k. apply entry_ow1.
  - apply quarterwav_returns; [lia|].
    rewrite quarterwav_persisted by lia.
    apply filled_constant. intros k. apply entry_ow1.
Qed.

(** C4, amended.  With a [sin] whose results are in [[-1, 1]], and for
    phase widths within the limits: every cell [hextable] reads of the
    table of [sintable] has a value in [[-maxValue, maxValue]] for the
    output widths from 2 to 54, and every cell of the table of
    [quarterwav] for the output widths from 2 to 63, from 55 on because
    the sines of the stored bin centres are below 1. *)
Theorem entries_within_maxValue fname direct quarter ow wide
  with_reset with_aux async_reset w :
  sine_in_range libm_sin ->
  (forall k, 0 <= k < 2 ^ (quarter - 2) ->
     below_one (libm_sin (quarterwav_phase quarter k)) = true) ->
  0 <= direct < 24 -> 2 < quarter < 26 ->
  2 <= ow <= 54 -> 55 <= wide <= 63 ->
  returns (sintable fname direct ow with_reset with_aux async_reset w) w
          (fun _ c => entries_within (maxValue ow) (persisted c))
  /\ returns (quarterwav fname quarter ow with_reset with_aux async_reset w) w
             (fun _ c => entries_within (maxValue ow) (persisted c))
  /\ returns (quarterwav fname quarter wide
                         with_reset with_aux async_reset w) w
             (fun _ c => entries_within (maxValue wide) (persisted c)).
Proof.
  intros Hs Hb Hd Hq Ho Hw. split; [|split].
  - apply sintable_returns; [lia|].
    rewrite sintable_persisted by lia.
    apply filled_within. intros k.
    apply entry_bound; [lia | apply Hs].
  - apply quarterwav_returns; [lia|].
    rewrite quarterwav_persisted by lia.
    apply filled_within. intros k.
    apply entry_bound; [lia | apply Hs].
  - apply quarterwav_returns; [lia|].
    rewrite quarterwav_persisted by lia.
    apply filled_within_below. intros k Hk.
    apply entry_bound_wide; [lia|].
    apply Hb. rewrite Z2Nat.id in Hk by (apply Z.pow_nonneg; lia). lia.
Qed.

(** C5, amended.  For a phase width within the limit the table of
    [sintable] has [2^lgtable] entries, and entry [k] is the [double]
    product of [(double)maxv] and [sin(ph)] without its fraction,
    truncated toward zero, [ph] being the [double]
    [2.0 * M_PI * k / 2^lgtable]; for the output widths from 1 to 54
    [(double)maxv] is [maxValue].  For a phase width of 4 and an output
    width of 8, [maxValue] is 127 and the table has 16 entries; entry 0
    is 0 when [sin] is within [2^-10] of the sine at 0, and entry 4 is
    127 when [sin] returns 1 at the [double] of the quarter period. *)
Theorem direct_table_truncates fname lgtable ow
  with_reset with_aux async_reset w :
  0 <= lgtable < 24 ->
  close_to_sine 10 libm_sin (sintable_phase 4 0) ->
  value (libm_sin (sintable_phase 4 4)) = 1%R ->
  returns (sintable fname lgtable ow with_reset with_aux async_reset w) w
    (fun _ c =>
       List.length (persisted c) = Z.to_nat (2 ^ lgtable)
       /\ forall k, 0 <= k < 2 ^ lgtable ->
            nth_error (persisted c) (Z.to_nat k)
            = Some (Some (Rtrunc
                            (value (mul (of_long (maxv ow))
                                        (libm_sin
                                           (sintable_phase lgtable k)))))))
  /\ (1 <= ow <= 54 -> value (of_long (maxv ow)) = IZR (maxValue ow))
  /\ maxValue 8 = 127
  /\ returns (sintable fname 4 8 with_reset with_aux async_reset w) w
       (fun _ c =>
          List.length (persisted c) = 16%nat
          /\ nth_error (persisted c) 0 = Some (Some 0)
          /\ nth_error (persisted c) 4 = Some (Some 127)).
Proof.
  intros Hl H0 H4. split; [|split; [|split; [reflexivity|]]].
  - apply sintable_returns; [lia|].
    rewrite sintable_persisted by lia. split; [apply filled_length|].
    intros k Hk.
    pose proof (pow2_pos lgtable ltac:(lia)).
    rewrite filled_nth_error_Z by lia.
    unfold sintable_entry. rewrite to_long_spec. reflexivity.
  - apply value_of_maxv.
  - apply sintable_returns; [lia|].
    rewrite sintable_persisted by lia.
    change (Z.to_nat (2 ^ 4)) with 16%nat.
    split; [apply filled_length|]. split.
    + rewrite (filled_nth_error _ 16 0) by lia.
      change (Z.of_nat 0) with 0.
      rewrite sintable_entry_4_8_0 by assumption. reflexivity.
    + rewrite (filled_nth_error _ 16 4) by lia.
      change (Z.of_nat 4) with 4.
      rewrite sintable_entry_4_8_4 by assumption. reflexivity.
Qed.

(** C3, amended.  For phase widths within the limits and every output
    width, every entry of either table is the [double] product of
    [(double)maxv] and [sin(ph)] truncated toward zero: [ph] is the
    [double] [2.0 * M_PI * k / 2^lgtable] in the table of [sintable], and
    that plus [M_PI / 2^lgtable] in the table of [quarterwav].  The
    factor [(double)maxv] is [maxValue] for the output widths from 1 to
    54 and [maxValue + 1] from 55 to 63.  With a phase width of 4 and an
    output width of 8 the table of [quarterwav] has 4 entries, and with
    a [sin] within [2^-10] of the sine at its phase entry 0 is 24, which
    is [127 sin(pi/16)] truncated and is not the integer nearest to it;
    likewise entry 5 of the table of [sintable] for a phase width of 3
    is -89, which is [127 sin(5 pi/4)] truncated, toward zero. *)
Theorem entries_truncate fname direct quarter ow
  with_reset with_aux async_reset w :
  0 <= direct < 24 -> 2 < quarter < 26 ->
  close_to_sine 10 libm_sin (quarterwav_phase 4 0) ->
  close_to_sine 10 libm_sin (sintable_phase 3 5) ->
  returns (sintable fname direct ow with_reset with_aux async_reset w) w
    (fun _ c =>
       forall k, 0 <= k < 2 ^ direct ->
         nth_error (persisted c) (Z.to_nat k)
         = Some (Some (Rtrunc
                         (value (mul (of_long (maxv ow))
                                     (libm_sin (sintable_phase direct k)))))))
  /\ returns (quarterwav fname quarter ow with_reset with_aux async_reset w) w
       (fun _ c =>
          forall k, 0 <= k < 2 ^ (quarter - 2) ->
            nth_error (persisted c) (Z.to_nat k)
            = Some (Some (Rtrunc
                            (value (mul (of_long (maxv ow))
                                        (libm_sin
                                           (quarterwav_phase quarter k)))))))
  /\ (1 <= ow <= 54 -> value (of_long (maxv ow)) = IZR (maxValue ow))
  /\ (55 <= ow <= 63 -> value (of_long (maxv ow)) = IZR (maxValue ow + 1))
  /\ returns (quarterwav fname 4 8 with_reset with_aux async_reset w) w
       (fun _ c =>
          List.length (persisted c) = 4%nat
          /\ nth_error (persisted c) 0 = Some (Some 24))
  /\ Rtrunc (127 * sin (PI / 16))%R = 24
  /\ ~ nearest 24 (127 * sin (PI / 16))%R
  /\ returns (sintable fname 3 8 with_reset with_aux async_reset w) w
       (fun _ c => nth_error (persisted c) 5 = Some (Some (- 89)))
  /\ Rtrunc (127 * sin (5 * PI / 4))%R = - 89.
Proof.
  intros Hd Hq C0 C5.
  split; [|split; [|split; [|split; [|split; [|split; [|split; [|split]]]]]]].
  - apply sintable_returns; [lia|].
    rewrite sintable_persisted by lia. intros k Hk.
    rewrite filled_nth_error_Z by lia.
    unfold sintable_entry. rewrite to_long_spec. reflexivity.
  - apply quarterwav_returns; [lia|].
    rewrite quarterwav_persisted by lia. intros k Hk.
    pose proof (pow2_pos (quarter - 2) ltac:(lia)).
    rewrite filled_nth_error_Z by lia.
    unfold quarterwav_entry. rewrite to_long_spec. reflexivity.
  - apply value_of_maxv.
  - apply value_of_maxv_wide.
  - apply quarterwav_returns; [lia|].
    rewrite quarterwav_persisted by lia.
    change (Z.to_nat (2 ^ (4 - 2))) with 4%nat.
    split; [apply filled_length|].
    rewrite (filled_nth_error _ 4 0) by lia.
    change (Z.of_nat 0) with 0.
    rewrite quarterwav_entry_4_8_0 by assumption. reflexivity.
  - apply Rtrunc_127_sin_PI16.
  - apply Rtrunc_127_sin_PI16.
  - apply sintable_returns; [lia|].
    rewrite sintable_persisted by lia.
    change (Z.to_nat (2 ^ 3)) with 8%nat.
    rewrite (filled_nth_error _ 8 5) by lia.
    change (Z.of_nat 5) with 5.
    rewrite sintable_entry_3_8_5 by assumption. reflexivity.
  - exact Rtrunc_127_sin_5PI4.
Qed.



End GeneratorProperties.

(** ** Concrete inputs *)

Section ConcreteInputs.

Local Abbreviation sample_sintable :=
  (sintable sample_legal sample_modulename sample_PROJECT sample_sin).
Local Abbreviation sample_quarterwav :=
  (quarterwav sample_legal sample_modulename sample_PROJECT sample_sin).
Local Abbreviation sintable_entry := (sintable_entry sample_sin).
Local Abbreviation quarterwav_entry := (quarterwav_entry sample_sin).

(** The sample [sin] has its results in [[-1, 1]]; at the two bin centres
    of a phase width of 3 they are below 1; it is close to the sine at
    the phases the properties name, and 1 at the quarter period. *)
Lemma lookup_double_all (P : double -> Prop) t x :
  P zero -> Forall (fun p => P (snd p)) t -> P (lookup_double t x).
Proof.
  intros H0 H. induction H as [|[a s] t Hs Ht IH]; [exact H0|].
  simpl. destruct (_ && _); assumption.
Qed.

Lemma sample_sin_in_range : sine_in_range sample_sin.
Proof.
  intros x. unfold sample_sin.
  apply (lookup_double_all (fun d => in_unit d = true)); [reflexivity|].
  unfold sample_sin_table. repeat constructor.
Qed.

Lemma sample_sin_below_one k :
  0 <= k < 2 ^ (3 - 2) ->
  below_one (sample_sin (quarterwav_phase 3 k)) = true.
Proof.
  intros H. change (2 ^ (3 - 2)) with 2 in H.
  assert (C : k = 0 \/ k = 1) by lia.
  destruct C as [-> | ->]; reflexivity.
Qed.

Lemma value_dyadic m p :
  value (Double m (Z.neg p)) = (IZR m / IZR (2 ^ Z.pos p))%R.
Proof.
  unfold value. cbn [mant expo].
  rewrite <- pow2R_Z by lia.
  pose proof (pow2R_opp (Z.pos p)) as O.
  pose proof (pow2R_pos (Z.pos p)) as P.
  change (- Z.pos p) with (Z.neg p) in O.
  field_simplify_eq; [|lra]. rewrite Rmult_assoc, O. ring.
Qed.

Local Open Scope R_scope.

Lemma sample_sin_close_quarter_4_0 :
  close_to_sine 10 sample_sin (quarterwav_phase 4 0).
Proof.
  unfold close_to_sine.
  pose proof sin_quarterwav_phase_4_0 as [L U].
  change (sample_sin (quarterwav_phase 4 0))
    with (Double 7028869612283402 (- 55)).
  rewrite value_dyadic.
  change (2 ^ 55)%Z with 36028797018963968%Z.
  apply Rabs_le. simpl pow. lra.
Qed.

Lemma sample_sin_close_direct_3_5 :
  close_to_sine 10 sample_sin (sintable_phase 3 5).
Proof.
  unfold close_to_sine.
  change (sample_sin (sintable_phase 3 5))
    with (Double (- 6369051672525772) (- 53)).
  rewrite value_sintable_phase_3_5, value_dyadic.
  change (2 ^ 53)%Z with 9007199254740992%Z.
  set (a := 8842797190035550 / 2251799813685248).
  destruct (sin_between a 9) as [Lo Hi]; [unfold a; lra|].
  cbn [sin_poly Nat.mul Nat.add] in Lo, Hi.
  eval_factorials Lo. eval_factorials Hi.
  apply Rabs_le. simpl pow. unfold a in *. lra.
Qed.

Lemma sample_sin_close_direct_4_0 :
  close_to_sine 10 sample_sin (sintable_phase 4 0).
Proof.
  unfold close_to_sine.
  change (sample_sin (sintable_phase 4 0)) with zero.
  change (sintable_phase 4 0) with zero.
  rewrite value_zero, sin_0.
  apply Rabs_le. simpl pow. lra.
Qed.

Lemma sample_sin_quarter_period :
  value (sample_sin (sintable_phase 4 4)) = 1.
Proof.
  change (sample_sin (sintable_phase 4 4))
    with (Double 4503599627370496 (- 52)).
  rewrite value_dyadic.
  change (2 ^ 52)%Z with 4503599627370496%Z. field.
Qed.

Local Close Scope R_scope.



(** The auxiliary bit of the module of [quarterwav] after two enabled
    edges: a bit 1 presented on the first edge is not at [o_aux], it is in
    [aux[1]], and it reaches [o_aux] with a third edge.  The same count
    for the module of [sintable] gives one edge. *)
Lemma quarter_aux_not_after_two_edges :
  let run := QuarterHW.clocks 4 8 true true false (fun _ => 0) in
  QuarterHW.o_aux
    (run [sample_enabled 0 true; sample_enabled 0 false] quarter_zero)
  = false
  /\ QuarterHW.aux1
       (run [sample_enabled 0 true; sample_enabled 0 false] quarter_zero)
     = true
  /\ QuarterHW.o_aux
       (run [sample_enabled 0 true; sample_enabled 0 false;
             sample_enabled 0 false] quarter_zero)
     = true
  /\ DirectHW.o_aux
       (DirectHW.clocks true true false (fun _ => 0)
          [sample_enabled 0 true] direct_zero)
     = true.
Proof. repeat split. Qed.

Lemma quarter_aux_latency_witness :
  let i0 := sample_enabled 5 true in
  let i1 := sample_enabled 6 false in
  let i2 := sample_enabled 7 false in
  let d := [sample_disabled] in
  let run := QuarterHW.clocks 4 8 true true false (fun _ => 0) in
  (2 < 4 < 26
   /\ enabled true false i0 /\ enabled true false i1 /\ enabled true false i2
   /\ Forall (disabled true false) d)
  /\ returns (sample_quarterwav "quarterwav.v" 4 8 true true false fresh) fresh
       (fun text _ => occurs aux_declaration text /\ occurs aux_shift text)
  /\ QuarterHW.aux0 (run (d ++ i0 :: d) quarter_zero) = true
  /\ QuarterHW.aux1 (run (d ++ i0 :: d ++ i1 :: d) quarter_zero) = true
  /\ QuarterHW.o_aux (run (d ++ i0 :: d ++ i1 :: d) quarter_zero) = false
  /\ QuarterHW.o_aux (run (d ++ i0 :: d ++ i1 :: d ++ i2 :: d) quarter_zero)
     = true
  /\ QuarterHW.o_val (run (d ++ i0 :: d ++ i1 :: d ++ i2 :: d) quarter_zero)
     = QuarterHW.lookup 4 8 (fun _ => 0) 5.
Proof.
  intros i0 i1 i2 d run.
  assert (E : forall p a, enabled true false (sample_enabled p a))
    by (intros; split; reflexivity).
  assert (D : Forall (disabled true false) d)
    by (repeat constructor).
  split; [repeat split; (lia || apply E || exact D)|].
  exact (quarter_aux_latency sample_legal sample_modulename sample_PROJECT
           sample_sin "quarterwav.v" 4 8 true false fresh (fun _ => 0)
           quarter_zero
           i0 i1 i2 d d d d ltac:(lia) (E _ _) (E _ _) (E _ _) D D D D).
Defined.

(** A phase width of 3 and an output width of 53, whose [maxValue] a
    [double] holds: the sine of entry 3 is the [double]
    [6369051672525773 / 2^53]; its product with [maxValue] is
    3184525836262885.79, which the multiplication rounds to the [double]
    3184525836262886, and that is entry 3.  The product truncated is
    3184525836262885, and so is [maxValue sin(2 pi 3 / 8)] truncated:
    here the entry is the nearest integer. *)
Lemma entry_not_truncated_product :
  returns (sample_sintable "sintable.v" 3 53 false false false fresh) fresh
    (fun _ c => nth_error (persisted c) 3 = Some (Some 3184525836262886))
  /\ value (of_long (maxv 53)) = IZR (maxValue 53)
  /\ Rtrunc (IZR (maxValue 53) * value (sample_sin (sintable_phase 3 3)))%R
     = 3184525836262885
  /\ reference 3 53 3 = 3184525836262885.
Proof.
  split; [|split; [|split]].
  - apply sintable_returns; [lia|].
    rewrite sintable_persisted by lia.
    reflexivity.
  - apply value_of_maxv. lia.
  - change (sample_sin (sintable_phase 3 3))
      with (Double 6369051672525773 (- 53)).
    unfold value. cbn [mant expo].
    rewrite <- Rmult_assoc, <- mult_IZR.
    change (-53) with (Z.opp 53).
    rewrite Rtrunc_quotient by lia. reflexivity.
  - unfold reference.
    change (maxValue 53) with 4503599627370495.
    change (2 ^ 3) with 8.
    replace (2 * PI * 3 / 8)%R with (PI - PI / 4)%R by field.
    rewrite sin_PI_x, sin_PI4.
    assert (S : (4503599627370495 / 3184525836262886 < sqrt 2
                 < 4503599627370495 / 3184525836262885)%R).
    { split.
      - apply Rsqr_incrst_0; try lra.
        + rewrite Rsqr_sqrt by lra. unfold Rsqr. lra.
        + apply sqrt_pos.
      - apply Rsqr_incrst_0; try lra.
        + rewrite Rsqr_sqrt by lra. unfold Rsqr. lra.
        + apply sqrt_pos. }
    destruct S as [S1 S2].
    assert (P : (0 < sqrt 2)%R) by lra.
    apply Rtrunc_between.
    + split; [lra|].
      unfold Rdiv. rewrite Rmult_1_l.
      apply Rmult_le_reg_r with (r := sqrt 2); [assumption|].
      rewrite Rmult_assoc, Rinv_l by lra. lra.
    + unfold Rdiv. rewrite Rmult_1_l.
      apply Rmult_lt_reg_r with (r := sqrt 2); [assumption|].
      rewrite Rmult_assoc, Rinv_l by lra. lra.
Qed.

Lemma entries_truncate_witness :
  (0 <= 3 < 24 /\ 2 < 4 < 26
   /\ close_to_sine 10 sample_sin (quarterwav_phase 4 0)
   /\ close_to_sine 10 sample_sin (sintable_phase 3 5))
  /\ returns (sample_sintable "wave.v" 3 8 false false false fresh) fresh
       (fun _ c =>
          forall k, 0 <= k < 2 ^ 3 ->
            nth_error (persisted c) (Z.to_nat k)
            = Some (Some (Rtrunc
                            (value (mul (of_long (maxv 8))
                                        (sample_sin (sintable_phase 3 k)))))))
  /\ returns (sample_quarterwav "wave.v" 4 8 false false false fresh)
       fresh
       (fun _ c =>
          List.length (persisted c) = 4%nat
          /\ nth_error (persisted c) 0 = Some (Some 24))
  /\ returns (sample_sintable "wave.v" 3 8 false false false fresh) fresh
       (fun _ c => nth_error (persisted c) 5 = Some (Some (- 89))).
Proof.
  split;
    [repeat split; try lia;
     [exact sample_sin_close_quarter_4_0
     | exact sample_sin_close_direct_3_5]|].
  pose proof (entries_truncate sample_legal sample_modulename sample_PROJECT
                sample_sin "wave.v" 3 4 8 false false false fresh
                ltac:(lia) ltac:(lia)
                sample_sin_close_quarter_4_0 sample_sin_close_direct_3_5)
    as (T1 & _ & _ & _ & T5 & _ & _ & T8 & _).
  exact (conj T1 (conj T5 T8)).
Defined.

(** An output width of 55, a phase width of 2: [maxv] is [2^54 - 1], which
    no [double] holds; its conversion gives [2^54], the sine of entry 1 is
    1, and entry 1 of the table of [sintable] is [2^54 = maxValue + 1]. *)
Lemma sintable_entry_above_maxValue :
  returns (sample_sintable "sintable.v" 2 55 false false false fresh) fresh
    (fun _ c =>
       nth_error (persisted c) 1 = Some (Some (maxValue 55 + 1))
       /\ ~ entries_within (maxValue 55) (persisted c)).
Proof.
  apply sintable_returns; [lia|].
  rewrite sintable_persisted by lia.
  change (Z.to_nat (2 ^ 2)) with 4%nat.
  assert (E : nth_error (filled (sintable_entry 2 55) 4) 1
              = Some (Some (maxValue 55 + 1))) by reflexivity.
  split; [exact E|].
  intros W. apply nth_error_In in E.
  unfold entries_within in W. rewrite Forall_forall in W.
  destruct (W _ E) as (v & Hv & _ & Hle).
  injection Hv as Hv.
  pose proof (eq_refl : maxValue 55 = 18014398509481983) as M. lia.
Qed.

Lemma entries_within_maxValue_witness :
  (sine_in_range sample_sin
   /\ (forall k, 0 <= k < 2 ^ (3 - 2) ->
         below_one (sample_sin (quarterwav_phase 3 k)) = true)
   /\ 0 <= 4 < 24 /\ 2 < 3 < 26 /\ 2 <= 8 <= 54 /\ 55 <= 60 <= 63)
  /\ returns (sample_sintable "sintable.v" 4 8 false false false fresh) fresh
       (fun _ c => entries_within (maxValue 8) (persisted c))
  /\ returns (sample_quarterwav "sintable.v" 3 8 false false false fresh)
       fresh
       (fun _ c => entries_within (maxValue 8) (persisted c))
  /\ returns (sample_quarterwav "sintable.v" 3 60 false false false fresh)
       fresh
       (fun _ c => entries_within (maxValue 60) (persisted c)).
Proof.
  split;
    [repeat split; try lia;
     [exact sample_sin_in_range | exact sample_sin_below_one]|].
  apply (entries_within_maxValue sample_legal sample_modulename
           sample_PROJECT sample_sin "sintable.v" 4 3 8 60
           false false false fresh sample_sin_in_range sample_sin_below_one);
    lia.
Defined.

(** A phase width of 3, an output width of 8: entry 1 of the table of
    [sintable] is 89, and 89 is not an integer nearest to
    [127 sin(2 pi / 8)], which is above 89.5. *)
Lemma sintable_entry_not_rounded :
  returns (sample_sintable "sintable.v" 3 8 false false false fresh) fresh
    (fun _ c => nth_error (persisted c) 1 = Some (Some 89))
  /\ ~ nearest 89 (IZR (maxValue 8) * sin (2 * PI * IZR 1 / IZR (2 ^ 3)))%R.
Proof.
  split.
  - apply sintable_returns; [lia|].
    rewrite sintable_persisted by lia.
    reflexivity.
  - change (maxValue 8) with 127. change (2 ^ 3) with 8.
    replace (2 * PI * 1 / 8)%R with (PI / 4)%R by field.
    apply Rtrunc_127_sin_PI4.
Qed.

Lemma direct_table_truncates_witness :
  (0 <= 4 < 24
   /\ close_to_sine 10 sample_sin (sintable_phase 4 0)
   /\ value (sample_sin (sintable_phase 4 4)) = 1%R)
  /\ returns (sample_sintable "sintable.v" 4 8 false false false fresh) fresh
       (fun _ c =>
          List.length (persisted c) = Z.to_nat (2 ^ 4)
          /\ forall k, 0 <= k < 2 ^ 4 ->
               nth_error (persisted c) (Z.to_nat k)
               = Some (Some (Rtrunc
                               (value (mul (of_long (maxv 8))
                                           (sample_sin
                                              (sintable_phase 4 k)))))))
  /\ maxValue 8 = 127
  /\ returns (sample_sintable "sintable.v" 4 8 false false false fresh) fresh
       (fun _ c =>
          List.length (persisted c) = 16%nat
          /\ nth_error (persisted c) 0 = Some (Some 0)
          /\ nth_error (persisted c) 4 = Some (Some 127)).
Proof.
  split;
    [repeat split; try lia;
     [exact sample_sin_close_direct_4_0 | exact sample_sin_quarter_period]|].
  pose proof (direct_table_truncates sample_legal sample_modulename
                sample_PROJECT sample_sin "sintable.v" 4 8
                false false false fresh ltac:(lia)
                sample_sin_close_direct_4_0 sample_sin_quarter_period)
    as (T1 & _ & T3 & T4).
  exact (conj T1 (conj T3 T4)).
Defined.

Lemma quarterwav_table_size_witness :
  2 < 10 < 26
  /\ returns (sample_quarterwav "quarterwav.v" 10 12 true false true fresh)
       fresh
       (fun text c =>
          occurs (parameter_PW 10) text
          /\ occurs quartertable_declaration text
          /\ words (quartertable_range 10) = 2 ^ (10 - 2)
          /\ hx_lgtable c = 10 - 2
          /\ persisted c
             = filled (quarterwav_entry 10 12) (Z.to_nat (2 ^ (10 - 2)))
          /\ List.length (persisted c) = Z.to_nat (2 ^ (10 - 2))).
Proof.
  split; [lia|].
  apply (quarterwav_table_size sample_legal sample_modulename sample_PROJECT sample_sin
           "quarterwav.v" 10 12 true false true fresh).
  lia.
Defined.

Lemma sintable_size_limit_witness :
  24 <= 24
  /\ sample_sintable "sintable.v" 24 8 true true false fresh
     = Exited EXIT_FAILURE (World "" size_diagnostic [])
  /\ EXIT_FAILURE <> 0.
Proof.
  split; [lia|].
  apply (sintable_size_limit sample_legal sample_modulename sample_PROJECT sample_sin
           "sintable.v" 24 8 true true false fresh).
  lia.
Defined.

Lemma quarterwav_limits_witness :
  (2 <= 2 /\ 26 <= 26)
  /\ sample_quarterwav "quarterwav.v" 2 8 true true false fresh
     = Aborted fresh
  /\ sample_quarterwav "quarterwav.v" 26 8 true true false fresh
     = Exited EXIT_FAILURE (World "" size_diagnostic [])
  /\ EXIT_FAILURE <> 0
  /\ returns (sample_quarterwav "quarterwav.v" 3 8 true true false fresh)
       fresh (fun _ c => List.length (persisted c) = 2%nat).
Proof.
  split; [lia|].
  apply (quarterwav_limits sample_legal sample_modulename sample_PROJECT sample_sin
           "quarterwav.v" 2 26 8 true true false fresh); lia.
Defined.

Lemma quarter_reset_clears_pipeline_witness :
  let r := QuarterHW.Regs true true 3 200 56 true true true in
  let r' := QuarterHW.step 4 8 true true false (fun _ => 77) posedge_i_clk
              (Inputs true true true 9 true) r in
  (2 < 4 < 26
   /\ reset_asserted false posedge_i_clk (Inputs true true true 9 true))
  /\ returns (sample_quarterwav "quarterwav.v" 4 8 true true false fresh) fresh
       (fun text _ => occurs quarter_reset_branch text)
  /\ QuarterHW.negate0 r' = false
  /\ QuarterHW.negate1 r' = false
  /\ QuarterHW.index r' = 0
  /\ QuarterHW.tblvalue r' = 0
  /\ QuarterHW.o_val r' = 0.
Proof.
  intros r r'.
  assert (A : reset_asserted false posedge_i_clk
                (Inputs true true true 9 true)) by (split; reflexivity).
  split; [split; [lia | exact A]|].
  exact (quarter_reset_clears_pipeline sample_legal sample_modulename
           sample_PROJECT sample_sin "quarterwav.v" 4 8 true false fresh (fun _ => 77)
           posedge_i_clk (Inputs true true true 9 true) r
           ltac:(lia) A).
Defined.

Lemma tables_of_width_one_are_zero_witness :
  (0 <= 4 < 24 /\ 2 < 4 < 26)
  /\ returns (sample_sintable "wave.v" 4 1 false false false fresh) fresh
       (fun _ c => persisted c = repeat (Some 0) (Z.to_nat (2 ^ 4)))
  /\ returns (sample_quarterwav "wave.v" 4 1 false false false fresh)
       fresh
       (fun _ c => persisted c = repeat (Some 0) (Z.to_nat (2 ^ (4 - 2)))).
Proof.
  split; [lia|].
  apply (tables_of_width_one_are_zero sample_legal sample_modulename
           sample_PROJECT sample_sin "wave.v" 4 4 false false false fresh); lia.
Defined.

End ConcreteInputs.

(** * Further properties *)

(** ** Texts with a printed argument *)

Lemma begins_app_l prefix text post :
  begins prefix text -> begins prefix (text ++ post)%string.
Proof.
  intros (r & ->). exists (r ++ post)%string.
  rewrite append_assoc. reflexivity.
Qed.

Lemma begins_after prefix middle text :
  begins middle text -> begins (prefix ++ middle)%string (prefix ++ text)%string.
Proof.
  intros (r & ->). exists r. rewrite append_assoc. reflexivity.
Qed.

Lemma begins_here3 a arg b post :
  begins (a ++ arg ++ b)%string (a ++ arg ++ b ++ post)%string.
Proof. exists post. rewrite !append_assoc. reflexivity. Qed.

Lemma ends_here text suffix : ends suffix (text ++ suffix)%string.
Proof. exists text. reflexivity. Qed.

Lemma module_line_begins name ports post :
  begins (module_line name ports)
         (lit "module\t" ++ name
          ++ ("(" ++ String.concat ", " ports ++ lit ");\n") ++ post)%string.
Proof. apply begins_here3. Qed.

Lemma parameter_OW_here ow post :
  occurs (parameter_OW ow)
         (lit "\t\t\tOW =" ++ pad2 (decimal ow) ++ ";" ++ post)%string.
Proof. apply occurs_here3. Qed.

Lemma readmemh_tbl_here name post :
  occurs (readmemh_tbl name)
         (lit "\tinitial\t$readmemh(\q" ++ name
          ++ lit ".hex\q, tbl);\n" ++ post)%string.
Proof. apply occurs_here3. Qed.

Lemma readmemh_quartertable_here name post :
  occurs (readmemh_quartertable name)
         (lit "\tinitial\t$readmemh(\q" ++ name
          ++ lit ".hex\q, quartertable);\n" ++ post)%string.
Proof. apply occurs_here3. Qed.

(** Walk down an evaluated text to a needle that starts with [c] and
    has an argument printed in it; [here] is the needle's lemma. *)
Ltac find_with here c :=
  lazymatch goal with
  | |- occurs ?n (String c ?h) =>
      first [ apply here | apply (occurs_skip n); find_with here c ]
  | |- occurs ?n (String _ ?h) => apply (occurs_skip n); find_with here c
  | |- occurs ?n (?a ++ ?b)%string =>
      first [ apply (occurs_app_l n); solve [find_with here c]
            | apply (occurs_app_r n); find_with here c ]
  end.

(** The texts a run appended, one after the other. *)
Ltac appended_texts :=
  either_shift;
  lazy beta iota zeta
       delta [bind when defined fprintf fputs legal hextable ret assert
              final w_fp w_stderr w_hex negb andb];
  rewrite ?append_assoc;
  change (String.append EmptyString) with (fun s : string => s);
  cbv beta.

Ltac module_line_first :=
  lazymatch goal with
  | |- begins (module_line ?n ?p) _ => apply (module_line_begins n p)
  end.

(** ** The texts of the two generators *)

Section Texts.

Variable legal_text : string -> string -> string -> string.
Variable modulename : string -> string.
Variable PROJECT : string.
Variable libm_sin : double -> double.

Local Abbreviation sintable :=
  (sintable legal_text modulename PROJECT libm_sin).
Local Abbreviation quarterwav :=
  (quarterwav legal_text modulename PROJECT libm_sin).
Local Abbreviation sintable_entry := (sintable_entry libm_sin).
Local Abbreviation quarterwav_entry := (quarterwav_entry libm_sin).
Local Abbreviation sintable_tbldata := (sintable_tbldata libm_sin).
Local Abbreviation quarterwav_tbldata := (quarterwav_tbldata libm_sin).

Lemma sintable_declares fname lgtable ow with_reset with_aux async_reset :
  lgtable < 24 ->
  let text := emitted (sintable fname lgtable ow
                                with_reset with_aux async_reset) in
  occurs (parameter_PW lgtable) text
  /\ occurs (parameter_OW ow) text
  /\ occurs tbl_declaration text
  /\ occurs (readmemh_tbl (modulename fname)) text.
Proof.
  intros H. unfold emitted, sintable.
  destruct (Z.geb_spec lgtable 24) as [G|_]; [lia|].
  destruct with_reset, with_aux, async_reset; emitted_text.
  all: repeat split;
    [ find_from "009"%char
    | find_with parameter_OW_here "009"%char
    | find_from "009"%char
    | find_with readmemh_tbl_here "009"%char ].
Qed.

Lemma quarterwav_loads fname lgtable ow with_reset with_aux async_reset :
  2 < lgtable < 26 ->
  let text := emitted (quarterwav fname lgtable ow
                                  with_reset with_aux async_reset) in
  occurs (parameter_OW ow) text
  /\ occurs (readmemh_quartertable (modulename fname)) text.
Proof.
  intros H. unfold emitted, quarterwav.
  destruct (Z.gtb_spec lgtable 2) as [_|G]; [|lia].
  destruct (Z.geb_spec lgtable 26) as [G|_]; [lia|].
  destruct with_reset, with_aux, async_reset; emitted_text.
  all: split;
    [ find_with parameter_OW_here "009"%char
    | find_with readmemh_quartertable_here "009"%char ].
Qed.

(** Unfolds a run whose tests are decided into the texts it appends, in
    order. *)
Lemma sintable_frame fname lgtable ow with_reset with_aux async_reset :
  lgtable < 24 ->
  let text := emitted (sintable fname lgtable ow
                                with_reset with_aux async_reset) in
  begins (legal_text fname PROJECT sintable_PURPOSE
          ++ default_nettype
          ++ module_line (modulename fname)
               (sintable_ports with_reset with_aux async_reset))%string text
  /\ ends endmodule text.
Proof.
  intros H. unfold emitted, sintable.
  destruct (Z.geb_spec lgtable 24) as [G|_]; [lia|].
  destruct with_reset, with_aux, async_reset.
  all: split.
  all: try (either_shift;
            lazy beta iota zeta
                 delta [bind when defined fprintf fputs legal hextable ret
                        assert final w_fp w_stderr w_hex negb andb];
            apply (ends_here _ endmodule)).
  all: appended_texts.
  all: apply (begins_after (legal_text fname PROJECT sintable_PURPOSE)).
  all: apply (begins_after default_nettype).
  all: apply begins_app_l.
  all: eval_literals; eval_formats; module_line_first.
Qed.

Lemma quarterwav_frame fname lgtable ow with_reset with_aux async_reset :
  2 < lgtable < 26 ->
  let text := emitted (quarterwav fname lgtable ow
                                  with_reset with_aux async_reset) in
  begins (legal_text fname PROJECT quarterwav_PURPOSE
          ++ module_line (modulename fname)
               (quarterwav_ports with_reset with_aux async_reset))%string text
  /\ ends endmodule text.
Proof.
  intros H. unfold emitted, quarterwav.
  destruct (Z.gtb_spec lgtable 2) as [_|G]; [|lia].
  destruct (Z.geb_spec lgtable 26) as [G|_]; [lia|].
  destruct with_reset, with_aux, async_reset.
  all: split.
  all: try (either_shift;
            lazy beta iota zeta
                 delta [bind when defined fprintf fputs legal hextable ret
                        assert final w_fp w_stderr w_hex negb andb];
            apply (ends_here _ endmodule)).
  all: appended_texts.
  all: apply (begins_after (legal_text fname PROJECT quarterwav_PURPOSE)).
  all: apply begins_app_l.
  all: eval_literals; eval_formats; module_line_first.
Qed.

End Texts.

(** ** The runs of the two generators, further *)

Section MoreRuns.

Variable legal_text : string -> string -> string -> string.
Variable modulename : string -> string.
Variable PROJECT : string.
Variable libm_sin : double -> double.

Local Abbreviation sintable :=
  (sintable legal_text modulename PROJECT libm_sin).
Local Abbreviation quarterwav :=
  (quarterwav legal_text modulename PROJECT libm_sin).
Local Abbreviation sintable_entry := (sintable_entry libm_sin).
Local Abbreviation quarterwav_entry := (quarterwav_entry libm_sin).
Local Abbreviation sintable_tbldata := (sintable_tbldata libm_sin).
Local Abbreviation quarterwav_tbldata := (quarterwav_tbldata libm_sin).

Lemma sintable_prints_aux fname lgtable ow with_reset async_reset :
  lgtable < 24 ->
  let text := emitted (sintable fname lgtable ow
                                with_reset true async_reset) in
  occurs o_aux_reg text /\ occurs direct_o_aux_statement text.
Proof.
  intros H. unfold emitted, sintable.
  destruct (Z.geb_spec lgtable 24) as [G|_]; [lia|].
  destruct with_reset, async_reset; emitted_text.
  all: split; [find_from "009"%char | find_from "i"%char].
Qed.

Lemma quarterwav_prints_wire fname lgtable ow with_reset async_reset :
  2 < lgtable < 26 ->
  occurs o_aux_wire
         (emitted (quarterwav fname lgtable ow with_reset true async_reset)).
Proof.
  intros H. unfold emitted, quarterwav.
  destruct (Z.gtb_spec lgtable 2) as [_|G]; [|lia].
  destruct (Z.geb_spec lgtable 26) as [G|_]; [lia|].
  destruct with_reset, async_reset; emitted_text.
  all: find_from "009"%char.
Qed.

(** X1.  For every phase width from 0 to 23 [sintable] returns.  The text
    sets [PW = lgtable] and [OW = ow], declares [tbl] over
    [[0:((1<<PW)-1)]], which are [2^lgtable] words, and loads it from the
    file named after the module.  [hextable] is called once, with
    [fname], [lgtable], [ow] and a buffer of [2^lgtable] cells: every cell
    allocated has been stored, entry [k] with the sample of [k], and
    [hextable] reads them all. *)
Theorem sintable_table_size fname lgtable ow
  with_reset with_aux async_reset w :
  0 <= lgtable < 24 ->
  returns (sintable fname lgtable ow with_reset with_aux async_reset w) w
    (fun text c =>
       occurs (parameter_PW lgtable) text
       /\ occurs (parameter_OW ow) text
       /\ occurs tbl_declaration text
       /\ occurs (readmemh_tbl (modulename fname)) text
       /\ words (tbl_range lgtable) = 2 ^ lgtable
       /\ c = HexCall fname lgtable ow
               (filled (sintable_entry lgtable ow) (Z.to_nat (2 ^ lgtable)))
       /\ persisted c = hx_data c).
Proof.
  intros H. apply sintable_returns; [lia|].
  destruct (sintable_declares legal_text modulename PROJECT libm_sin fname lgtable ow
              with_reset with_aux async_reset ltac:(lia))
    as (H1 & H2 & H3 & H4).
  rewrite sintable_persisted by lia. simpl hx_data.
  rewrite sintable_tbldata_spec by lia.
  repeat split; try assumption.
  unfold words, tbl_range. simpl fst. simpl snd.
  rewrite Z.shiftl_1_l. lia.
Qed.

(** X2.  Below the size limit the text of [sintable] starts with the
    header of [legal], then the [default_nettype] line, then the module
    line, whose ports are [i_clk], the reset port if any ([i_areset_n] or
    [i_reset]), [i_ce], [i_aux] if any, [i_phase], [o_val], and [o_aux] if
    any; the text stops with [endmodule]. *)
Theorem sintable_module_line fname lgtable ow
  with_reset with_aux async_reset w :
  0 <= lgtable < 24 ->
  returns (sintable fname lgtable ow with_reset with_aux async_reset w) w
    (fun text _ =>
       begins (legal_text fname PROJECT sintable_PURPOSE
               ++ default_nettype
               ++ module_line (modulename fname)
                    (sintable_ports with_reset with_aux async_reset))%string
              text
       /\ ends endmodule text).
Proof.
  intros H. apply sintable_returns; [assumption|].
  apply sintable_frame. lia.
Qed.

(** X3.  Within its limits the text of [quarterwav] starts with the
    header of [legal] and then the module line, whose ports are [i_clk],
    the reset port if any, [i_ce], [i_phase], [i_aux] if any, [o_val], and
    [o_aux] if any ([i_aux] after [i_phase] here, before it in
    [sintable]); the text stops with [endmodule]. *)
Theorem quarterwav_module_line fname lgtable ow
  with_reset with_aux async_reset w :
  2 < lgtable < 26 ->
  returns (quarterwav fname lgtable ow with_reset with_aux async_reset w) w
    (fun text _ =>
       begins (legal_text fname PROJECT quarterwav_PURPOSE
               ++ module_line (modulename fname)
                    (quarterwav_ports with_reset with_aux async_reset))%string
              text
       /\ ends endmodule text).
Proof.
  intros H. apply quarterwav_returns; [assumption|].
  apply quarterwav_frame. assumption.
Qed.

(** X4.  Within its limits [quarterwav] prints [OW = ow] and loads
    [quartertable] from the file named after the module, and it calls
    [hextable] with the file name it was given and with [ow]. *)
Theorem quarterwav_load_statement fname lgtable ow
  with_reset with_aux async_reset w :
  2 < lgtable < 26 ->
  returns (quarterwav fname lgtable ow with_reset with_aux async_reset w) w
    (fun text c =>
       occurs (parameter_OW ow) text
       /\ occurs (readmemh_quartertable (modulename fname)) text
       /\ hx_fname c = fname
       /\ hx_ow c = ow).
Proof.
  intros H. apply quarterwav_returns; [assumption|].
  destruct (quarterwav_loads legal_text modulename PROJECT libm_sin fname lgtable ow
              with_reset with_aux async_reset H) as [H1 H2].
  repeat split; assumption.
Qed.

(** X5.  The buffer [quarterwav] hands to [hextable] has [2^lgtable]
    cells, four times what [hextable] is told to read: the loop stores the
    first [2^(lgtable-2)] and the other three quarters never get a
    value. *)
Theorem quarterwav_buffer fname lgtable ow
  with_reset with_aux async_reset w :
  2 < lgtable < 26 ->
  returns (quarterwav fname lgtable ow with_reset with_aux async_reset w) w
    (fun _ c =>
       hx_data c
       = filled (quarterwav_entry lgtable ow) (Z.to_nat (2 ^ (lgtable - 2)))
         ++ repeat None (3 * Z.to_nat (2 ^ (lgtable - 2)))
       /\ List.length (hx_data c) = (4 * Z.to_nat (2 ^ (lgtable - 2)))%nat
       /\ List.length (persisted c) = Z.to_nat (2 ^ (lgtable - 2))).
Proof.
  intros H. apply quarterwav_returns; [assumption|].
  rewrite quarterwav_persisted by lia. simpl hx_data.
  rewrite quarterwav_tbldata_spec by lia.
  assert (E : 2 ^ lgtable = 4 * 2 ^ (lgtable - 2)).
  { replace lgtable with (lgtable - 2 + 2) at 1 by lia.
    rewrite Z.pow_add_r by lia. lia. }
  pose proof (pow2_pos (lgtable - 2) ltac:(lia)) as P.
  assert (N : (Z.to_nat (2 ^ lgtable) - Z.to_nat (2 ^ (lgtable - 2))
               = 3 * Z.to_nat (2 ^ (lgtable - 2)))%nat) by lia.
  rewrite N. repeat split.
  - rewrite length_app, filled_length, repeat_length. lia.
  - apply filled_length.
Qed.

(** X6.  With [with_aux], [sintable] declares [o_aux] as [output reg] and
    assigns it in a clocked block, while [quarterwav] declares [o_aux] as
    [output wire] and assigns it in a clocked block all the same. *)
Theorem o_aux_declarations fname direct quarter ow with_reset async_reset w :
  0 <= direct < 24 -> 2 < quarter < 26 ->
  returns (sintable fname direct ow with_reset true async_reset w) w
    (fun text _ =>
       occurs o_aux_reg text /\ occurs direct_o_aux_statement text)
  /\ returns (quarterwav fname quarter ow with_reset true async_reset w) w
       (fun text _ => occurs o_aux_wire text /\ occurs aux_shift text).
Proof.
  intros Hd Hq. split.
  - apply sintable_returns; [assumption|].
    apply sintable_prints_aux. lia.
  - apply quarterwav_returns; [assumption|]. split.
    + apply quarterwav_prints_wire. assumption.
    + apply (quarterwav_prints_aux legal_text modulename PROJECT libm_sin
               fname quarter ow with_reset async_reset Hq).
Qed.

End MoreRuns.

(** ** The clocked blocks *)

Lemma occurs_begins needle hay : begins needle hay -> occurs needle hay.
Proof. intros (rest & ->). apply occurs_here. Qed.

Lemma begins_here prefix post : begins prefix (prefix ++ post)%string.
Proof. exists post. reflexivity. Qed.

(** Walk down the texts a run appended, one [fprintf] at a time, to a
    block made of several of them. *)
Ltac block_here :=
  first [ apply begins_after; block_here | apply begins_here ].

Ltac find_block :=
  first [ apply occurs_begins; solve [block_here]
        | apply occurs_app_r; find_block ].

Section Blocks.

Variable legal_text : string -> string -> string -> string.
Variable modulename : string -> string.
Variable PROJECT : string.
Variable libm_sin : double -> double.

Local Abbreviation sintable :=
  (sintable legal_text modulename PROJECT libm_sin).
Local Abbreviation quarterwav :=
  (quarterwav legal_text modulename PROJECT libm_sin).
Local Abbreviation sintable_entry := (sintable_entry libm_sin).
Local Abbreviation quarterwav_entry := (quarterwav_entry libm_sin).
Local Abbreviation sintable_tbldata := (sintable_tbldata libm_sin).
Local Abbreviation quarterwav_tbldata := (quarterwav_tbldata libm_sin).

Lemma sintable_prints_o_val_block fname lgtable ow
  with_reset with_aux async_reset :
  lgtable < 24 ->
  occurs (clocked_block with_reset async_reset
            direct_o_val_reset direct_o_val_statement)
         (emitted (sintable fname lgtable ow with_reset with_aux async_reset)).
Proof.
  intros H. unfold emitted, sintable, clocked_block.
  destruct (Z.geb_spec lgtable 24) as [G|_]; [lia|].
  destruct with_reset, with_aux, async_reset.
  all: appended_texts.
  all: find_block.
Qed.

Lemma sintable_prints_o_aux_block fname lgtable ow with_reset async_reset :
  lgtable < 24 ->
  occurs (clocked_block with_reset async_reset
            direct_o_aux_reset direct_o_aux_statement)
         (emitted (sintable fname lgtable ow with_reset true async_reset)).
Proof.
  intros H. unfold emitted, sintable, clocked_block.
  destruct (Z.geb_spec lgtable 24) as [G|_]; [lia|].
  destruct with_reset, async_reset.
  all: appended_texts.
  all: find_block.
Qed.

Lemma quarterwav_prints_main_block fname lgtable ow
  with_reset with_aux async_reset :
  2 < lgtable < 26 ->
  occurs (clocked_block with_reset async_reset
            quarter_reset_branch quarter_pipeline)
         (emitted (quarterwav fname lgtable ow
                              with_reset with_aux async_reset)).
Proof.
  intros H. unfold emitted, quarterwav, clocked_block.
  destruct (Z.gtb_spec lgtable 2) as [_|G]; [|lia].
  destruct (Z.geb_spec lgtable 26) as [G|_]; [lia|].
  destruct with_reset, with_aux, async_reset.
  all: appended_texts.
  all: find_block.
Qed.

Lemma quarterwav_prints_aux_block fname lgtable ow with_reset async_reset :
  2 < lgtable < 26 ->
  occurs (aux_declaration
          ++ clocked_block with_reset async_reset
               quarter_aux_reset aux_shift)%string
         (emitted (quarterwav fname lgtable ow with_reset true async_reset)).
Proof.
  intros H. unfold emitted, quarterwav, clocked_block.
  destruct (Z.gtb_spec lgtable 2) as [_|G]; [|lia].
  destruct (Z.geb_spec lgtable 26) as [G|_]; [lia|].
  destruct with_reset, async_reset.
  all: appended_texts.
  all: find_block.
Qed.

(** X7.  Below the size limit the text of [sintable] holds the block of
    [o_val] in one piece: the [always] line of the reset style asked for
    (asynchronous [negedge i_areset_n] with [if (!i_areset_n)],
    synchronous [if (i_reset)], or none), then [o_val <= 0; else] when
    [with_reset], then [if (i_ce) o_val <= tbl[i_phase];].  With
    [with_aux] a second block of the same shape assigns [o_aux]. *)
Theorem sintable_clocked_blocks fname lgtable ow
  with_reset with_aux async_reset w :
  0 <= lgtable < 24 ->
  returns (sintable fname lgtable ow with_reset with_aux async_reset w) w
    (fun text _ =>
       occurs (clocked_block with_reset async_reset
                 direct_o_val_reset direct_o_val_statement) text
       /\ (with_aux = true ->
           occurs (clocked_block with_reset async_reset
                     direct_o_aux_reset direct_o_aux_statement) text)).
Proof.
  intros H. apply sintable_returns; [assumption|]. split.
  - apply sintable_prints_o_val_block. lia.
  - intros ->. apply sintable_prints_o_aux_block. lia.
Qed.

(** X8.  Within its limits the text of [quarterwav] holds its first block
    in one piece: the [always] line of the reset style asked for, the
    reset branch when [with_reset], and the three stage statement under
    [if (i_ce)].  With [with_aux] the declaration [reg [1:0] aux] is
    followed by a second block of the same reset style that clears or
    shifts [{ o_aux, aux }]. *)
Theorem quarterwav_clocked_blocks fname lgtable ow
  with_reset with_aux async_reset w :
  2 < lgtable < 26 ->
  returns (quarterwav fname lgtable ow with_reset with_aux async_reset w) w
    (fun text _ =>
       occurs (clocked_block with_reset async_reset
                 quarter_reset_branch quarter_pipeline) text
       /\ (with_aux = true ->
           occurs (aux_declaration
                   ++ clocked_block with_reset async_reset
                        quarter_aux_reset aux_shift)%string text)).
Proof.
  intros H. apply quarterwav_returns; [assumption|]. split.
  - apply quarterwav_prints_main_block. assumption.
  - intros ->. apply quarterwav_prints_aux_block. assumption.
Qed.

End Blocks.

(** ** The two modules, edge by edge *)

Section DirectCycles.

Variables with_reset with_aux async_reset : bool.
Variable tbl : Z -> Z.

Local Abbreviation step :=
  (DirectHW.step with_reset with_aux async_reset tbl).
Local Abbreviation clocks :=
  (DirectHW.clocks with_reset with_aux async_reset tbl).

Lemma direct_step_enabled i r :
  enabled with_reset async_reset i ->
  step posedge_i_clk i r
  = DirectHW.Regs (tbl (i_phase i))
                  (if with_aux then i_aux i else DirectHW.o_aux r).
Proof.
  intros [Hb Hce].
  unfold DirectHW.step, DirectHW.o_val_block, DirectHW.o_aux_block.
  rewrite Hb, Hce. destruct with_aux; reflexivity.
Qed.

Lemma direct_step_disabled i r :
  disabled with_reset async_reset i -> step posedge_i_clk i r = r.
Proof.
  intros [Hb Hce].
  unfold DirectHW.step, DirectHW.o_val_block, DirectHW.o_aux_block.
  rewrite Hb, Hce. destruct with_aux, r; reflexivity.
Qed.

Lemma direct_clocks_app l1 l2 r :
  clocks (l1 ++ l2) r = clocks l2 (clocks l1 r).
Proof. apply fold_left_app. Qed.

Lemma direct_clocks_disabled l r :
  Forall (disabled with_reset async_reset) l -> clocks l r = r.
Proof.
  intros H. revert r. induction H as [|i l Hi _ IH]; intros r.
  - reflexivity.
  - unfold DirectHW.clocks. simpl fold_left.
    rewrite direct_step_disabled by assumption. apply IH.
Qed.

(** The registers after an enabled edge and any number of disabled
    edges depend on nothing before the enabled edge but [o_aux], and
    that only without [with_aux]. *)
Lemma direct_clocks_last l i d r :
  enabled with_reset async_reset i ->
  Forall (disabled with_reset async_reset) d ->
  clocks (l ++ i :: d) r
  = DirectHW.Regs (tbl (i_phase i))
      (if with_aux then i_aux i else DirectHW.o_aux (clocks l r)).
Proof.
  intros Hi Hd. rewrite direct_clocks_app.
  change (clocks (i :: d) (clocks l r))
    with (clocks d (step posedge_i_clk i (clocks l r))).
  rewrite direct_clocks_disabled by assumption.
  apply direct_step_enabled. assumption.
Qed.

End DirectCycles.

Section DirectSamples.

Variable libm_sin : double -> double.

Local Abbreviation sintable_entry := (sintable_entry libm_sin).
Local Abbreviation sintable_tbldata := (sintable_tbldata libm_sin).

(** The words [$readmemh] loads from the file of [sintable], read as
    two's complement, are the entries of the table. *)
Lemma sintable_loaded fname lgtable ow k :
  sine_in_range libm_sin ->
  0 <= lgtable < 24 -> 2 <= ow <= 54 -> 0 <= k < 2 ^ lgtable ->
  signed ow (loaded (HexCall fname lgtable ow (sintable_tbldata lgtable ow)) k)
  = sintable_entry lgtable ow k.
Proof.
  intros Hs Hl Ho Hk.
  unfold loaded. rewrite sintable_persisted by lia. simpl hx_ow.
  rewrite filled_nth_error_Z by lia.
  assert (B : - maxValue ow <= sintable_entry lgtable ow k <= maxValue ow)
    by (apply entry_bound; [lia | apply Hs]).
  assert (P : 0 < 2 ^ (ow - 1)) by (apply pow2_pos; lia).
  unfold maxValue in B.
  apply signed_low_bits; lia.
Qed.

(** X9.  With a [sin] whose results are in [[-1, 1]], the module of
    [sintable] on the table of [sintable] has a latency of one enabled
    edge and no memory: whatever edges came before, resets included,
    after an enabled edge and any number of disabled edges [o_val], read
    as two's complement, is the table entry of the phase word of that
    enabled edge, and with [with_aux] [o_aux] is its [i_aux]. *)
Theorem direct_module_samples fname lgtable ow
  with_reset with_aux async_reset l i d r :
  sine_in_range libm_sin ->
  0 <= lgtable < 24 -> 2 <= ow <= 54 -> 0 <= i_phase i < 2 ^ lgtable ->
  enabled with_reset async_reset i ->
  Forall (disabled with_reset async_reset) d ->
  let c := HexCall fname lgtable ow (sintable_tbldata lgtable ow) in
  let r' := DirectHW.clocks with_reset with_aux async_reset (loaded c)
              (l ++ i :: d) r in
  signed ow (DirectHW.o_val r') = sintable_entry lgtable ow (i_phase i)
  /\ (with_aux = true -> DirectHW.o_aux r' = i_aux i).
Proof.
  intros Hs Hl Ho Hk Hi Hd c r'. unfold r'.
  rewrite direct_clocks_last by assumption. simpl. split.
  - apply sintable_loaded; assumption.
  - intros ->. reflexivity.
Qed.

End DirectSamples.

(** X10.  In the module of [sintable] printed [with_reset] the reset has
    priority over [i_ce]: at an event with the reset asserted (a rising
    edge of [i_clk] with [i_reset] high or [i_areset_n] low, or the
    falling edge of [i_areset_n]) [o_val] becomes 0 whatever [i_ce] and
    [i_phase] are, and so does [o_aux] with [with_aux]; the asynchronous
    reset does so without a clock edge, the synchronous one does nothing
    at the falling edge of [i_areset_n]. *)
Theorem direct_reset_priority tbl with_aux async_reset ev i r :
  reset_asserted async_reset ev i ->
  DirectHW.step true with_aux async_reset tbl ev i r
  = DirectHW.Regs 0 (if with_aux then false else DirectHW.o_aux r)
  /\ DirectHW.step true with_aux true tbl negedge_i_areset_n i r
     = DirectHW.Regs 0 (if with_aux then false else DirectHW.o_aux r)
  /\ DirectHW.step true with_aux false tbl negedge_i_areset_n i r = r.
Proof.
  intros H. split; [|split].
  - apply direct_module_reset. assumption.
  - apply direct_module_reset. left. reflexivity.
  - destruct with_aux, r; reflexivity.
Qed.

Section QuarterInvariants.

Variables PW OW : Z.
Variables with_reset with_aux async_reset : bool.
Variable quartertable : Z -> Z.

Local Abbreviation step :=
  (QuarterHW.step PW OW with_reset with_aux async_reset quartertable).
Local Abbreviation clocks :=
  (QuarterHW.clocks PW OW with_reset with_aux async_reset quartertable).

Lemma low_bits_range n x : 0 <= n -> 0 <= low_bits n x < 2 ^ n.
Proof.
  intros H. rewrite low_bits_mod by assumption.
  apply Z.mod_pos_bound. apply pow2_pos. assumption.
Qed.

Lemma fold_index_range phase :
  2 <= PW -> 0 <= QuarterHW.fold_index PW phase < 2 ^ (PW - 2).
Proof.
  intros H. unfold QuarterHW.fold_index, bit_not.
  destruct (Z.testbit phase (PW - 2)); apply low_bits_range; lia.
Qed.

Lemma index_in_range_spec r :
  2 <= PW ->
  index_in_range PW r <-> 0 <= QuarterHW.index r < 2 ^ (PW - 2).
Proof.
  intros H. unfold index_in_range, quartertable_range. simpl fst. simpl snd.
  rewrite Z.shiftl_1_l. lia.
Qed.

Lemma quarter_step_index ev i r :
  2 <= PW -> index_in_range PW r -> index_in_range PW (step ev i r).
Proof.
  intros H Hr. rewrite index_in_range_spec in * by assumption.
  pose proof (pow2_pos (PW - 2) ltac:(lia)) as P.
  pose proof (fold_index_range (i_phase i) H) as F.
  unfold QuarterHW.step, QuarterHW.main_block, QuarterHW.aux_block.
  destruct (always_reset with_reset async_reset ev i), (i_ce i), with_aux;
    simpl; lia.
Qed.

(** X11.  [index] always addresses a word of [quartertable]: the reset
    branch and every enabled edge put it in [[0:((1<<(PW-2))-1)]]
    whatever the phase word is and whatever [index] held, and no event
    takes it out of that range again. *)
Theorem quarter_index_in_range l ev i r :
  2 < PW ->
  (always_reset with_reset async_reset ev i = ResetBranch
   \/ (ev = posedge_i_clk /\ enabled with_reset async_reset i)) ->
  index_in_range PW (clocks l (step ev i r)).
Proof.
  intros H Hev.
  assert (H0 : index_in_range PW (step ev i r)).
  { apply index_in_range_spec; [lia|].
    destruct Hev as [Hb|[-> He]].
    - rewrite quarter_step_reset by assumption. simpl.
      pose proof (pow2_pos (PW - 2) ltac:(lia)). lia.
    - rewrite quarter_step_enabled by assumption. simpl.
      apply fold_index_range. lia. }
  revert H0. generalize (step ev i r). clear r Hev.
  induction l as [|j l IH]; intros r Hr; [exact Hr|].
  apply IH. apply quarter_step_index; [lia | assumption].
Qed.

(** X12.  After a reset the pipeline is not empty: [index] is 0, so the
    first enabled edge reads entry 0 of the table and the second puts it
    on [o_val], not negated, whatever the phase words on those two edges
    are.  [o_val] is 0 after the first enabled edge, entry 0 after the
    second, and the sample of the first phase word after the third. *)
Theorem quarter_after_reset ev i r e0 e1 e2 d0 d1 d2 d3 :
  always_reset with_reset async_reset ev i = ResetBranch ->
  enabled with_reset async_reset e0 ->
  enabled with_reset async_reset e1 ->
  enabled with_reset async_reset e2 ->
  Forall (disabled with_reset async_reset) d0 ->
  Forall (disabled with_reset async_reset) d1 ->
  Forall (disabled with_reset async_reset) d2 ->
  Forall (disabled with_reset async_reset) d3 ->
  let r0 := step ev i r in
  QuarterHW.o_val (clocks d0 r0) = 0
  /\ QuarterHW.o_val (clocks (d0 ++ e0 :: d1) r0) = 0
  /\ QuarterHW.o_val (clocks (d0 ++ e0 :: d1 ++ e1 :: d2) r0)
     = quartertable 0
  /\ QuarterHW.o_val (clocks (d0 ++ e0 :: d1 ++ e1 :: d2 ++ e2 :: d3) r0)
     = QuarterHW.lookup PW OW quartertable (i_phase e0).
Proof.
  intros Hb E0 E1 E2 D0 D1 D2 D3 r0. unfold r0.
  rewrite !quarter_clocks_next by assumption.
  rewrite !quarter_clocks_disabled by assumption.
  rewrite !quarter_step_enabled by assumption.
  rewrite quarter_step_reset by assumption.
  repeat split; reflexivity.
Qed.

End QuarterInvariants.

(** ** The wave the fold makes of a table *)

Lemma pow2_quarters PW :
  2 <= PW ->
  0 < 2 ^ (PW - 2)
  /\ 2 ^ (PW - 1) = 2 * 2 ^ (PW - 2)
  /\ 2 ^ PW = 4 * 2 ^ (PW - 2).
Proof.
  intros H. split; [apply pow2_pos; lia|]. split.
  - replace (PW - 1) with (PW - 2 + 1) by lia.
    rewrite Z.pow_add_r by lia. lia.
  - replace PW with (PW - 2 + 2) at 1 by lia.
    rewrite Z.pow_add_r by lia. lia.
Qed.

(** X13.  Whatever the table holds, the wave the module of [quarterwav]
    makes of it is symmetric: within the first half of the period the
    phase words [k] and [2^(PW-1) - 1 - k] give the same word, and half
    a period later a phase word gives the negated word. *)
Theorem quarter_wave_symmetry PW OW quartertable k :
  2 < PW -> 0 <= k < 2 ^ (PW - 1) ->
  QuarterHW.lookup PW OW quartertable (2 ^ (PW - 1) - 1 - k)
  = QuarterHW.lookup PW OW quartertable k
  /\ QuarterHW.lookup PW OW quartertable (k + 2 ^ (PW - 1))
     = neg OW (QuarterHW.lookup PW OW quartertable k).
Proof.
  intros H Hk.
  destruct (pow2_quarters PW ltac:(lia)) as (HQ & H2 & H4).
  destruct (fold_spec PW k H ltac:(lia)) as (h & q & s & Hs & Ek & Nk & Ik).
  destruct (fold_spec PW (2 ^ (PW - 1) - 1 - k) H ltac:(lia))
    as (h1 & q1 & s1 & Hs1 & Ek1 & Nk1 & Ik1).
  destruct (fold_spec PW (k + 2 ^ (PW - 1)) H ltac:(lia))
    as (h2 & q2 & s2 & Hs2 & Ek2 & Nk2 & Ik2).
  unfold QuarterHW.lookup.
  rewrite Nk, Ik, Nk1, Ik1, Nk2, Ik2.
  set (Q := 2 ^ (PW - 2)) in *.
  assert (h = false) as -> by (destruct h, q; lia).
  assert (h1 = false) as -> by (destruct h1, q1; lia).
  assert (h2 = true) as -> by (destruct h2, q2; lia).
  split.
  - f_equal. destruct q, q1; lia.
  - do 2 f_equal. destruct q, q2; lia.
Qed.

(** X14.  Entry [j] of [quartertable] is read by exactly four phase
    words: [j] and its mirror [2^(PW-1) - 1 - j] without negation, and
    the same two half a period later with negation. *)
Theorem entry_read_by_four_phases PW j k :
  2 < PW -> 0 <= j < 2 ^ (PW - 2) -> 0 <= k < 2 ^ PW ->
  QuarterHW.fold_index PW k = j
  <-> In (k, QuarterHW.fold_negate PW k) (phases_of_entry PW j).
Proof.
  intros H Hj Hk.
  destruct (pow2_quarters PW ltac:(lia)) as (HQ & H2 & H4).
  destruct (fold_spec PW k H Hk) as (h & q & s & Hs & Ek & Nk & Ik).
  rewrite Nk, Ik. unfold phases_of_entry. cbv zeta. cbn [In].
  set (Q := 2 ^ (PW - 2)) in *.
  split.
  - intros E. destruct h, q; cbv iota in E, Ek.
    + right. right. right. left. f_equal. lia.
    + right. right. left. f_equal. lia.
    + right. left. f_equal. lia.
    + left. f_equal. lia.
  - intros [E|[E|[E|[E|[]]]]];
      pose proof (f_equal fst E) as E1; pose proof (f_equal snd E) as E2;
      cbn [fst snd] in E1, E2;
      destruct h, q; try discriminate E2; cbv iota in Ek |- *; lia.
Qed.

Section QuarterSamples.

Variable libm_sin : double -> double.

Local Abbreviation quarterwav_entry := (quarterwav_entry libm_sin).
Local Abbreviation quarterwav_tbldata := (quarterwav_tbldata libm_sin).

(** X19.  With a [sin] whose results are in [[-1, 1]], the module of
    [quarterwav] on the table of [quarterwav] has a latency of three
    enabled edges: whatever edges came before, once a phase word has
    been followed by two more enabled edges, with any number of disabled
    edges in between, [o_val] read as two's complement is the table
    entry at the folded index of that phase word, negated when its top
    bit is set. *)
Theorem quarter_module_samples fname lgtable ow
  with_reset with_aux async_reset l r i0 i1 i2 d1 d2 d3 :
  sine_in_range libm_sin ->
  2 < lgtable < 26 -> 2 <= ow <= 54 -> 0 <= i_phase i0 < 2 ^ lgtable ->
  enabled with_reset async_reset i0 ->
  enabled with_reset async_reset i1 ->
  enabled with_reset async_reset i2 ->
  Forall (disabled with_reset async_reset) d1 ->
  Forall (disabled with_reset async_reset) d2 ->
  Forall (disabled with_reset async_reset) d3 ->
  let c := HexCall fname (lgtable - 2) ow (quarterwav_tbldata lgtable ow) in
  signed ow
    (QuarterHW.o_val
       (QuarterHW.clocks lgtable ow with_reset with_aux async_reset
          (loaded c) (l ++ i0 :: d1 ++ i1 :: d2 ++ i2 :: d3) r))
  = if QuarterHW.fold_negate lgtable (i_phase i0)
    then - quarterwav_entry lgtable ow
             (QuarterHW.fold_index lgtable (i_phase i0))
    else quarterwav_entry lgtable ow
           (QuarterHW.fold_index lgtable (i_phase i0)).
Proof.
  intros Hs Hl Ho Hk E0 E1 E2 D1 D2 D3 c.
  rewrite quarter_clocks_app.
  apply (quarter_module_output libm_sin fname lgtable ow
           with_reset with_aux async_reset _ i0 i1 i2 [] d1 d2 d3);
    try assumption.
  constructor.
Qed.

End QuarterSamples.

(** ** What the options leave out *)


(** ** The ends of the table of [sintable] *)

(** The phases of entry 0, of the entry a quarter of the period in and
    of the entry three quarters in do not depend on the phase width:
    they are 0, [M_PI / 2] and [3 M_PI / 2], which the format holds. *)
Lemma sintable_phase_0 lgtable : sintable_phase lgtable 0 = zero.
Proof. reflexivity. Qed.

Lemma sintable_phase_quarters lgtable :
  2 <= lgtable < 24 ->
  sintable_phase lgtable (2 ^ (lgtable - 2)) = sintable_phase 2 1
  /\ sintable_phase lgtable (3 * 2 ^ (lgtable - 2)) = sintable_phase 2 3.
Proof.
  intros H.
  assert (C : lgtable = 2 \/ lgtable = 3 \/ lgtable = 4 \/ lgtable = 5
              \/ lgtable = 6 \/ lgtable = 7 \/ lgtable = 8 \/ lgtable = 9
              \/ lgtable = 10 \/ lgtable = 11 \/ lgtable = 12
              \/ lgtable = 13 \/ lgtable = 14 \/ lgtable = 15
              \/ lgtable = 16 \/ lgtable = 17 \/ lgtable = 18
              \/ lgtable = 19 \/ lgtable = 20 \/ lgtable = 21
              \/ lgtable = 22 \/ lgtable = 23) by lia.
  repeat (destruct C as [->|C]; [split; reflexivity|]).
  subst lgtable. split; reflexivity.
Qed.

(** Where [sin] returns 0, 1 or -1 the entry is 0, [(double)maxv] or its
    opposite. *)
Lemma product_at_zero ow s :
  value s = 0%R -> to_long (mul (of_long (maxv ow)) s) = 0.
Proof.
  intros H. rewrite to_long_spec. apply Rtrunc_small.
  destruct (mul_between (of_long (maxv ow)) s 0 0 0 0) as [L U];
    try lia; try (rewrite H; simpl; lra).
  simpl in L, U. rewrite Rabs_pos_eq; lra.
Qed.

Lemma value_of_maxv_representable ow :
  1 <= ow <= 63 ->
  exists B c, 0 <= B < 2 ^ 53
              /\ value (of_long (maxv ow)) = (IZR B * powerRZ 2 c)%R
              /\ Rtrunc (IZR B * powerRZ 2 c)
                 = if ow <=? 54 then maxValue ow else maxValue ow + 1.
Proof.
  intros H. destruct (Z.leb_spec ow 54) as [N|W].
  - exists (maxValue ow), 0.
    pose proof (maxValue_nonneg ow ltac:(lia)).
    assert (2 ^ (ow - 1) <= 2 ^ 53) by (apply Z.pow_le_mono_r; lia).
    split; [unfold maxValue in *; lia|].
    rewrite value_of_maxv by lia. simpl powerRZ. rewrite Rmult_1_r.
    split; [reflexivity | apply Rtrunc_IZR].
  - exists 1, (ow - 1). split; [lia|].
    rewrite value_of_maxv_wide by lia.
    rewrite Rmult_1_l, pow2R_Z by lia.
    replace (maxValue ow + 1) with (2 ^ (ow - 1)) by (unfold maxValue; lia).
    split; [reflexivity | apply Rtrunc_IZR].
Qed.

Lemma product_at_one ow s :
  1 <= ow <= 63 -> value s = 1%R ->
  to_long (mul (of_long (maxv ow)) s)
  = if ow <=? 54 then maxValue ow else maxValue ow + 1.
Proof.
  intros Ho Hs. rewrite to_long_spec.
  destruct (value_of_maxv_representable ow Ho) as (B & c & HB & EV & ET).
  destruct (mul_between (of_long (maxv ow)) s B c B c) as [L U];
    try lia; try (rewrite EV, Hs; lra).
  replace (value (mul (of_long (maxv ow)) s)) with (IZR B * powerRZ 2 c)%R
    by lra.
  exact ET.
Qed.

Lemma product_at_minus_one ow s :
  1 <= ow <= 63 -> value s = (-1)%R ->
  to_long (mul (of_long (maxv ow)) s)
  = - (if ow <=? 54 then maxValue ow else maxValue ow + 1).
Proof.
  intros Ho Hs. rewrite to_long_spec.
  destruct (value_of_maxv_representable ow Ho) as (B & c & HB & EV & ET).
  destruct (mul_between_neg (of_long (maxv ow)) s B c B c) as [L U];
    try lia; try (rewrite EV, Hs; lra).
  replace (value (mul (of_long (maxv ow)) s))
    with (- (IZR B * powerRZ 2 c))%R by lra.
  rewrite Rtrunc_opp, ET. reflexivity.
Qed.

Section TableEnds.

Variable legal_text : string -> string -> string -> string.
Variable modulename : string -> string.
Variable PROJECT : string.
Variable libm_sin : double -> double.

Local Abbreviation sintable :=
  (sintable legal_text modulename PROJECT libm_sin).
Local Abbreviation sintable_entry := (sintable_entry libm_sin).

(** X16.  With a [sin] that returns 0, 1 and -1 at the [double]s of 0,
    of a quarter and of three quarters of the period, for a phase width
    from 2 up to the limit: in the table [sintable] hands to [hextable]
    entry 0 is 0, and for an output width from 1 to 54 the entry a
    quarter of the period in is [maxValue] and the entry three quarters
    in is [- maxValue], so that the table reaches both ends of
    [[-maxValue, maxValue]]; for an output width from 55 to 63 those two
    entries are [maxValue + 1] and [- (maxValue + 1)], outside of it. *)
Theorem sintable_zero_and_peaks fname lgtable ow wide
  with_reset with_aux async_reset w :
  value (libm_sin (sintable_phase 2 0)) = 0%R ->
  value (libm_sin (sintable_phase 2 1)) = 1%R ->
  value (libm_sin (sintable_phase 2 3)) = (-1)%R ->
  2 <= lgtable < 24 -> 1 <= ow <= 54 -> 55 <= wide <= 63 ->
  returns (sintable fname lgtable ow with_reset with_aux async_reset w) w
    (fun _ c =>
       nth_error (persisted c) 0 = Some (Some 0)
       /\ nth_error (persisted c) (Z.to_nat (2 ^ (lgtable - 2)))
          = Some (Some (maxValue ow))
       /\ nth_error (persisted c) (Z.to_nat (3 * 2 ^ (lgtable - 2)))
          = Some (Some (- maxValue ow)))
  /\ returns (sintable fname lgtable wide with_reset with_aux async_reset w) w
       (fun _ c =>
          nth_error (persisted c) 0 = Some (Some 0)
          /\ nth_error (persisted c) (Z.to_nat (2 ^ (lgtable - 2)))
             = Some (Some (maxValue wide + 1))
          /\ nth_error (persisted c) (Z.to_nat (3 * 2 ^ (lgtable - 2)))
             = Some (Some (- (maxValue wide + 1)))).
Proof.
  intros S0 S1 S3 Hl Ho Hw.
  destruct (pow2_quarters lgtable ltac:(lia)) as (HQ & _ & H4).
  destruct (sintable_phase_quarters lgtable Hl) as [P1 P3].
  assert (E : forall o, 1 <= o <= 63 ->
            sintable_entry lgtable o 0 = 0
            /\ sintable_entry lgtable o (2 ^ (lgtable - 2))
               = (if o <=? 54 then maxValue o else maxValue o + 1)
            /\ sintable_entry lgtable o (3 * 2 ^ (lgtable - 2))
               = - (if o <=? 54 then maxValue o else maxValue o + 1)).
  { intros o Hr. unfold sintable_entry. rewrite P1, P3. split; [|split].
    - apply product_at_zero. exact S0.
    - apply product_at_one; assumption.
    - apply product_at_minus_one; assumption. }
  split.
  - apply sintable_returns; [lia|].
    rewrite sintable_persisted by lia.
    destruct (E ow ltac:(lia)) as (E0 & E1 & E3).
    destruct (Z.leb_spec ow 54); [|lia].
    change 0%nat with (Z.to_nat 0).
    rewrite !filled_nth_error_Z by lia.
    rewrite E0, E1, E3. repeat split; reflexivity.
  - apply sintable_returns; [lia|].
    rewrite sintable_persisted by lia.
    destruct (E wide ltac:(lia)) as (E0 & E1 & E3).
    destruct (Z.leb_spec wide 54); [lia|].
    change 0%nat with (Z.to_nat 0).
    rewrite !filled_nth_error_Z by lia.
    rewrite E0, E1, E3. repeat split; reflexivity.
Qed.

(** X20.  [sintable] has no test for a negative phase width: it writes
    the whole module to [fp], and then the size of the array,
    [1<<lgtable], is a shift by a negative count, whose behaviour is
    undefined; nothing has gone to [stderr] and [hextable] has not been
    called. *)
Theorem sintable_negative_width fname lgtable ow
  with_reset with_aux async_reset w :
  lgtable < 0 ->
  int_shl_defined 1 lgtable = false
  /\ sintable fname lgtable ow with_reset with_aux async_reset w
     = Undefined
         (World (w_fp w ++
                 emitted (sintable fname lgtable ow
                                   with_reset with_aux async_reset))
                (w_stderr w) (w_hex w))
  /\ ends endmodule
          (emitted (sintable fname lgtable ow
                             with_reset with_aux async_reset)).
Proof.
  intros H. split; [|split].
  - destruct (int_shl_defined 1 lgtable) eqn:E; [|reflexivity].
    apply int_shl_defined_spec in E. lia.
  - apply sintable_negative. assumption.
  - apply (sintable_frame legal_text modulename PROJECT libm_sin
             fname lgtable ow with_reset with_aux async_reset). lia.
Qed.

End TableEnds.

(** ** Concrete inputs of the further properties *)

Section FurtherInputs.

Local Abbreviation sample_sintable :=
  (sintable sample_legal sample_modulename sample_PROJECT sample_sin).
Local Abbreviation sample_quarterwav :=
  (quarterwav sample_legal sample_modulename sample_PROJECT sample_sin).
Local Abbreviation sintable_entry := (sintable_entry sample_sin).
Local Abbreviation quarterwav_entry := (quarterwav_entry sample_sin).

Lemma sintable_table_size_witness :
  0 <= 4 < 24
  /\ returns (sample_sintable "sintable.v" 4 8 true true false fresh) fresh
       (fun text c =>
          occurs (parameter_PW 4) text
          /\ occurs (parameter_OW 8) text
          /\ occurs tbl_declaration text
          /\ occurs (readmemh_tbl (sample_modulename "sintable.v")) text
          /\ words (tbl_range 4) = 2 ^ 4
          /\ c = HexCall "sintable.v" 4 8
                  (filled (sintable_entry 4 8) (Z.to_nat (2 ^ 4)))
          /\ persisted c = hx_data c).
Proof.
  split; [lia|].
  apply (sintable_table_size sample_legal sample_modulename sample_PROJECT sample_sin
           "sintable.v" 4 8 true true false fresh).
  lia.
Defined.

Lemma sintable_module_line_witness :
  0 <= 4 < 24
  /\ returns (sample_sintable "sintable.v" 4 8 true true true fresh) fresh
       (fun text _ =>
          begins (sample_legal "sintable.v" sample_PROJECT sintable_PURPOSE
                  ++ default_nettype
                  ++ module_line (sample_modulename "sintable.v")
                       (sintable_ports true true true))%string text
          /\ ends endmodule text).
Proof.
  split; [lia|].
  apply (sintable_module_line sample_legal sample_modulename sample_PROJECT sample_sin
           "sintable.v" 4 8 true true true fresh).
  lia.
Defined.

Lemma quarterwav_module_line_witness :
  2 < 4 < 26
  /\ returns (sample_quarterwav "quarterwav.v" 4 8 true true true fresh) fresh
       (fun text _ =>
          begins (sample_legal "quarterwav.v" sample_PROJECT
                               quarterwav_PURPOSE
                  ++ module_line (sample_modulename "quarterwav.v")
                       (quarterwav_ports true true true))%string text
          /\ ends endmodule text).
Proof.
  split; [lia|].
  apply (quarterwav_module_line sample_legal sample_modulename
           sample_PROJECT sample_sin "quarterwav.v" 4 8 true true true fresh).
  lia.
Defined.

Lemma quarterwav_load_statement_witness :
  2 < 4 < 26
  /\ returns (sample_quarterwav "quarterwav.v" 4 8 false false false fresh)
       fresh
       (fun text c =>
          occurs (parameter_OW 8) text
          /\ occurs (readmemh_quartertable (sample_modulename "quarterwav.v"))
                    text
          /\ hx_fname c = "quarterwav.v"%string
          /\ hx_ow c = 8).
Proof.
  split; [lia|].
  apply (quarterwav_load_statement sample_legal sample_modulename
           sample_PROJECT sample_sin "quarterwav.v" 4 8 false false false fresh).
  lia.
Defined.

Lemma quarterwav_buffer_witness :
  2 < 4 < 26
  /\ returns (sample_quarterwav "quarterwav.v" 4 8 false false false fresh)
       fresh
       (fun _ c =>
          hx_data c
          = filled (quarterwav_entry 4 8) (Z.to_nat (2 ^ (4 - 2)))
            ++ repeat None (3 * Z.to_nat (2 ^ (4 - 2)))
          /\ List.length (hx_data c) = (4 * Z.to_nat (2 ^ (4 - 2)))%nat
          /\ List.length (persisted c) = Z.to_nat (2 ^ (4 - 2))).
Proof.
  split; [lia|].
  apply (quarterwav_buffer sample_legal sample_modulename sample_PROJECT sample_sin
           "quarterwav.v" 4 8 false false false fresh).
  lia.
Defined.

Lemma o_aux_declarations_witness :
  (0 <= 4 < 24 /\ 2 < 4 < 26)
  /\ returns (sample_sintable "wave.v" 4 8 true true false fresh) fresh
       (fun text _ =>
          occurs o_aux_reg text /\ occurs direct_o_aux_statement text)
  /\ returns (sample_quarterwav "wave.v" 4 8 true true false fresh) fresh
       (fun text _ => occurs o_aux_wire text /\ occurs aux_shift text).
Proof.
  split; [lia|].
  apply (o_aux_declarations sample_legal sample_modulename sample_PROJECT sample_sin
           "wave.v" 4 4 8 true false fresh); lia.
Defined.

Lemma sintable_clocked_blocks_witness :
  0 <= 4 < 24
  /\ returns (sample_sintable "sintable.v" 4 8 true true true fresh) fresh
       (fun text _ =>
          occurs (clocked_block true true
                    direct_o_val_reset direct_o_val_statement) text
          /\ (true = true ->
              occurs (clocked_block true true
                        direct_o_aux_reset direct_o_aux_statement) text)).
Proof.
  split; [lia|].
  apply (sintable_clocked_blocks sample_legal sample_modulename
           sample_PROJECT sample_sin "sintable.v" 4 8 true true true fresh).
  lia.
Defined.

Lemma quarterwav_clocked_blocks_witness :
  2 < 4 < 26
  /\ returns (sample_quarterwav "quarterwav.v" 4 8 true true false fresh)
       fresh
       (fun text _ =>
          occurs (clocked_block true false
                    quarter_reset_branch quarter_pipeline) text
          /\ (true = true ->
              occurs (aux_declaration
                      ++ clocked_block true false
                           quarter_aux_reset aux_shift)%string text)).
Proof.
  split; [lia|].
  apply (quarterwav_clocked_blocks sample_legal sample_modulename
           sample_PROJECT sample_sin "quarterwav.v" 4 8 true true false fresh).
  lia.
Defined.

Lemma direct_module_samples_witness :
  let i := sample_enabled 5 true in
  let c := HexCall "sintable.v" 4 8 (sintable_tbldata sample_sin 4 8) in
  let r' := DirectHW.clocks false true false (loaded c)
              ([Inputs true false true 3 false] ++ i :: [sample_disabled])
              direct_zero in
  (sine_in_range sample_sin
   /\ enabled false false i /\ Forall (disabled false false) [sample_disabled])
  /\ signed 8 (DirectHW.o_val r') = sintable_entry 4 8 (i_phase i)
  /\ (true = true -> DirectHW.o_aux r' = i_aux i).
Proof.
  intros i c r'.
  assert (E : enabled false false i) by (split; reflexivity).
  assert (D : Forall (disabled false false) [sample_disabled])
    by (repeat constructor).
  split; [split; [exact sample_sin_in_range | split; assumption]|].
  apply (direct_module_samples sample_sin "sintable.v" 4 8 false true false
           [Inputs true false true 3 false] i [sample_disabled] direct_zero);
    [exact sample_sin_in_range | lia | lia | simpl; lia | exact E | exact D].
Defined.

Lemma direct_reset_priority_witness :
  let i := Inputs true true true 9 true in
  let r := DirectHW.Regs 56 true in
  reset_asserted false posedge_i_clk i
  /\ DirectHW.step true true false (fun _ => 77) posedge_i_clk i r
     = DirectHW.Regs 0 (if true then false else DirectHW.o_aux r)
  /\ DirectHW.step true true true (fun _ => 77) negedge_i_areset_n i r
     = DirectHW.Regs 0 (if true then false else DirectHW.o_aux r)
  /\ DirectHW.step true true false (fun _ => 77) negedge_i_areset_n i r = r.
Proof.
  intros i r.
  assert (A : reset_asserted false posedge_i_clk i) by (split; reflexivity).
  split; [exact A|].
  exact (direct_reset_priority (fun _ => 77) true false posedge_i_clk i r A).
Defined.

Lemma quarter_index_in_range_witness :
  let i := sample_enabled 255 false in
  (2 < 4 /\ enabled false false i)
  /\ index_in_range 4
       (QuarterHW.clocks 4 8 false false false (fun _ => 77)
          [sample_disabled; sample_enabled 9 true]
          (QuarterHW.step 4 8 false false false (fun _ => 77)
             posedge_i_clk i
             (QuarterHW.Regs true true 1000 200 56 true true true))).
Proof.
  intros i.
  assert (E : enabled false false i) by (split; reflexivity).
  split; [split; [lia | exact E]|].
  apply (quarter_index_in_range 4 8 false false false (fun _ => 77)
           [sample_disabled; sample_enabled 9 true] posedge_i_clk i
           (QuarterHW.Regs true true 1000 200 56 true true true));
    [lia | right; split; [reflexivity | exact E]].
Defined.

Lemma quarter_after_reset_witness :
  let i := Inputs true true true 9 true in
  let e0 := sample_enabled 13 false in
  let e1 := sample_enabled 2 false in
  let e2 := sample_enabled 7 false in
  let table := fun j : Z => 10 + j in
  let run := QuarterHW.clocks 4 8 true false false table in
  let r0 := QuarterHW.step 4 8 true false false table posedge_i_clk i
              (QuarterHW.Regs true true 3 200 56 true true true) in
  always_reset true false posedge_i_clk i = ResetBranch
  /\ QuarterHW.o_val (run [] r0) = 0
  /\ QuarterHW.o_val (run ([] ++ e0 :: [sample_disabled]) r0) = 0
  /\ QuarterHW.o_val (run ([] ++ e0 :: [sample_disabled] ++ e1 :: []) r0)
     = table 0
  /\ QuarterHW.o_val
       (run ([] ++ e0 :: [sample_disabled] ++ e1 :: [] ++ e2 :: []) r0)
     = QuarterHW.lookup 4 8 table (i_phase e0).
Proof.
  intros i e0 e1 e2 table run r0.
  split; [reflexivity|].
  apply (quarter_after_reset 4 8 true false false table posedge_i_clk i
           (QuarterHW.Regs true true 3 200 56 true true true)
           e0 e1 e2 [] [sample_disabled] [] []);
    try reflexivity; try (split; reflexivity); repeat constructor.
Defined.

Lemma quarter_wave_symmetry_witness :
  (2 < 4 /\ 0 <= 3 < 2 ^ (4 - 1))
  /\ QuarterHW.lookup 4 8 (fun j => 10 + j) (2 ^ (4 - 1) - 1 - 3)
     = QuarterHW.lookup 4 8 (fun j => 10 + j) 3
  /\ QuarterHW.lookup 4 8 (fun j => 10 + j) (3 + 2 ^ (4 - 1))
     = neg 8 (QuarterHW.lookup 4 8 (fun j => 10 + j) 3).
Proof.
  split; [lia|].
  apply (quarter_wave_symmetry 4 8 (fun j => 10 + j) 3); lia.
Defined.

Lemma entry_read_by_four_phases_witness :
  (2 < 4 /\ 0 <= 1 < 2 ^ (4 - 2) /\ 0 <= 14 < 2 ^ 4)
  /\ (QuarterHW.fold_index 4 14 = 1
      <-> In (14, QuarterHW.fold_negate 4 14) (phases_of_entry 4 1)).
Proof.
  split; [lia|].
  apply (entry_read_by_four_phases 4 1 14); lia.
Defined.

Lemma quarter_module_samples_witness :
  let i0 := sample_enabled 13 false in
  let i1 := sample_enabled 2 false in
  let i2 := sample_enabled 7 false in
  let c := HexCall "quarterwav.v" (4 - 2) 8
             (quarterwav_tbldata sample_sin 4 8) in
  (sine_in_range sample_sin
   /\ enabled false false i0 /\ enabled false false i1
   /\ enabled false false i2
   /\ Forall (disabled false false) [sample_disabled])
  /\ signed 8
       (QuarterHW.o_val
          (QuarterHW.clocks 4 8 false false false (loaded c)
             ([sample_enabled 1 true]
              ++ i0 :: [sample_disabled] ++ i1 :: [] ++ i2 :: [])
             quarter_zero))
     = (if QuarterHW.fold_negate 4 (i_phase i0)
        then - quarterwav_entry 4 8 (QuarterHW.fold_index 4 (i_phase i0))
        else quarterwav_entry 4 8 (QuarterHW.fold_index 4 (i_phase i0))).
Proof.
  intros i0 i1 i2 c.
  assert (E0 : enabled false false i0) by (split; reflexivity).
  assert (E1 : enabled false false i1) by (split; reflexivity).
  assert (E2 : enabled false false i2) by (split; reflexivity).
  assert (D : Forall (disabled false false) [sample_disabled])
    by (repeat constructor).
  split; [split; [exact sample_sin_in_range | repeat split; assumption]|].
  apply (quarter_module_samples sample_sin "quarterwav.v" 4 8
           false false false
           [sample_enabled 1 true] quarter_zero i0 i1 i2
           [sample_disabled] [] []);
    [exact sample_sin_in_range | lia | lia | simpl; lia
    | exact E0 | exact E1 | exact E2 | exact D
    | constructor | constructor].
Defined.


Lemma sintable_zero_and_peaks_witness :
  (value (sample_sin (sintable_phase 2 0)) = 0%R
   /\ value (sample_sin (sintable_phase 2 1)) = 1%R
   /\ value (sample_sin (sintable_phase 2 3)) = (-1)%R
   /\ 2 <= 4 < 24 /\ 1 <= 8 <= 54 /\ 55 <= 55 <= 63)
  /\ returns (sample_sintable "sintable.v" 4 8 false false false fresh) fresh
       (fun _ c =>
          nth_error (persisted c) 0 = Some (Some 0)
          /\ nth_error (persisted c) (Z.to_nat (2 ^ (4 - 2)))
             = Some (Some (maxValue 8))
          /\ nth_error (persisted c) (Z.to_nat (3 * 2 ^ (4 - 2)))
             = Some (Some (- maxValue 8)))
  /\ returns (sample_sintable "sintable.v" 4 55 false false false fresh) fresh
       (fun _ c =>
          nth_error (persisted c) 0 = Some (Some 0)
          /\ nth_error (persisted c) (Z.to_nat (2 ^ (4 - 2)))
             = Some (Some (maxValue 55 + 1))
          /\ nth_error (persisted c) (Z.to_nat (3 * 2 ^ (4 - 2)))
             = Some (Some (- (maxValue 55 + 1)))).
Proof.
  assert (S0 : value (sample_sin (sintable_phase 2 0)) = 0%R)
    by apply value_zero.
  assert (S1 : value (sample_sin (sintable_phase 2 1)) = 1%R)
    by exact sample_sin_quarter_period.
  assert (S3 : value (sample_sin (sintable_phase 2 3)) = (-1)%R).
  { change (sample_sin (sintable_phase 2 3))
      with (Double (- 4503599627370496) (- 52)).
    rewrite value_dyadic.
    change (2 ^ 52) with 4503599627370496. field. }
  split; [repeat split; (assumption || lia)|].
  apply (sintable_zero_and_peaks sample_legal sample_modulename
           sample_PROJECT sample_sin "sintable.v" 4 8 55
           false false false fresh S0 S1 S3); lia.
Defined.

Lemma sintable_negative_width_witness :
  -1 < 0
  /\ int_shl_defined 1 (-1) = false
  /\ sample_sintable "sintable.v" (-1) 8 false false false fresh
     = Undefined
         (World (emitted (sample_sintable "sintable.v" (-1) 8
                            false false false))
                "" [])
  /\ ends endmodule
          (emitted (sample_sintable "sintable.v" (-1) 8 false false false)).
Proof.
  split; [lia|].
  apply (sintable_negative_width sample_legal sample_modulename
           sample_PROJECT sample_sin "sintable.v" (-1) 8
           false false false fresh).
  lia.
Defined.

End FurtherInputs.
